(** * DOE-PB scraper: link resolution, record extraction and historical crawl

    A shallow embedding of [automation/doe_pb_core.py] and the properties
    its specification states about it.

    Conventions.
    - A Python [str] is a list of Unicode code points ([list N]); [bytes]
      is a list of byte values ([list N] as well).  Literals are written
      with [utf8 "..."], which decodes the UTF-8 text of this file.
    - The Unicode database of the Python runtime ([str.lower], [str.upper],
      [unicodedata.normalize], [unicodedata.category], the case folding of
      [re.IGNORECASE], [\w], [\d]) is not part of the repository: it is a
      parameter ([PyUnicode]) of everything that uses it.  [Latin1] is an
      instance that tabulates Basic Latin, the Latin-1 Supplement and the
      combining diacritical marks; concrete evaluations use it.
    - The browser, the HTTP client and the PDF decoder are collaborators:
      the rendered pages, the answers of [urlopen] and the decoded page texts
      are fields of an environment, and so is whether [urllib.request.Request],
      [urllib.parse.urljoin] and the PDF decoder raise.
    - A call that can raise gives a [result]; the crawl keeps a flag that
      tells whether an exception left it. *)

From Stdlib Require Import NArith ZArith Bool Lia.
From Stdlib Require Import Ascii String Sorted.
From stdpp Require Import base list gmap.

Local Open Scope N_scope.
Local Open Scope list_scope.

(** ** Strings *)

Abbreviation str := (list N).

Module Utf8.

Fixpoint bytes_of (s : string) : list N :=
  match s with
  | EmptyString => []
  | String a s' => N_of_ascii a :: bytes_of s'
  end.

Definition cont (b : N) : N := N.land b 63.

Fixpoint decode (bs : list N) : str :=
  match bs with
  | [] => []
  | b :: t =>
      if b <? 128 then b :: decode t
      else if b <? 224 then
        match t with
        | b1 :: t1 => (N.land b 31 * 64 + cont b1) :: decode t1
        | _ => []
        end
      else if b <? 240 then
        match t with
        | b1 :: b2 :: t2 => (N.land b 15 * 4096 + cont b1 * 64 + cont b2) :: decode t2
        | _ => []
        end
      else
        match t with
        | b1 :: b2 :: b3 :: t3 =>
            (N.land b 7 * 262144 + cont b1 * 4096 + cont b2 * 64 + cont b3) :: decode t3
        | _ => []
        end
  end.

End Utf8.

Definition utf8 (s : string) : str := Utf8.decode (Utf8.bytes_of s).

Definition str_eqb (a b : str) : bool := bool_decide (a = b).

(** [s.startswith(p)] *)
Fixpoint startswith (p s : str) : bool :=
  match p, s with
  | [], _ => true
  | _ :: _, [] => false
  | a :: p', b :: s' => (a =? b) && startswith p' s'
  end.

(** [s.endswith(p)] *)
Definition endswith (p s : str) : bool := startswith (rev p) (rev s).

(** [p in s] for strings *)
Fixpoint str_in (p s : str) : bool :=
  startswith p s ||
  match s with
  | [] => false
  | _ :: s' => str_in p s'
  end.

(** [str.isspace] on one character; also the class [\s] of [re] on [str]
    patterns (both are [Py_UNICODE_ISSPACE]). *)
Definition isspace (c : N) : bool :=
  ((9 <=? c) && (c <=? 13)) || ((28 <=? c) && (c <=? 32)) ||
  (c =? 133) || (c =? 160) || (c =? 5760) ||
  ((8192 <=? c) && (c <=? 8202)) || (c =? 8232) || (c =? 8233) ||
  (c =? 8239) || (c =? 8287) || (c =? 12288).

Fixpoint lstrip_by (p : N -> bool) (s : str) : str :=
  match s with
  | [] => []
  | c :: s' => if p c then lstrip_by p s' else s
  end.

Definition rstrip_by (p : N -> bool) (s : str) : str :=
  rev (lstrip_by p (rev s)).

Definition strip_by (p : N -> bool) (s : str) : str :=
  rstrip_by p (lstrip_by p s).

Definition mem_chars (chars : str) (c : N) : bool := existsb (N.eqb c) chars.

(** [s.strip()] and [s.strip(chars)], [s.rstrip(chars)] *)
Definition strip (s : str) : str := strip_by isspace s.
Definition strip_chars (chars s : str) : str := strip_by (mem_chars chars) s.
Definition rstrip_chars (chars s : str) : str := rstrip_by (mem_chars chars) s.

(** [s.split(sep)] for a non-empty separator: [skip] counts the characters
    of a separator just found that are still to be passed over. *)
Fixpoint split_aux (sep : str) (skip : nat) (acc : str) (s : str) : list str :=
  match s with
  | [] => [rev acc]
  | c :: s' =>
      match skip with
      | S k => split_aux sep k acc s'
      | O =>
          if startswith sep s
          then rev acc :: split_aux sep (length sep - 1) [] s'
          else split_aux sep 0 (c :: acc) s'
      end
  end.

Definition split (sep s : str) : list str := split_aux sep 0 [] s.

(** [s.split()]: maximal runs of non-whitespace characters. *)
Fixpoint split_ws_aux (acc : str) (s : str) : list str :=
  match s with
  | [] => match acc with [] => [] | _ => [rev acc] end
  | c :: s' =>
      if isspace c
      then match acc with
           | [] => split_ws_aux [] s'
           | _ => rev acc :: split_ws_aux [] s'
           end
      else split_ws_aux (c :: acc) s'
  end.

Definition split_ws (s : str) : list str := split_ws_aux [] s.

(** [re.sub(r"\s+", " ", s)]: every maximal run of whitespace becomes one
    space.  [in_run] tells that the previous character was whitespace, so
    that the run's space has been written already. *)
Fixpoint sub_ws_aux (in_run : bool) (s : str) : str :=
  match s with
  | [] => []
  | c :: s' =>
      if isspace c
      then if in_run then sub_ws_aux true s' else 32 :: sub_ws_aux true s'
      else c :: sub_ws_aux false s'
  end.

Definition sub_ws (s : str) : str := sub_ws_aux false s.

(** ** The Unicode tables of the Python runtime *)

Record PyUnicode := {
  str_lower : str -> str;        (* [s.lower()] *)
  str_upper : str -> str;        (* [s.upper()] *)
  nfd : str -> str;              (* [unicodedata.normalize("NFD", s)] *)
  category_Mn : N -> bool;       (* [unicodedata.category(c) == "Mn"] *)
  sre_ci : N -> N -> bool;       (* a text character against a pattern
                                    character under [re.IGNORECASE] *)
  isalnum : N -> bool;           (* [c.isalnum()]: [\w] is this or "_" *)
  decimal : N -> option N        (* the digit value of a [\d] character *)
}.

(** ** Regular expressions

    The patterns of the source are terms of [regex]; [run] is a backtracking
    matcher with the priorities of Python's [re]: alternatives left to
    right, greedy repetitions longest first, lazy ones shortest first.  An
    iteration of a repetition that consumes nothing is not taken; no pattern
    of the source repeats a body that can match the empty string. *)

Module Re.

Inductive class_item :=
| Ch (c : N)            (* a character *)
| Rg (lo hi : N)        (* a range lo-hi *)
| Sp                    (* \s *)
| Dg.                   (* \d *)

Inductive regex :=
| Eps
| Lit (c : N)
| Dot                                   (* . *)
| Cls (neg : bool) (items : list class_item)  (* [...] and [^...] *)
| Eos                                   (* $ *)
| Wb                                    (* \b *)
| Seq (r1 r2 : regex)
| Alt (r1 r2 : regex)
| Rep (r : regex) (lo : nat) (hi : option nat) (greedy : bool)
| Grp (n : nat) (r : regex).            (* capturing group number n *)

Fixpoint cat (rs : list regex) : regex :=
  match rs with
  | [] => Eps
  | [r] => r
  | r :: rs' => Seq r (cat rs')
  end.

Fixpoint alt (rs : list regex) : regex :=
  match rs with
  | [] => Cls false []
  | [r] => r
  | r :: rs' => Alt r (alt rs')
  end.

Definition lits (s : str) : regex := cat (map Lit s).
Definition set (s : str) : regex := Cls false (map Ch s).
Definition nset (s : str) : regex := Cls true (map Ch s).
Definition opt (r : regex) : regex := Rep r 0 (Some 1%nat) true.
Definition star (r : regex) : regex := Rep r 0 None true.
Definition plus (r : regex) : regex := Rep r 1 None true.
Definition atleast (n : nat) (r : regex) : regex := Rep r n None true.
Definition atleast_lazy (n : nat) (r : regex) : regex := Rep r n None false.
Definition exactly (n : nat) (r : regex) : regex := Rep r n (Some n) true.

Record mstate := {
  pos : nat;                  (* index of the next character *)
  prev : option N;            (* the character before it *)
  rest : str;                 (* the text from [pos] on *)
  caps : list (nat * str)     (* groups closed so far, latest first *)
}.

Record rmatch := {
  m_start : nat;
  m_end : nat;
  m_prev : option N;
  m_rest : str;
  m_groups : list (nat * str)
}.

Fixpoint assoc (n : nat) (l : list (nat * str)) : option str :=
  match l with
  | [] => None
  | (k, v) :: l' => if Nat.eqb k n then Some v else assoc n l'
  end.

(** [m.group(n)]; every group of the source's patterns takes part in every
    match, so that the result is a string. *)
Definition group (n : nat) (m : rmatch) : str :=
  match assoc n (m_groups m) with
  | Some s => s
  | None => []
  end.

Section Matcher.

Context (U : PyUnicode).
Context (ic : bool).   (* re.IGNORECASE *)

Definition chr_eq (c x : N) : bool :=
  if ic then sre_ci U c x else c =? x.

Definition in_item (c : N) (it : class_item) : bool :=
  match it with
  | Ch x => chr_eq c x
  | Rg lo hi =>
      if ic then existsb (fun i => sre_ci U c (lo + N.of_nat i)) (seq 0 (N.to_nat (hi + 1 - lo)))
      else (lo <=? c) && (c <=? hi)
  | Sp => isspace c
  | Dg => match decimal U c with Some _ => true | None => false end
  end.

Definition is_word (o : option N) : bool :=
  match o with
  | Some c => isalnum U c || (c =? 95)
  | None => false
  end.

Definition eat (c : N) (t : str) (st : mstate) : mstate :=
  {| pos := S (pos st); prev := Some c; rest := t; caps := caps st |}.

Definition close_group (n : nat) (st0 st : mstate) : mstate :=
  {| pos := pos st; prev := prev st; rest := rest st;
     caps := (n, firstn (pos st - pos st0) (rest st0)) :: caps st |}.

Definition one (p : N -> bool) {R} (st : mstate) (k : mstate -> option R) : option R :=
  match rest st with
  | c :: t => if p c then k (eat c t st) else None
  | [] => None
  end.

Fixpoint run {R} (r : regex) (st : mstate) (k : mstate -> option R) {struct r} : option R :=
  match r with
  | Eps => k st
  | Lit x => one (fun c => chr_eq c x) st k
  | Dot => one (fun c => negb (c =? 10)) st k
  | Cls neg items => one (fun c => xorb neg (existsb (in_item c) items)) st k
  | Eos =>
      match rest st with
      | [] => k st
      | [c] => if c =? 10 then k st else None
      | _ => None
      end
  | Wb => if xorb (is_word (prev st)) (is_word (head (rest st))) then k st else None
  | Seq r1 r2 => run r1 st (fun st1 => run r2 st1 k)
  | Alt r1 r2 =>
      match run r1 st k with
      | Some x => Some x
      | None => run r2 st k
      end
  | Rep r lo hi greedy =>
      (fix loop (fuel n : nat) (st : mstate) {struct fuel} : option R :=
         match fuel with
         | O => if Nat.leb lo n then k st else None
         | S fuel' =>
             if match hi with Some h => Nat.leb h n | None => false end
             then (if Nat.leb lo n then k st else None)
             else if greedy then
               match run r st (fun st' =>
                        if Nat.ltb (pos st) (pos st') then loop fuel' (S n) st' else None) with
               | Some x => Some x
               | None => if Nat.leb lo n then k st else None
               end
             else
               match (if Nat.leb lo n then k st else None) with
               | Some x => Some x
               | None => run r st (fun st' =>
                           if Nat.ltb (pos st) (pos st') then loop fuel' (S n) st' else None)
               end
         end) (S (length (rest st))) O st
  | Grp n r => run r st (fun st' => k (close_group n st st'))
  end.

Definition match_at (r : regex) (p : nat) (pv : option N) (s : str) : option rmatch :=
  run r {| pos := p; prev := pv; rest := s; caps := [] |}
      (fun st => Some {| m_start := p; m_end := pos st; m_prev := prev st;
                         m_rest := rest st; m_groups := caps st |}).

Fixpoint search_from (r : regex) (p : nat) (pv : option N) (s : str) : option rmatch :=
  match match_at r p pv s with
  | Some m => Some m
  | None =>
      match s with
      | [] => None
      | c :: t => search_from r (S p) (Some c) t
      end
  end.

(** [pattern.search(s)] *)
Definition search (r : regex) (s : str) : option rmatch := search_from r 0 None s.

(** [pattern.finditer(s)]: the successive non-overlapping matches, each
    search starting where the previous match ended.  No pattern of the
    source matches the empty string; after an empty match the scan moves
    one character on. *)
Fixpoint finditer_from (fuel : nat) (r : regex) (p : nat) (pv : option N) (s : str)
  : list rmatch :=
  match fuel with
  | O => []
  | S fuel' =>
      match search_from r p pv s with
      | None => []
      | Some m =>
          m :: (if Nat.ltb (m_start m) (m_end m)
                then finditer_from fuel' r (m_end m) (m_prev m) (m_rest m)
                else match m_rest m with
                     | [] => []
                     | c :: t => finditer_from fuel' r (S (m_end m)) (Some c) t
                     end)
      end
  end.

Definition finditer (r : regex) (s : str) : list rmatch :=
  finditer_from (S (length s)) r 0 None s.

(** [pattern.findall(s)] for a pattern with one group *)
Definition findall1 (r : regex) (s : str) : list str := map (group 1) (finditer r s).

End Matcher.

End Re.

(** ** An instance of the Unicode tables

    Basic Latin and the Latin-1 Supplement (U+0000 to U+00FF) and the
    combining diacritical marks (U+0300 to U+036F, all of category Mn).
    Other code points are left as they are: caseless, not decomposable,
    not alphanumeric.  The canonical reordering of consecutive combining
    marks is not tabulated; [nrm] removes these marks altogether. *)

Module Latin1Tables.

Definition is_upper (c : N) : bool :=
  ((65 <=? c) && (c <=? 90)) || ((192 <=? c) && (c <=? 222) && negb (c =? 215)).

Definition is_lower_shift (c : N) : bool :=
  ((97 <=? c) && (c <=? 122)) || ((224 <=? c) && (c <=? 254) && negb (c =? 247)).

Definition lower1 (c : N) : N := if is_upper c then c + 32 else c.

Definition upper_full (c : N) : str :=
  if is_lower_shift c then [c - 32]
  else if c =? 223 then [83; 83]       (* ß *)
  else if c =? 255 then [376]          (* ÿ *)
  else if c =? 181 then [924]          (* µ *)
  else [c].

(** Canonical decompositions of U+00C0 to U+00DF by offset: base letter
    and combining mark; the lower-case letters U+00E0 to U+00FF follow
    the same layout, and U+00FF is y with diaeresis. *)
Definition decomp_upper : list (N * (N * N)) :=
  [ (0, (65, 768)); (1, (65, 769)); (2, (65, 770)); (3, (65, 771)); (4, (65, 776));
    (5, (65, 778)); (7, (67, 807));
    (8, (69, 768)); (9, (69, 769)); (10, (69, 770)); (11, (69, 776));
    (12, (73, 768)); (13, (73, 769)); (14, (73, 770)); (15, (73, 776));
    (17, (78, 771));
    (18, (79, 768)); (19, (79, 769)); (20, (79, 770)); (21, (79, 771)); (22, (79, 776));
    (25, (85, 768)); (26, (85, 769)); (27, (85, 770)); (28, (85, 776));
    (29, (89, 769)) ].

Fixpoint find_off (o : N) (l : list (N * (N * N))) : option (N * N) :=
  match l with
  | [] => None
  | (k, v) :: l' => if k =? o then Some v else find_off o l'
  end.

Definition decomp (c : N) : str :=
  if (192 <=? c) && (c <=? 223) then
    match find_off (c - 192) decomp_upper with
    | Some (b, m) => [b; m]
    | None => [c]
    end
  else if c =? 255 then [121; 776]
  else if (224 <=? c) && (c <=? 254) then
    match find_off (c - 224) decomp_upper with
    | Some (b, m) => [b + 32; m]
    | None => [c]
    end
  else [c].

Definition is_Mn (c : N) : bool := (768 <=? c) && (c <=? 879).

Definition alnum (c : N) : bool :=
  ((48 <=? c) && (c <=? 57)) || ((65 <=? c) && (c <=? 90)) || ((97 <=? c) && (c <=? 122)) ||
  (c =? 170) || (c =? 178) || (c =? 179) || (c =? 181) || (c =? 185) || (c =? 186) ||
  ((188 <=? c) && (c <=? 190)) ||
  ((192 <=? c) && (c <=? 255) && negb (c =? 215) && negb (c =? 247)).

Definition digit (c : N) : option N :=
  if (48 <=? c) && (c <=? 57) then Some (c - 48) else None.

End Latin1Tables.

Definition Latin1 : PyUnicode := {|
  str_lower := map Latin1Tables.lower1;
  str_upper := flat_map Latin1Tables.upper_full;
  nfd := flat_map Latin1Tables.decomp;
  category_Mn := Latin1Tables.is_Mn;
  sre_ci := fun c x => Latin1Tables.lower1 c =? Latin1Tables.lower1 x;
  isalnum := Latin1Tables.alnum;
  decimal := Latin1Tables.digit
|}.

(** ** Constants and patterns of the module *)

Definition chr (s : string) : N := List.hd 0 (utf8 s).

Definition CUTOFF_YEAR_STOP : Z := 2019.
Definition PAGE_STEP : nat := 12.
Definition BASE_URL : str := utf8 "https://auniao.pb.gov.br/doe/edicoes-recentes".

(** A compiled pattern: the expression and whether it carries [(?i)]. *)
Record pattern := { ignorecase : bool; expr : Re.regex }.

Import Re.

Definition sp : regex := Cls false [Sp].
Definition digit : regex := Cls false [Dg].

(** [A-ZÁÉÍÓÚÂÊÔÃÕÇ] *)
Definition UPPER : list class_item :=
  Rg (chr "A") (chr "Z") :: map Ch (utf8 "ÁÉÍÓÚÂÊÔÃÕÇ").

(** [A-ZÁÉÍÓÚÂÊÔÃÕÇ\s\-.] *)
Definition NAME_CHARS : list class_item := UPPER ++ [Sp; Ch (chr "-"); Ch (chr ".")].

(** [A-Z0-9./\-] *)
Definition TOKEN_CHARS : list class_item :=
  [Rg (chr "A") (chr "Z"); Rg (chr "0") (chr "9"); Ch (chr "."); Ch (chr "/"); Ch (chr "-")].

(** [(\d{2})[-/](\d{2})[-/](\d{4})] *)
Definition RE_DATE : pattern :=
  {| ignorecase := false;
     expr := cat [Grp 1 (exactly 2 digit); set (utf8 "-/");
                  Grp 2 (exactly 2 digit); set (utf8 "-/");
                  Grp 3 (exactly 4 digit)] |}.

(** [\b([A-ZÁÉÍÓÚÂÊÔÃÕÇ]{2,}(?:\s+[A-ZÁÉÍÓÚÂÊÔÃÕÇ]{2,}){1,})\b] *)
Definition RE_NOME_CAIXA : pattern :=
  {| ignorecase := false;
     expr := cat [Wb;
                  Grp 1 (cat [atleast 2 (Cls false UPPER);
                              atleast 1 (cat [plus sp; atleast 2 (Cls false UPPER)])]);
                  Wb] |}.

(** The tail shared by [RE_MATRICULA] and [RE_PROCESSO]: an optional
    [\s*n] followed by any of [ºo°.-:], then [\s*[:\-]?\s*] and the group
    [([A-Z0-9./\-]+)]. *)
Definition label_tail : list regex :=
  [opt (cat [star sp; Lit (chr "n"); star (set (utf8 "ºo°.-:"))]);
   star sp; opt (set (utf8 ":-")); star sp;
   Grp 1 (plus (Cls false TOKEN_CHARS))].

(** [(?i)matricul[ao]?] and the tail *)
Definition RE_MATRICULA : pattern :=
  {| ignorecase := true;
     expr := cat ([lits (utf8 "matricul"); opt (set (utf8 "ao"))] ++ label_tail) |}.

(** [(?i)processo] and the tail *)
Definition RE_PROCESSO : pattern :=
  {| ignorecase := true;
     expr := cat ([lits (utf8 "processo")] ++ label_tail) |}.

(** [(?i)conceder\s+(?:aposentadori[ao]|pens[aã]o)\s+(?:vital[ií]cia|tempor[áa]ria)?\s*(?:,?\s*por[^,.;]+)?\s*a[oà]?\s+([A-ZÁÉÍÓÚÂÊÔÃÕÇ][A-ZÁÉÍÓÚÂÊÔÃÕÇ\s\-.]{6,}?)(?:,|\.|;|$)] *)
Definition RE_NOME_POS_FRASE : pattern :=
  {| ignorecase := true;
     expr := cat [lits (utf8 "conceder"); plus sp;
                  alt [cat [lits (utf8 "aposentadori"); set (utf8 "ao")];
                       cat [lits (utf8 "pens"); set (utf8 "aã"); Lit (chr "o")]];
                  plus sp;
                  opt (alt [cat [lits (utf8 "vital"); set (utf8 "ií"); lits (utf8 "cia")];
                            cat [lits (utf8 "tempor"); set (utf8 "áa"); lits (utf8 "ria")]]);
                  star sp;
                  opt (cat [opt (Lit (chr ",")); star sp; lits (utf8 "por");
                            plus (nset (utf8 ",.;"))]);
                  star sp;
                  Lit (chr "a"); opt (set (utf8 "oà"));
                  plus sp;
                  Grp 1 (cat [Cls false UPPER; atleast_lazy 6 (Cls false NAME_CHARS)]);
                  alt [Lit (chr ","); Lit (chr "."); Lit (chr ";"); Eos]] |}.

(** [(?i)(?:servidor(?:a)?|benefici[áa]ri[ao]|pensionist[ao]|requerente)\s+([A-ZÁÉÍÓÚÂÊÔÃÕÇ][A-ZÁÉÍÓÚÂÊÔÃÕÇ\s\-.]{6,})] *)
Definition RE_NOME_SERVIDOR : pattern :=
  {| ignorecase := true;
     expr := cat [alt [cat [lits (utf8 "servidor"); opt (Lit (chr "a"))];
                       cat [lits (utf8 "benefici"); set (utf8 "áa"); lits (utf8 "ri");
                            set (utf8 "ao")];
                       cat [lits (utf8 "pensionist"); set (utf8 "ao")];
                       lits (utf8 "requerente")];
                  plus sp;
                  Grp 1 (cat [Cls false UPPER; atleast 6 (Cls false NAME_CHARS)])] |}.

(** [(?i)matricul|processo|benefici[áa]ri[ao]|pensionist[ao]], the keyword
    search of the name fallback *)
Definition RE_KEYWORD : pattern :=
  {| ignorecase := true;
     expr := alt [lits (utf8 "matricul"); lits (utf8 "processo");
                  cat [lits (utf8 "benefici"); set (utf8 "áa"); lits (utf8 "ri");
                       set (utf8 "ao")];
                  cat [lits (utf8 "pensionist"); set (utf8 "ao")]] |}.

(** [\b[A-ZÁÉÍÓÚÂÊÔÃÕÇ]{2,}\s+[A-ZÁÉÍÓÚÂÊÔÃÕÇ]{2,}\b], the sort key's test *)
Definition RE_PAIR : pattern :=
  {| ignorecase := false;
     expr := cat [Wb; atleast 2 (Cls false UPPER); plus sp;
                  atleast 2 (Cls false UPPER); Wb] |}.

(** The pattern of the raw-markup scan, a raw string compiled with
    [flags=re.I]: [href=], a class Q, the group, the class Q again.  Q is
    written as a double quote, two backslashes and an escaped apostrophe:
    in a raw string the two backslashes are the expression for one
    backslash, so Q holds the double quote, the backslash and the
    apostrophe.  The group is: one or more characters not in Q, then
    [\\.pdf], which is a backslash, any character and [pdf], then any
    characters not in Q. *)
Definition QUOTES : str := [34; 92; 39].

Definition RE_HREF : pattern :=
  {| ignorecase := true;
     expr := cat [lits (utf8 "href="); set QUOTES;
                  Grp 1 (cat [plus (nset QUOTES); Lit 92; Dot; lits (utf8 "pdf");
                              star (nset QUOTES)]);
                  set QUOTES] |}.

Definition BAD_TOKENS : gset str :=
  list_to_set (split_ws (utf8
    "APOSENTADORIA PENSÃO PENSAO PORTARIA GABINETE PRESIDÊNCIA PRESIDENCIA ESTADO PARAÍBA PARAIBA
DO DA DE E O A DIÁRIO OFICIAL GOVERNO PBPREV SECRETARIA RESOLVE CONCEDER VOLUNTÁRIA COMPULSÓRIA COMPULSORIA")).

(** ** Text normalizer and record extractor *)

Inductive tipo :=
| APOSENTADORIA
| PENSAO
| ISENCAO_INDEFERIDA.

(** The dictionary appended to [registros]. *)
Record registro := {
  tipo_ato : tipo;
  nome : str;
  matricula : str;
  processo : str;
  pagina : nat;
  trecho : str
}.

(** [s[a:b]] for [0 <= a] and [0 <= b] *)
Definition slice (a b : nat) (s : str) : str := firstn (b - a) (skipn a s).

(** A stable sort on a key, as [list.sort(key=...)]. *)
Fixpoint insert_by {A} (le : A -> A -> bool) (x : A) (l : list A) : list A :=
  match l with
  | [] => [x]
  | y :: l' => if le x y then x :: l else y :: insert_by le x l'
  end.

Definition sort_by {A} (le : A -> A -> bool) (l : list A) : list A :=
  List.fold_right (insert_by le) [] l.

(** Order of the keys [(int, bool)] *)
Definition key_le (a b : Z * bool) : bool :=
  (fst a <? fst b)%Z || ((fst a =? fst b)%Z && implb (snd a) (snd b)).

Section Extractor.

Context (U : PyUnicode).

Definition p_search (p : pattern) (s : str) : option rmatch :=
  search U (ignorecase p) (expr p) s.

Definition p_findall (p : pattern) (s : str) : list str :=
  findall1 U (ignorecase p) (expr p) s.

Definition p_finditer (p : pattern) (s : str) : list rmatch :=
  finditer U (ignorecase p) (expr p) s.

Definition nrm (s : str) : str :=
  List.filter (fun c => negb (category_Mn U c)) (nfd U (str_lower U s)).

(** The classification of a flattened block: [tipo] of the source, [None]
    when it stays unset. *)
Definition tipo_of (bflat : str) : option tipo :=
  let nb := nrm bflat in
  if str_in (utf8 "conceder aposentadoria") nb then Some APOSENTADORIA
  else if str_in (utf8 "conceder pensao") nb
          || str_in (utf8 "conceder pensão") (str_lower U bflat) then Some PENSAO
  else if (str_in (utf8 "isencao de imposto de renda") nb
           || str_in (utf8 "isenção de imposto de renda") (str_lower U bflat))
          && str_in (utf8 "indef") nb then Some ISENCAO_INDEFERIDA
  else None.

Definition NAME_TRIM : str := utf8 " .;-:,".
Definition FIELD_TRIM : str := utf8 ".,; ".

(** First step of the cascade: the name after the phrase. *)
Definition nome_pos_frase (bflat : str) : str :=
  match p_search RE_NOME_POS_FRASE bflat with
  | Some m => strip_chars NAME_TRIM (group 1 m)
  | None => []
  end.

(** Second step: the name after a role noun. *)
Definition nome_servidor (bflat : str) : str :=
  match p_search RE_NOME_SERVIDOR bflat with
  | Some m2 => strip_chars NAME_TRIM (group 1 m2)
  | None => []
  end.

Definition sort_key (x : str) : Z * bool :=
  (- Z.of_nat (length x),
   negb (match p_search RE_PAIR x with Some _ => true | None => false end))%Z.

(** Third step: upper-case runs in a window around the first keyword. *)
Definition nome_janela (bflat : str) : str :=
  let win :=
    match p_search RE_KEYWORD bflat with
    | Some km =>
        let start := (m_start km - 120)%nat in
        let end_ := Nat.min (length bflat) (m_end km + 120) in
        slice start end_ bflat
    | None => bflat
    end in
  let nomes := p_findall RE_NOME_CAIXA win in
  let cand :=
    map strip
      (List.filter (fun nm =>
                 let parts := split_ws nm in
                 negb (Nat.ltb (length parts) 2)
                 && negb (existsb (fun p => bool_decide (str_upper U p ∈ BAD_TOKENS)) parts))
              nomes) in
  match sort_by (fun x y => key_le (sort_key x) (sort_key y)) cand with
  | x :: _ => x
  | [] => []
  end.

Definition nome_of (bflat : str) : str :=
  match nome_pos_frase bflat with
  | (_ :: _) as n => n
  | [] =>
      match nome_servidor bflat with
      | (_ :: _) as n => n
      | [] => nome_janela bflat
      end
  end.

Definition field_of (p : pattern) (bflat : str) : str :=
  match p_search p bflat with
  | Some m => strip_chars FIELD_TRIM (group 1 m)
  | None => []
  end.

(** The body of the loop over [raw_blocks]: the records one block adds. *)
Definition extract_block (i : nat) (bloco : str) : list registro :=
  let bflat := strip (sub_ws bloco) in
  match tipo_of bflat with
  | None => []
  | Some t =>
      [{| tipo_ato := t;
          nome := nome_of bflat;
          matricula := field_of RE_MATRICULA bflat;
          processo := field_of RE_PROCESSO bflat;
          pagina := i;
          trecho := firstn 260 bflat |}]
  end.

Definition nonblank (b : str) : bool :=
  match strip b with [] => false | _ => true end.

Definition raw_blocks (txt : str) : list str :=
  let bs := List.filter nonblank (split (utf8 "

") txt) in
  if Nat.ltb (length bs) 3
  then List.filter nonblank (split [10] txt)
  else bs.

(** One page: [pg] is what [extract_text()] returned. *)
Definition extract_page (i : nat) (pg : option str) : list registro :=
  let txt := default [] pg in
  match txt with
  | [] => []
  | _ => flat_map (extract_block i) (raw_blocks txt)
  end.

Fixpoint extract_pages (i : nat) (pages : list (option str)) : list registro :=
  match pages with
  | [] => []
  | pg :: pages' => extract_page i pg ++ extract_pages (S i) pages'
  end.

(** [_extract_records] on the pages the decoder opens from [pdf_bytes]. *)
Definition _extract_records (pages : list (option str)) : list registro :=
  extract_pages 1 pages.

End Extractor.

(** ** The collaborators

    What the browser renders for a URL, what the HTTP client answers and
    what the PDF decoder reads are given by a [world].  Browser calls are
    taken to return.  [urlopen] and [read] may raise, inside the [try] of
    [_download_pdf_bytes]; building the request, joining two URLs and
    decoding a PDF may raise as well, and nothing in the resolver catches
    that. *)

(** What a call gives: a value, or an exception that leaves the function. *)
Inductive result (A : Type) : Type :=
| Returns (a : A)
| Raised.

Arguments Returns {A} a.
Arguments Raised {A}.

Record anchor := {
  a_text : str;               (* [a.text] *)
  a_href : option str         (* [a.get_attribute("href")] *)
}.

Record page := {
  current_url : str;                (* [d.current_url] *)
  anchors : list anchor;            (* the elements [a[href]] *)
  iframes : list (option str);      (* [src] of the elements [iframe[src]] *)
  embeds : list (option str);       (* [src] of the elements [embed[src]] *)
  page_source : str                 (* [d.page_source] *)
}.

Record response := {
  content_type : option str;        (* the header, when present *)
  body : list N                     (* [resp.read()] *)
}.

Inductive outcome :=
| Raises                            (* [urlopen] or [read] raised *)
| Answers (resp : response).

Record world := {
  browse : str -> page;                               (* [d.get(url)] *)
  request_ok : str -> bool;                           (* [urllib.request.Request(url)] is built:
                                                         the URL has a scheme; ValueError otherwise *)
  urlopen : str -> list (str * str) -> outcome;       (* url and headers *)
  urljoin : str -> str -> option str;                 (* [urllib.parse.urljoin]; [None]: ValueError *)
  pdf_pages : list N -> option (list (option str))    (* [extract_text()] of each page; [None]:
                                                         [pdfplumber] raises *)
}.

(** ** Link resolver *)

(** What a call of [_find_pdf_link_in_detail] gives, the pair
    [(pdf_bytes, pdf_url)] or an exception, and the URLs it handed to
    [_download_pdf_bytes], in order. *)
Record resolution := {
  returned : result (option (list N) * str);
  fetched : list str
}.

Definition truthy (data : option (list N)) : bool :=
  match data with
  | Some (_ :: _) => true
  | _ => false
  end.

Section Resolver.

Context (U : PyUnicode) (W : world).

Definition headers (referer : option str) : list (str * str) :=
  [(utf8 "User-Agent", utf8 "Mozilla/5.0");
   (utf8 "Accept", utf8 "application/pdf,*/*;q=0.8")]
  ++ match referer with
     | Some ((_ :: _) as r) => [(utf8 "Referer", r)]
     | _ => []
     end.

(** The request is built before the [try]: a URL it does not accept
    raises out of the function.  What [urlopen] and [read] raise is caught. *)
Definition _download_pdf_bytes (url : str) (referer : option str) : result (option (list N)) :=
  if request_ok W url then
    match urlopen W url (headers referer) with
    | Raises => Returns None
    | Answers resp =>
        let ct := default [] (content_type resp) in
        let data := body resp in
        if str_eqb (firstn 4 data) (utf8 "%PDF") || str_in (utf8 "application/pdf") ct
        then Returns (Some data)
        else Returns None
    end
  else Raised.

(** [urljoin(base, h)] for each [h] in order, up to the first that raises *)
Fixpoint join_all (base : str) (hs : list str) : result (list str) :=
  match hs with
  | [] => Returns []
  | h :: hs' =>
      match urljoin W base h with
      | None => Raised
      | Some u =>
          match join_all base hs' with
          | Returns us => Returns (u :: us)
          | Raised => Raised
          end
      end
  end.

(** The [href]s and [src]s of the rendered page that qualify, before they
    are joined with the base. *)
Definition anchor_hrefs (pg : page) : list str :=
  List.filter (fun href => endswith (utf8 ".pdf") (str_lower U href)
                           || str_in (utf8 "@@download/file") href)
              (map (fun a => default [] (a_href a)) (anchors pg)).

Definition frame_srcs (srcs : list (option str)) : list str :=
  List.filter (fun src => str_in (utf8 ".pdf") src || str_in (utf8 "@@download/file") src)
              (map (default []) srcs).

Definition suffix_candidate (detail_url : str) : list str :=
  if endswith (utf8 ".pdf") (str_lower U detail_url)
     && negb (str_in (utf8 "/@@download/file") detail_url)
  then [rstrip_chars (utf8 "/") detail_url ++ utf8 "/@@download/file"]
  else [].

(** The candidates of the rendered page, before the fall-back on the
    detail reference. *)
Definition scanned (detail_url : str) : result (list str) :=
  let pg := browse W detail_url in
  let base := current_url pg in
  match join_all base (anchor_hrefs pg ++ frame_srcs (iframes pg) ++ frame_srcs (embeds pg)) with
  | Returns cs => Returns (cs ++ suffix_candidate detail_url)
  | Raised => Raised
  end.

(** [candidates] when the download loop starts *)
Definition candidates (detail_url : str) : result (list str) :=
  match scanned detail_url with
  | Returns [] => Returns [detail_url]
  | r => r
  end.

(** The loop over [candidates]; the second component lists the URLs
    handed to [_download_pdf_bytes]. *)
Fixpoint try_candidates (detail_url : str) (seen : gset str) (cs : list str)
  : result (option (list N * str)) * list str :=
  match cs with
  | [] => (Returns None, [])
  | u :: cs' =>
      if bool_decide (u ∈ seen) then try_candidates detail_url seen cs'
      else
        match _download_pdf_bytes u (Some detail_url) with
        | Raised => (Raised, [u])
        | Returns data =>
            if truthy data then (Returns (Some (default [] data, u)), [u])
            else
              let r := try_candidates detail_url ({[u]} ∪ seen) cs' in
              (fst r, u :: snd r)
        end
  end.

(** The loop over the matches of the pattern in the page source *)
Fixpoint try_matches (detail_url base : str) (ms : list rmatch)
  : result (option (list N * str)) * list str :=
  match ms with
  | [] => (Returns None, [])
  | m :: ms' =>
      match urljoin W base (group 1 m) with
      | None => (Raised, [])
      | Some u =>
          match _download_pdf_bytes u (Some detail_url) with
          | Raised => (Raised, [u])
          | Returns data =>
              if truthy data then (Returns (Some (default [] data, u)), [u])
              else
                let r := try_matches detail_url base ms' in
                (fst r, u :: snd r)
          end
      end
  end.

Definition _find_pdf_link_in_detail (detail_url : str) : resolution :=
  let pg := browse W detail_url in
  let base := current_url pg in
  match candidates detail_url with
  | Raised => {| returned := Raised; fetched := [] |}
  | Returns cands =>
      let r1 := try_candidates detail_url ∅ cands in
      match fst r1 with
      | Raised => {| returned := Raised; fetched := snd r1 |}
      | Returns (Some (data, u)) => {| returned := Returns (Some data, u); fetched := snd r1 |}
      | Returns None =>
          let html := page_source pg in
          let r2 := try_matches detail_url base (p_finditer U RE_HREF html) in
          match fst r2 with
          | Raised => {| returned := Raised; fetched := snd r1 ++ snd r2 |}
          | Returns (Some (data, u)) =>
              {| returned := Returns (Some data, u); fetched := snd r1 ++ snd r2 |}
          | Returns None =>
              {| returned := Returns (None, List.hd detail_url cands);
                 fetched := snd r1 ++ snd r2 |}
          end
      end
  end.

End Resolver.

(** ** Crawl controller *)

(** A tuple [(href, txt, year)] of [items] *)
Record item := {
  i_href : str;
  i_txt : str;
  i_year : option Z
}.

(** What a crawl does, in order. *)
Inductive event :=
| Listing (url : str)       (* [_iter_listing_page(url)] *)
| MarkSeen (href : str)     (* [seen.add(href)] *)
| Resolve (href : str)      (* [_find_pdf_link_in_detail(href)] *)
| Skip (href : str)         (* the resolution gave no bytes *)
| Extract (href : str).     (* [_extract_records(pdf_bytes)] *)

(** A row handed to the CSV writer *)
Record row := {
  data_link : str;
  detail_url : str;
  row_pdf_url : str;
  reg : registro
}.

(** The variables of [_historico_stream], the rows written, the trace,
    and whether an exception left the loop *)
Record crawl := {
  seen : gset str;
  saved : nat;
  rows_total : nat;
  written : list row;
  trace : list event;
  crashed : bool
}.

Definition is_listing (e : event) : bool :=
  match e with Listing _ => true | _ => false end.

(** [range(start, stop, step)] for [start <= stop] and a positive step *)
Definition py_range (start stop step : nat) : list nat :=
  map (fun k => (start + k * step)%nat) (seq 0 ((stop - start + step - 1) / step)).

(** [str(n)] for a natural number *)
Fixpoint digits_aux (fuel : nat) (n : N) (acc : str) : str :=
  match fuel with
  | O => acc
  | S fuel' =>
      let acc' := (48 + n mod 10) :: acc in
      if n <? 10 then acc' else digits_aux fuel' (n / 10) acc'
  end.

Definition str_of_nat (n : nat) : str :=
  digits_aux (S (N.to_nat (N.log2 (N.of_nat n)))) (N.of_nat n) [].

Section Crawl.

Context (U : PyUnicode) (W : world).

(** [int(s)] on a string of decimal digits *)
Definition int_of (s : str) : Z :=
  fold_left (fun acc c => (acc * 10 + Z.of_N (default 0%N (decimal U c)))%Z) s 0%Z.

Definition is_edition (txt : str) : bool :=
  str_in (utf8 "Diário Oficial") txt && str_in (utf8 ".pdf") txt.

Definition year_of (txt : str) : option Z :=
  match p_search U RE_DATE txt with
  | Some m => Some (int_of (group 3 m))
  | None => None
  end.

Definition at_cutoff (year : option Z) : bool :=
  match year with
  | Some y => (y <=? CUTOFF_YEAR_STOP)%Z
  | None => false
  end.

(** The loop of [_iter_listing_page] over the anchors: [(stop_flag, items)]. *)
Fixpoint scan_listing (l : list anchor) : bool * list item :=
  match l with
  | [] => (false, [])
  | a :: l' =>
      let r := scan_listing l' in
      let txt := strip (a_text a) in
      if negb (is_edition txt) then r
      else
        let href := default [] (a_href a) in
        let year := year_of txt in
        if at_cutoff year then (true, snd r)
        else (fst r, {| i_href := href; i_txt := txt; i_year := year |} :: snd r)
  end.

Definition _iter_listing_page (url : str) : bool * list item :=
  scan_listing (anchors (browse W url)).

Definition below_2020 (year : option Z) : bool :=
  match year with
  | Some y => (y <? 2020)%Z
  | None => false
  end.

Definition log (es : list event) (st : crawl) : crawl :=
  {| seen := seen st; saved := saved st; rows_total := rows_total st;
     written := written st; trace := trace st ++ es; crashed := crashed st |}.

(** The loop over [items], the same text for the first page and for the
    later ones.  Neither the call of the resolver nor the call of
    [_extract_records] stands in a [try]: when one of them raises, the loop
    is left at that call.  The bytes the resolver returns are never empty,
    so the test [not pdf_bytes] is the test for [None].  Writing the PDF to
    disk has no effect on what follows and is left out. *)
Fixpoint process_items (items : list item) (st : crawl) : crawl :=
  match items with
  | [] => st
  | it :: items' =>
      let href := i_href it in
      if bool_decide (href ∈ seen st) || below_2020 (i_year it)
      then process_items items' st
      else
        let res := _find_pdf_link_in_detail U W href in
        match returned res with
        | Raised =>
            {| seen := {[href]} ∪ seen st;
               saved := saved st;
               rows_total := rows_total st;
               written := written st;
               trace := trace st ++ [MarkSeen href; Resolve href];
               crashed := true |}
        | Returns (None, _) =>
            process_items items'
              {| seen := {[href]} ∪ seen st;
                 saved := saved st;
                 rows_total := rows_total st;
                 written := written st;
                 trace := trace st ++ [MarkSeen href; Resolve href; Skip href];
                 crashed := crashed st |}
        | Returns (Some data, url) =>
            match pdf_pages W data with
            | None =>
                {| seen := {[href]} ∪ seen st;
                   saved := S (saved st);
                   rows_total := rows_total st;
                   written := written st;
                   trace := trace st ++ [MarkSeen href; Resolve href; Extract href];
                   crashed := true |}
            | Some pages =>
                let rs := _extract_records U pages in
                process_items items'
                  {| seen := {[href]} ∪ seen st;
                     saved := S (saved st);
                     rows_total := (rows_total st + length rs)%nat;
                     written := written st ++
                       map (fun r => {| data_link := i_txt it; detail_url := href;
                                        row_pdf_url := url; reg := r |}) rs;
                     trace := trace st ++ [MarkSeen href; Resolve href; Extract href];
                     crashed := crashed st |}
            end
        end
  end.

Definition listing_url (start : nat) : str :=
  BASE_URL ++ utf8 "?b_start:int=" ++ str_of_nat start.

(** The loop [for start in range(12, 20000, PAGE_STEP)] *)
Fixpoint pages_loop (starts : list nat) (st : crawl) : crawl :=
  match starts with
  | [] => st
  | start :: starts' =>
      let url := listing_url start in
      let p := _iter_listing_page url in
      let st' := process_items (snd p) (log [Listing url] st) in
      if crashed st' || fst p then st' else pages_loop starts' st'
  end.

Definition start_state : crawl :=
  {| seen := ∅; saved := 0%nat; rows_total := 0%nat; written := []; trace := [];
     crashed := false |}.

Definition _historico_stream : crawl :=
  let p := _iter_listing_page BASE_URL in
  let st := process_items (snd p) (log [Listing BASE_URL] start_state) in
  if crashed st || fst p then st
  else pages_loop (py_range 12 (N.to_nat 20000) PAGE_STEP) st.

End Crawl.

(** ** Properties stated about texts *)

(** No two whitespace characters in a row. *)
Definition no_ws_run (s : str) : Prop :=
  forall l1 a b l2, s = l1 ++ a :: b :: l2 -> ~ (isspace a = true /\ isspace b = true).

(** The space is the only whitespace character. *)
Definition only_spaces (s : str) : Prop :=
  forall c, In c s -> isspace c = true -> c = 32.

(** Every whitespace character is a space and stands before a character
    that is not whitespace, or at the end. *)
Fixpoint squeezed (s : str) : Prop :=
  match s with
  | [] => True
  | c :: t =>
      (isspace c = true ->
       c = 32 /\ match t with d :: _ => isspace d = false | [] => True end)
      /\ squeezed t
  end.

Definition starts_solid (s : str) : Prop :=
  match s with
  | d :: _ => isspace d = false
  | [] => True
  end.

(** ** Statements of the specification *)

(** The end-to-end scenario: the text of the single page, and what the
    specification says [extract] returns for it. *)
Definition scenario_text : str :=
  utf8 "RESOLVE CONCEDER APOSENTADORIA ... a JOSE DA SILVA, matrícula 12345, processo 2023.001.9".

Definition scenario_as_stated (rs : list registro) : Prop :=
  exists r, rs = [r]
    /\ tipo_ato r = APOSENTADORIA
    /\ nome r = utf8 "JOSE DA SILVA"
    /\ matricula r = utf8 "12345"
    /\ processo r = utf8 "2023.001.9"
    /\ pagina r = 1%nat.

(** The three classification anchors as the specification words them,
    on the normalized text of a block. *)
Definition anchors_as_stated (nb : str) : bool :=
  str_in (utf8 "conceder aposentadoria") nb
  || str_in (utf8 "conceder pensao") nb
  || (str_in (utf8 "isencao de imposto de renda") nb && str_in (utf8 "indeferi") nb).

(** The same with the stem the code looks for. *)
Definition anchors_indef (nb : str) : bool :=
  str_in (utf8 "conceder aposentadoria") nb
  || str_in (utf8 "conceder pensao") nb
  || (str_in (utf8 "isencao de imposto de renda") nb && str_in (utf8 "indef") nb).

(** What the normalizer owes to the Unicode tables: a lower-cased text
    that holds the accented phrase normalizes to one that holds the plain
    phrase. *)
Definition folds_phrase (U : PyUnicode) (accented plain : str) : Prop :=
  forall s, str_in accented (str_lower U s) = true -> str_in plain (nrm U s) = true.

(** Example blocks *)
Definition block_indefiro : str :=
  utf8 "INDEFIRO o pedido de isenção de imposto de renda de JOSE DA SILVA".

Definition block_portaria : str :=
  utf8 "PORTARIA  12 - O PRESIDENTE no uso de suas atribuições".

Definition block_two_names : str :=
  utf8 "RESOLVE conceder aposentadoria a JOSE DA SILVA, servidor MARIA SOUZA LIMA".

Definition page_two_blocks : str :=
  utf8 "GOVERNO DO ESTADO
RESOLVE conceder   aposentadoria à MARIA SOUZA LIMA; processo 11/2021".

(** The statement on the raw-markup scan as the specification words it:
    when the scan of the rendered page yields no candidate, an [href] of the
    page source that ends in [.pdf] is fetched, and the detail reference is
    not fetched before it. *)
Definition quoted_href (u : str) : str := utf8 "href=" ++ [34] ++ u ++ [34].

Definition markup_scan_before_detail (U : PyUnicode) (W : world) (d : str) : Prop :=
  scanned U W d = Returns [] ->
  forall u v,
    str_in (quoted_href u) (page_source (browse W d)) = true ->
    endswith (utf8 ".pdf") u = true ->
    urljoin W (current_url (browse W d)) u = Some v ->
    exists l1 l2,
      fetched (_find_pdf_link_in_detail U W d) = l1 ++ v :: l2
      /\ ~ In d l1.

(** The URL fetched for a match of the pattern, when [urljoin] gives one *)
Definition match_url (W : world) (d : str) (m : rmatch) : option str :=
  urljoin W (current_url (browse W d)) (group 1 m).

(** The URLs of a run of matches, in order *)
Definition match_urls (W : world) (d : str) (ms : list rmatch) : list str :=
  omap (match_url W d) ms.

(** The fetch of [u] for the detail reference [d] returns without bytes,
    and returns the bytes [data]. *)
Definition fetch_fails (W : world) (d u : str) : Prop :=
  exists o, _download_pdf_bytes W u (Some d) = Returns o /\ truthy o = false.

Definition fetch_gives (W : world) (d u : str) (data : list N) : Prop :=
  _download_pdf_bytes W u (Some d) = Returns (Some data) /\ data <> [].

(** The URLs of a run of matches, for the base of the page *)
Definition joined (W : world) (base : str) (ms : list rmatch) : list str :=
  omap (fun m => urljoin W base (group 1 m)) ms.

(** The fetch of every match of a run returns without bytes. *)
Definition run_fails (W : world) (d base : str) (ms : list rmatch) : Prop :=
  forall m, In m ms -> exists v, urljoin W base (group 1 m) = Some v /\ fetch_fails W d v.

(** A URL with a scheme, as [urllib.request.Request] asks for: a colon
    after a non-empty run of characters that holds neither a slash nor a
    colon.  (For a URL without fragment and without blanks or angle
    brackets around it.) *)
Fixpoint scheme_from (any : bool) (s : str) : bool :=
  match s with
  | [] => false
  | c :: s' =>
      if c =? chr ":" then any
      else if c =? chr "/" then false
      else scheme_from true s'
  end.

Definition has_scheme (url : str) : bool := scheme_from false url.

(** Example worlds.  Every URL in them is absolute, and [urljoin] gives
    back an absolute second argument. *)
Definition pdf_response : response :=
  {| content_type := Some (utf8 "application/pdf"); body := utf8 "%PDF-1.4 sample" |}.

Definition html_response : response :=
  {| content_type := Some (utf8 "text/html"); body := utf8 "<html></html>" |}.

Definition bare_page (url source : str) : page :=
  {| current_url := url; anchors := []; iframes := []; embeds := []; page_source := source |}.

Definition detail_ref : str := utf8 "http://h/doe/edicao-1".

(** A page without anchors whose source names a PDF in an [area] element;
    every URL answers a PDF. *)
Definition world_area : world :=
  {| browse := fun url => bare_page url (utf8 "<map><area " ++ quoted_href (utf8 "http://h/doc.pdf") ++ utf8 "></map>");
     request_ok := has_scheme;
     urlopen := fun _ _ => Answers pdf_response;
     urljoin := fun _ u => Some u;
     pdf_pages := fun _ => Some [] |}.

(** Two anchors to PDFs; [urlopen] raises for every URL. *)
Definition world_offline : world :=
  {| browse := fun url =>
       {| current_url := url;
          anchors := [ {| a_text := utf8 "baixar"; a_href := Some (utf8 "http://h/a.PDF") |};
                       {| a_text := utf8 "copia"; a_href := Some (utf8 "http://h/b.pdf") |} ];
          iframes := []; embeds := [];
          page_source := [] |};
     request_ok := has_scheme;
     urlopen := fun _ _ => Raises;
     urljoin := fun _ u => Some u;
     pdf_pages := fun _ => Some [] |}.

(** A page whose source holds an [href] with a backslash before the
    extension; only that URL answers a PDF. *)
Definition backslash_url : str := utf8 "http://h/a" ++ [92] ++ utf8 ".pdf".

Definition world_backslash : world :=
  {| browse := fun url => bare_page url (utf8 "<area " ++ quoted_href backslash_url ++ utf8 ">");
     request_ok := has_scheme;
     urlopen := fun url _ =>
       if str_eqb url backslash_url then Answers pdf_response else Answers html_response;
     urljoin := fun _ u => Some u;
     pdf_pages := fun _ => Some [] |}.

(** The references resolved and extracted in a trace *)
Definition resolved (tr : list event) : list str :=
  flat_map (fun e => match e with Resolve h => [h] | _ => [] end) tr.

Definition extracted (tr : list event) : list str :=
  flat_map (fun e => match e with Extract h => [h] | _ => [] end) tr.

(** A listing of two pages.  The first shows two editions of 2021; the
    second shows one of them again, the edition of 05-03-2018 and one of
    2020.  A detail page links to its PDF; the PDF of the 2020 edition
    cannot be fetched. *)
Definition edition (label href : string) : anchor :=
  {| a_text := utf8 label; a_href := Some (utf8 href) |}.

Definition second_listing : str := BASE_URL ++ utf8 "?b_start:int=12".

Definition world_crawl : world :=
  {| browse := fun url =>
       if str_eqb url BASE_URL then
         {| current_url := url;
            anchors := [ edition "Edições recentes" "http://h/doe";
                         edition " Diário Oficial 12-01-2021.pdf " "http://h/e3";
                         edition "Diário Oficial 11-01-2021.pdf" "http://h/e2" ];
            iframes := []; embeds := []; page_source := [] |}
       else if str_eqb url second_listing then
         {| current_url := url;
            anchors := [ edition "Diário Oficial 11-01-2021.pdf" "http://h/e2";
                         edition "Diário Oficial 05-03-2018.pdf" "http://h/e0";
                         edition "Diário Oficial 02-01-2020.pdf" "http://h/e1" ];
            iframes := []; embeds := []; page_source := [] |}
       else
         {| current_url := url;
            anchors := [ {| a_text := utf8 "Download"; a_href := Some (url ++ utf8 "/doc.pdf") |} ];
            iframes := []; embeds := []; page_source := [] |};
     request_ok := has_scheme;
     urlopen := fun url _ =>
       if str_eqb url (utf8 "http://h/e1/doc.pdf") then Raises else Answers pdf_response;
     urljoin := fun _ u => Some u;
     pdf_pages := fun _ => Some [Some (utf8 "RESOLVE conceder pensão à MARIA SOUZA LIMA; processo 11/2021")] |}.

(** A listing of two editions.  The detail page of the first holds an
    anchor whose [href] is no URL, an opening bracket without the closing
    one in its host, and [urljoin] raises on it; the second edition is in
    order. *)
Definition bad_href : str := utf8 "http://[x/doc.pdf".

Definition world_bad_href : world :=
  {| browse := fun url =>
       if str_eqb url BASE_URL then
         {| current_url := url;
            anchors := [ edition "Diário Oficial 12-01-2021.pdf" "http://h/e3";
                         edition "Diário Oficial 11-01-2021.pdf" "http://h/e2" ];
            iframes := []; embeds := []; page_source := [] |}
       else if str_eqb url (utf8 "http://h/e3") then
         {| current_url := url;
            anchors := [ {| a_text := utf8 "Download"; a_href := Some bad_href |} ];
            iframes := []; embeds := []; page_source := [] |}
       else
         {| current_url := url;
            anchors := [ {| a_text := utf8 "Download"; a_href := Some (url ++ utf8 "/doc.pdf") |} ];
            iframes := []; embeds := []; page_source := [] |};
     request_ok := has_scheme;
     urlopen := fun _ _ => Answers pdf_response;
     urljoin := fun _ u => if str_eqb u bad_href then None else Some u;
     pdf_pages := fun _ => Some [Some (utf8 "RESOLVE conceder pensão à MARIA SOUZA LIMA; processo 11/2021")] |}.

(** A listing of two editions, the first without [href]: the listing scan
    makes the empty reference of it.  Its page shows no link, so that the
    reference itself is the candidate, and it has no scheme. *)
Definition world_no_href : world :=
  {| browse := fun url =>
       if str_eqb url BASE_URL then
         {| current_url := url;
            anchors := [ {| a_text := utf8 "Diário Oficial 12-01-2021.pdf"; a_href := None |};
                         edition "Diário Oficial 11-01-2021.pdf" "http://h/e2" ];
            iframes := []; embeds := []; page_source := [] |}
       else if str_eqb url [] then bare_page url []
       else
         {| current_url := url;
            anchors := [ {| a_text := utf8 "Download"; a_href := Some (url ++ utf8 "/doc.pdf") |} ];
            iframes := []; embeds := []; page_source := [] |};
     request_ok := has_scheme;
     urlopen := fun _ _ => Answers pdf_response;
     urljoin := fun _ u => Some u;
     pdf_pages := fun _ => Some [Some (utf8 "RESOLVE conceder pensão à MARIA SOUZA LIMA; processo 11/2021")] |}.

(** Events that are no listing *)
Definition quiet (es : list event) : Prop := Forall (fun e => is_listing e = false) es.

(** [es] comes from the processing of [items]: no listing is fetched, and
    what is resolved or extracted is an item of the list whose year is not
    below 2020. *)
Definition from_items (items : list item) (es : list event) : Prop :=
  quiet es
  /\ forall h, In (Resolve h) es \/ In (Extract h) es ->
       exists it, In it items /\ i_href it = h /\ below_2020 (i_year it) = false.

(** The shape of a crawl's trace: one run per listing page, and every
    page but the last has its stop flag unset. *)
Inductive page_runs (listing : str -> bool * list item) : list event -> Prop :=
| runs_nil : page_runs listing []
| runs_last u es :
    from_items (snd (listing u)) es ->
    page_runs listing (Listing u :: es)
| runs_more u es tr :
    fst (listing u) = false ->
    from_items (snd (listing u)) es ->
    page_runs listing tr ->
    page_runs listing (Listing u :: es ++ tr).

(** Every resolution in the trace comes after the mark of its reference. *)
Definition marked (tr : list event) : Prop :=
  forall pre h post, tr = pre ++ Resolve h :: post -> In (MarkSeen h) pre.

(** The invariant of the crawl on the visited set and the trace *)
Record visit_inv (st : crawl) : Prop := {
  inv_resolved : NoDup (resolved (trace st));
  inv_extracted : NoDup (extracted (trace st));
  inv_seen : forall h, In h (resolved (trace st)) \/ In h (extracted (trace st)) -> h ∈ seen st;
  inv_marked : marked (trace st)
}.

(** The order of the records by page *)
Definition page_le (r1 r2 : registro) : Prop := (pagina r1 <= pagina r2)%nat.

(** The normalizer of [Latin1] works character by character. *)
Definition latin1_plain (t : str) : str :=
  List.filter (fun c => negb (Latin1Tables.is_Mn c)) (flat_map Latin1Tables.decomp t).

(** ** Further statements *)

(** [g] occurs in [s] as a run of consecutive characters. *)
Definition occurs_in (g s : str) : Prop := exists l1 l2, s = l1 ++ g ++ l2.

(** A matcher state that stands inside the text [T]: the position is an
    index of [T], the rest is the text from there on, and every group
    closed so far is a piece of [T]. *)
Definition in_text (T : str) (st : mstate) : Prop :=
  rest st = skipn (pos st) T
  /\ (pos st <= length T)%nat
  /\ Forall (fun c => occurs_in (snd c) T) (caps st).

(** A match that lies inside the text [T]. *)
Definition match_in (T : str) (m : rmatch) : Prop :=
  (m_start m <= m_end m)%nat
  /\ (m_end m <= length T)%nat
  /\ m_rest m = skipn (m_end m) T
  /\ Forall (fun c => occurs_in (snd c) T) (m_groups m).

(** The loop of a repetition, by itself: [body] runs the repeated
    expression. *)
Section RepLoop.

Context {R : Type}.
Context (body : mstate -> (mstate -> option R) -> option R).
Context (lo : nat) (hi : option nat) (greedy : bool) (k : mstate -> option R).

Fixpoint rep_loop (fuel n : nat) (st : mstate) {struct fuel} : option R :=
  match fuel with
  | O => if Nat.leb lo n then k st else None
  | S fuel' =>
      if match hi with Some h => Nat.leb h n | None => false end
      then (if Nat.leb lo n then k st else None)
      else if greedy then
        match body st (fun st' =>
                 if Nat.ltb (pos st) (pos st') then rep_loop fuel' (S n) st' else None) with
        | Some x => Some x
        | None => if Nat.leb lo n then k st else None
        end
      else
        match (if Nat.leb lo n then k st else None) with
        | Some x => Some x
        | None => body st (fun st' =>
                    if Nat.ltb (pos st) (pos st') then rep_loop fuel' (S n) st' else None)
        end
  end.

End RepLoop.

(** The characters of a text that are not whitespace *)
Definition nonws (s : str) : str := List.filter (fun c => negb (isspace c)) s.

(** Neither the first nor the last character satisfies [p]. *)
Definition trimmed (p : N -> bool) (s : str) : Prop :=
  (forall c t, s = c :: t -> p c = false)
  /\ (forall t c, s = t ++ [c] -> p c = false).

(** [sep.join(l)] *)
Fixpoint join (sep : str) (l : list str) : str :=
  match l with
  | [] => []
  | [x] => x
  | x :: l' => x ++ sep ++ join sep l'
  end.

(** Example block with a keyword early and a name after it *)
Definition block_fields : str :=
  utf8 "RESOLVE conceder aposentadoria a JOSE LIMA NETO, matricula n. 98.765-4; processo: 0012/2021.".

(** The classification read off the normalized text alone, in the order
    of the tests. *)
Definition tipo_of_normalized (nb : str) : option tipo :=
  if str_in (utf8 "conceder aposentadoria") nb then Some APOSENTADORIA
  else if str_in (utf8 "conceder pensao") nb then Some PENSAO
  else if str_in (utf8 "isencao de imposto de renda") nb && str_in (utf8 "indef") nb
       then Some ISENCAO_INDEFERIDA
  else None.

(** The number of blocks of a decoded PDF *)
Definition block_count (pages : list (option str)) : nat :=
  length (flat_map (fun pg => raw_blocks (default [] pg)) pages).

Definition block_pensao_accent : str :=
  utf8 "Resolve CONCEDER PENSÃO vitalícia a quem de direito".

Definition page_long : str :=
  utf8 "   RESOLVE conceder aposentadoria ao servidor abaixo nominado, nos termos da legislação em vigor, com proventos integrais, conforme processo administrativo instruído pela unidade de origem e parecer da assessoria jurídica, observadas as demais formalidades legais aplicáveis à espécie, a contar da data de publicação deste ato no Diário Oficial do Estado.   ".

(** Three anchors to PDFs, the first repeated; only the last URL answers
    a PDF. *)
Definition world_second : world :=
  {| browse := fun url =>
       {| current_url := url;
          anchors := [ {| a_text := utf8 "baixar"; a_href := Some (utf8 "http://h/a.pdf") |};
                       {| a_text := utf8 "de novo"; a_href := Some (utf8 "http://h/a.pdf") |};
                       {| a_text := utf8 "copia"; a_href := Some (utf8 "http://h/b.pdf") |} ];
          iframes := []; embeds := [];
          page_source := [] |};
     request_ok := has_scheme;
     urlopen := fun url _ =>
       if str_eqb url (utf8 "http://h/b.pdf") then Answers pdf_response
       else Answers html_response;
     urljoin := fun _ u => Some u;
     pdf_pages := fun _ => Some [] |}.

(** The item the listing scan makes of an anchor *)
Definition to_item (U : PyUnicode) (a : anchor) : item :=
  {| i_href := default [] (a_href a);
     i_txt := strip (a_text a);
     i_year := year_of U (strip (a_text a)) |}.

(** An anchor that names an edition, and one at or below the cutoff year *)
Definition edition_anchor (a : anchor) : bool := is_edition (strip (a_text a)).

Definition cutoff_anchor (U : PyUnicode) (a : anchor) : bool :=
  edition_anchor a && at_cutoff (year_of U (strip (a_text a))).

(** The listing pages fetched in a trace *)
Definition listings (tr : list event) : list str :=
  flat_map (fun e => match e with Listing u => [u] | _ => [] end) tr.

(** The invariant of the crawl on its counters, its visited set and the
    rows written. *)
Record crawl_inv (U : PyUnicode) (W : world) (st : crawl) : Prop := {
  cinv_saved : saved st = length (extracted (trace st));
  cinv_rows : rows_total st = length (written st);
  cinv_seen : forall h, h ∈ seen st <-> In h (resolved (trace st));
  cinv_written : forall w, In w (written st) ->
      exists data pages,
        In (detail_url w) (extracted (trace st))
        /\ returned (_find_pdf_link_in_detail U W (detail_url w)) = Returns (Some data, row_pdf_url w)
        /\ pdf_pages W data = Some pages
        /\ In (reg w) (_extract_records U pages)
}.

(** As long as no exception left the loop, every item of every listing
    page fetched so far is visited. *)
Definition covered (U : PyUnicode) (W : world) (st : crawl) : Prop :=
  crashed st = false ->
  forall u it,
    In u (listings (trace st)) ->
    In it (snd (_iter_listing_page U W u)) ->
    i_href it ∈ seen st.

(** The listing pages after the first, in the order of the loop *)
Definition later_pages : list str :=
  map listing_url (py_range 12 (N.to_nat 20000) PAGE_STEP).

(** A listing that shows the same edition of 2021 on every page; its
    detail page links to a PDF. *)
Definition world_steady : world :=
  {| browse := fun url =>
       if str_eqb url (utf8 "http://h/e3") then
         {| current_url := url;
            anchors := [ {| a_text := utf8 "Download"; a_href := Some (url ++ utf8 "/doc.pdf") |} ];
            iframes := []; embeds := []; page_source := [] |}
       else
         {| current_url := url;
            anchors := [ edition "Diário Oficial 12-01-2021.pdf" "http://h/e3" ];
            iframes := []; embeds := []; page_source := [] |};
     request_ok := has_scheme;
     urlopen := fun _ _ => Answers pdf_response;
     urljoin := fun _ u => Some u;
     pdf_pages := fun _ => Some [Some (utf8 "RESOLVE conceder pensão à MARIA SOUZA LIMA; processo 11/2021")] |}.

(** A listing of two editions whose documents come with the content type
    of a PDF and are none: the decoder raises on them. *)
Definition mislabelled_response : response :=
  {| content_type := Some (utf8 "application/pdf"); body := utf8 "<html>not found</html>" |}.

Definition world_mislabelled : world :=
  {| browse := fun url =>
       if str_eqb url BASE_URL then
         {| current_url := url;
            anchors := [ edition "Diário Oficial 12-01-2021.pdf" "http://h/e3";
                         edition "Diário Oficial 11-01-2021.pdf" "http://h/e2" ];
            iframes := []; embeds := []; page_source := [] |}
       else
         {| current_url := url;
            anchors := [ {| a_text := utf8 "Download"; a_href := Some (url ++ utf8 "/doc.pdf") |} ];
            iframes := []; embeds := []; page_source := [] |};
     request_ok := has_scheme;
     urlopen := fun _ _ => Answers mislabelled_response;
     urljoin := fun _ u => Some u;
     pdf_pages := fun _ => None |}.

(** The trace of a crawl that an exception left ends with the call that
    raised: the resolver on a reference, or the extractor on the bytes
    resolved for it. *)
Definition ends_in_exception (U : PyUnicode) (W : world) (st : crawl) : Prop :=
  exists pre h,
    (trace st = pre ++ [MarkSeen h; Resolve h]
     /\ returned (_find_pdf_link_in_detail U W h) = Raised)
    \/ (trace st = pre ++ [MarkSeen h; Resolve h; Extract h]
        /\ exists data u,
             returned (_find_pdf_link_in_detail U W h) = Returns (Some data, u)
             /\ pdf_pages W data = None).

(** ** The daily mode of [rodar] *)

(** The rows collected, the counter and the trace of a daily run *)
Record diario_run := {
  d_rows : list row;
  d_saved : nat;
  d_trace : list event
}.

Section Diario.

Context (U : PyUnicode) (W : world).

(** [detalhes]: href and text of the first five anchors that name an
    edition.  The href is taken as the browser gives it. *)
Definition detalhes : list (option str * str) :=
  firstn 5
    (flat_map (fun a =>
                 let txt := strip (a_text a) in
                 if is_edition txt then [(a_href a, txt)] else [])
              (anchors (browse W BASE_URL))).

(** The loop over [detalhes].  The body stands in a [try]: what the
    resolver or the extractor raises is caught, and the loop goes on to
    the next pair.  Without an href the call of the resolver raises before
    any fetch. *)
Fixpoint diario_items (ds : list (option str * str)) (run : diario_run) : diario_run :=
  match ds with
  | [] => run
  | (None, _) :: ds' => diario_items ds' run
  | (Some detail, link_text) :: ds' =>
      let res := _find_pdf_link_in_detail U W detail in
      match returned res with
      | Raised =>
          diario_items ds'
            {| d_rows := d_rows run; d_saved := d_saved run;
               d_trace := d_trace run ++ [Resolve detail] |}
      | Returns (None, _) =>
          diario_items ds'
            {| d_rows := d_rows run; d_saved := d_saved run;
               d_trace := d_trace run ++ [Resolve detail; Skip detail] |}
      | Returns (Some data, url) =>
          match pdf_pages W data with
          | None =>
              diario_items ds'
                {| d_rows := d_rows run; d_saved := S (d_saved run);
                   d_trace := d_trace run ++ [Resolve detail; Extract detail] |}
          | Some pages =>
              let rs := _extract_records U pages in
              diario_items ds'
                {| d_rows := d_rows run ++
                     map (fun r => {| data_link := link_text; detail_url := detail;
                                      row_pdf_url := url; reg := r |}) rs;
                   d_saved := S (d_saved run);
                   d_trace := d_trace run ++ [Resolve detail; Extract detail] |}
          end
      end
  end.

Definition rodar_diario : diario_run :=
  diario_items detalhes {| d_rows := []; d_saved := 0%nat; d_trace := [Listing BASE_URL] |}.

End Diario.

(** The references of a list of pairs of [detalhes] *)
Definition hrefs_of (ds : list (option str * str)) : list str :=
  flat_map (fun d => match fst d with Some h => [h] | None => [] end) ds.

(** A first page with seven editions: one of 2018, one listed twice. *)
Definition world_daily : world :=
  {| browse := fun url =>
       if str_eqb url BASE_URL then
         {| current_url := url;
            anchors := [ edition "Edições recentes" "http://h/doe";
                         edition "Diário Oficial 05-03-2018.pdf" "http://h/e0";
                         edition "Diário Oficial 12-01-2021.pdf" "http://h/e3";
                         edition "Diário Oficial 12-01-2021.pdf" "http://h/e3";
                         edition "Diário Oficial 11-01-2021.pdf" "http://h/e2";
                         edition "Diário Oficial 02-01-2020.pdf" "http://h/e1";
                         edition "Diário Oficial 01-01-2020.pdf" "http://h/e5";
                         edition "Diário Oficial 31-12-2019.pdf" "http://h/e6" ];
            iframes := []; embeds := []; page_source := [] |}
       else
         {| current_url := url;
            anchors := [ {| a_text := utf8 "Download"; a_href := Some (url ++ utf8 "/doc.pdf") |} ];
            iframes := []; embeds := []; page_source := [] |};
     request_ok := has_scheme;
     urlopen := fun url _ =>
       if str_eqb url (utf8 "http://h/e1/doc.pdf") then Raises else Answers pdf_response;
     urljoin := fun _ u => Some u;
     pdf_pages := fun _ => Some [Some (utf8 "RESOLVE conceder pensão à MARIA SOUZA LIMA; processo 11/2021")] |}.

(** The window and the candidates of the name fallback, by themselves *)
Definition janela_win (U : PyUnicode) (bflat : str) : str :=
  match p_search U RE_KEYWORD bflat with
  | Some km => slice (m_start km - 120) (Nat.min (length bflat) (m_end km + 120)) bflat
  | None => bflat
  end.

Definition janela_cand (U : PyUnicode) (win : str) : list str :=
  map strip
    (List.filter (fun nm =>
         let parts := split_ws nm in
         negb (Nat.ltb (length parts) 2)
         && negb (existsb (fun p => bool_decide (str_upper U p ∈ BAD_TOKENS)) parts))
       (p_findall U RE_NOME_CAIXA win)).

(** The offset written at the end of a later listing URL *)
Definition offset_of (url : str) : Z :=
  int_of Latin1 (skipn (length (BASE_URL ++ utf8 "?b_start:int=")) url).

Fixpoint increasing (l : list Z) : bool :=
  match l with
  | a :: ((b :: _) as t) => (a <? b)%Z && increasing t
  | _ => true
  end.

Definition block_ranked : str :=
  utf8 "Processo 77 interessados ANA COSTA e CARLOS ALBERTO NUNES e RUI BRAGA".

(** * Examples of the embedding *)

Example nrm_example :
  nrm Latin1 (utf8 "CONCEDER Pensão Vitalícia À SERVIDORA") = utf8 "conceder pensao vitalicia a servidora".
Proof. vm_compute. reflexivity. Qed.

Example sub_ws_example :
  strip (sub_ws (utf8 "  RESOLVE
   conceder 	 pensão  ")) = utf8 "RESOLVE conceder pensão".
Proof. vm_compute. reflexivity. Qed.

Example split_example :
  split (utf8 "

") (utf8 "a

b


c") = [utf8 "a"; utf8 "b"; utf8 "
c"].
Proof. vm_compute. reflexivity. Qed.

Example date_example :
  option_map (fun m => (group 1 m, group 2 m, group 3 m))
             (p_search Latin1 RE_DATE (utf8 "Diário Oficial 05-03-2018.pdf"))
  = Some (utf8 "05", utf8 "03", utf8 "2018").
Proof. vm_compute. reflexivity. Qed.

Example pos_frase_example :
  nome_pos_frase Latin1 (utf8 "RESOLVE conceder pensão vitalícia, por morte ao JOSE LIMA NETO; processo 1")
  = utf8 "JOSE LIMA NETO".
Proof. vm_compute. reflexivity. Qed.

Example servidor_example :
  nome_servidor Latin1 (utf8 "a servidora ANA PAULA COSTA, matrícula 1") = utf8 "ANA PAULA COSTA".
Proof. vm_compute. reflexivity. Qed.

Example janela_example :
  nome_janela Latin1 (utf8 "GOVERNO DO ESTADO Processo 12 interessado CARLOS ALBERTO NUNES e outros")
  = utf8 "CARLOS ALBERTO NUNES".
Proof. vm_compute. reflexivity. Qed.

Example matricula_example :
  field_of Latin1 RE_MATRICULA (utf8 "Matricula nº 98.765-4, lotado") = utf8 "98.765-4".
Proof. vm_compute. reflexivity. Qed.

Example range_example :
  List.firstn 3 (py_range 12 (N.to_nat 20000) PAGE_STEP) = [12; 24; 36]%nat
  /\ length (py_range 12 (N.to_nat 20000) PAGE_STEP) = 1666%nat
  /\ listing_url 12 = second_listing.
Proof. split; [|split]; vm_compute; reflexivity. Qed.

(** * Facts about the string helpers *)

Lemma startswith_app (p t : str) : startswith p (p ++ t) = true.
Proof.
  induction p as [|a p IH]; simpl; [reflexivity|].
  rewrite N.eqb_refl. exact IH.
Qed.

Lemma startswith_inv (p s : str) :
  startswith p s = true -> exists t, s = p ++ t.
Proof.
  revert s. induction p as [|a p IH]; intros s H.
  - exists s. reflexivity.
  - destruct s as [|b s]; simpl in H; [discriminate|].
    apply andb_prop in H. destruct H as [Hab Hps].
    apply N.eqb_eq in Hab. subst b.
    destruct (IH s Hps) as [t ->]. exists t. reflexivity.
Qed.

Lemma str_in_intro (p l1 l2 : str) : str_in p (l1 ++ p ++ l2) = true.
Proof.
  induction l1 as [|c l1 IH].
  - simpl. destruct (p ++ l2) eqn:E; simpl; rewrite <- ?E;
      rewrite startswith_app; reflexivity.
  - simpl. rewrite IH. apply orb_true_r.
Qed.

Lemma str_in_inv (p s : str) :
  str_in p s = true -> exists l1 l2, s = l1 ++ p ++ l2.
Proof.
  induction s as [|c s IH]; simpl; intros H.
  - rewrite orb_false_r in H. apply startswith_inv in H.
    destruct H as [t Ht]. exists [], t. exact Ht.
  - apply orb_prop in H. destruct H as [H|H].
    + apply startswith_inv in H. destruct H as [t Ht]. exists [], t. exact Ht.
    + destruct (IH H) as (l1 & l2 & ->). exists (c :: l1), l2. reflexivity.
Qed.

Lemma lstrip_by_suffix (p : N -> bool) (s : str) :
  exists t, s = t ++ lstrip_by p s.
Proof.
  induction s as [|c s [t IH]]; simpl.
  - exists []. reflexivity.
  - destruct (p c).
    + exists (c :: t). simpl. congruence.
    + exists []. reflexivity.
Qed.

Lemma rstrip_by_prefix (p : N -> bool) (s : str) :
  exists t, s = rstrip_by p s ++ t.
Proof.
  unfold rstrip_by.
  destruct (lstrip_by_suffix p (rev s)) as [t Ht].
  exists (rev t).
  rewrite <- rev_app_distr, <- Ht, rev_involutive. reflexivity.
Qed.

Lemma strip_by_infix (p : N -> bool) (s : str) :
  exists l1 l2, s = l1 ++ strip_by p s ++ l2.
Proof.
  unfold strip_by.
  destruct (lstrip_by_suffix p s) as [l1 H1].
  destruct (rstrip_by_prefix p (lstrip_by p s)) as [l2 H2].
  exists l1, l2. rewrite <- H2. exact H1.
Qed.

(** * Whitespace collapse *)

Lemma squeezed_app_l (l1 l2 : str) : squeezed (l1 ++ l2) -> squeezed l1.
Proof.
  induction l1 as [|c l1 IH]; simpl; [trivial|].
  intros [Hc Ht]. split; [|exact (IH Ht)].
  intros Hs. destruct (Hc Hs) as [E Hn]. split; [exact E|].
  destruct l1; simpl in *; [trivial|exact Hn].
Qed.

Lemma squeezed_app_r (l1 l2 : str) : squeezed (l1 ++ l2) -> squeezed l2.
Proof.
  induction l1 as [|c l1 IH]; simpl; [trivial|].
  intros [_ Ht]. exact (IH Ht).
Qed.

Lemma squeezed_sub_ws_aux (s : str) :
  forall b, squeezed (sub_ws_aux b s) /\ (b = true -> starts_solid (sub_ws_aux b s)).
Proof.
  induction s as [|c s IH]; intros b; simpl.
  - split; [trivial|]. intros _. exact I.
  - destruct (isspace c) eqn:Hc.
    + destruct (IH true) as [Hsq Hst]. destruct b.
      * split; [exact Hsq|]. intros _. exact (Hst eq_refl).
      * split; [|discriminate]. simpl. split; [|exact Hsq].
        intros _. split; [reflexivity|]. exact (Hst eq_refl).
    + destruct (IH false) as [Hsq _]. split.
      * simpl. split; [|exact Hsq]. intros Hs. congruence.
      * intros _. simpl. exact Hc.
Qed.

Lemma squeezed_no_newline (s : str) : squeezed s -> ~ In 10 s.
Proof.
  induction s as [|c s IH]; simpl; intros H.
  - tauto.
  - destruct H as [Hc Ht]. intros [E|Hin]; [|exact (IH Ht Hin)].
    subst c. destruct (Hc eq_refl) as [E _]. discriminate E.
Qed.

Lemma squeezed_only_spaces (s : str) : squeezed s -> only_spaces s.
Proof.
  induction s as [|c s IH]; simpl; intros H x Hx.
  - destruct Hx.
  - destruct H as [Hc Ht]. destruct Hx as [<-|Hx].
    + intros Hs. exact (proj1 (Hc Hs)).
    + exact (IH Ht x Hx).
Qed.

Lemma squeezed_no_ws_run (s : str) : squeezed s -> no_ws_run s.
Proof.
  intros H l1 a b l2 E [Ha Hb]. subst s.
  apply squeezed_app_r in H. simpl in H.
  destruct H as [Hc _]. destruct (Hc Ha) as [_ Hn]. congruence.
Qed.

Lemma squeezed_flat (bloco : str) : squeezed (strip (sub_ws bloco)).
Proof.
  destruct (strip_by_infix isspace (sub_ws bloco)) as (l1 & l2 & E).
  pose proof (proj1 (squeezed_sub_ws_aux bloco false)) as H.
  fold (sub_ws bloco) in H. rewrite E in H.
  apply squeezed_app_r in H. apply squeezed_app_l in H. exact H.
Qed.

Lemma squeezed_firstn (n : nat) (s : str) : squeezed s -> squeezed (firstn n s).
Proof.
  intros H. rewrite <- (firstn_skipn n s) in H. exact (squeezed_app_l _ _ H).
Qed.

(** * Record extractor *)

Lemma StronglySorted_app {A} (R : A -> A -> Prop) (l1 l2 : list A) :
  StronglySorted R l1 -> StronglySorted R l2 ->
  (forall x y, In x l1 -> In y l2 -> R x y) ->
  StronglySorted R (l1 ++ l2).
Proof.
  induction l1 as [|a l1 IH]; simpl; intros H1 H2 H12; [exact H2|].
  inversion H1 as [|? ? Hs Hf]; subst.
  constructor.
  - apply IH; [exact Hs|exact H2|]. intros x y Hx Hy. apply H12; [right; exact Hx|exact Hy].
  - apply List.Forall_app. split; [exact Hf|].
    apply List.Forall_forall. intros y Hy. apply H12; [left; reflexivity|exact Hy].
Qed.

Lemma same_page_sorted (i : nat) (l : list registro) :
  (forall r, In r l -> pagina r = i) -> StronglySorted page_le l.
Proof.
  induction l as [|a l IH]; intros H; constructor.
  - apply IH. intros r Hr. apply H. right. exact Hr.
  - apply List.Forall_forall. intros r Hr. unfold page_le.
    rewrite (H a (or_introl eq_refl)), (H r (or_intror Hr)). apply Nat.le_refl.
Qed.

Section ExtractorFacts.

Context (U : PyUnicode).

Lemma extract_block_fields (i : nat) (bloco : str) (r : registro) :
  In r (extract_block U i bloco) ->
  tipo_of U (strip (sub_ws bloco)) = Some (tipo_ato r)
  /\ nome r = nome_of U (strip (sub_ws bloco))
  /\ pagina r = i
  /\ trecho r = firstn 260 (strip (sub_ws bloco)).
Proof.
  unfold extract_block.
  destruct (tipo_of U (strip (sub_ws bloco))) as [t|]; simpl; [|tauto].
  intros [<-|[]]. simpl. repeat split.
Qed.

Lemma extract_page_fields (i : nat) (pg : option str) (r : registro) :
  In r (extract_page U i pg) -> pagina r = i /\ squeezed (trecho r).
Proof.
  unfold extract_page. destruct (default [] pg) as [|c txt]; [simpl; tauto|].
  rewrite List.in_flat_map. intros (b & _ & Hr).
  apply extract_block_fields in Hr. destruct Hr as (_ & _ & Hp & Ht).
  split; [exact Hp|]. rewrite Ht. apply squeezed_firstn, squeezed_flat.
Qed.

Lemma extract_pages_sorted (pages : list (option str)) :
  forall i,
    StronglySorted page_le (extract_pages U i pages)
    /\ Forall (fun r => (i <= pagina r)%nat /\ squeezed (trecho r)) (extract_pages U i pages).
Proof.
  induction pages as [|pg pages IH]; intros i; simpl.
  - split; constructor.
  - destruct (IH (S i)) as [Hs Hf]. split.
    + apply StronglySorted_app.
      * apply (same_page_sorted i). intros r Hr. apply (extract_page_fields _ _ _ Hr).
      * exact Hs.
      * intros x y Hx Hy. unfold page_le.
        rewrite (proj1 (extract_page_fields _ _ _ Hx)).
        rewrite List.Forall_forall in Hf. destruct (Hf y Hy) as [Hle _]. lia.
    + apply List.Forall_app. split.
      * apply List.Forall_forall. intros r Hr.
        destruct (extract_page_fields _ _ _ Hr) as [Hp Hq]. split; [lia|exact Hq].
      * eapply List.Forall_impl; [|exact Hf]. simpl. intros r [Hle Hq]. split; [lia|exact Hq].
Qed.

(** C10.  For every decoded PDF the records come in nondecreasing page
    order, every page number is at least 1, and no excerpt holds a newline
    or two whitespace characters in a row; the only whitespace character
    of an excerpt is the space. *)
Theorem records_ordered_and_collapsed (pages : list (option str)) :
  StronglySorted page_le (_extract_records U pages)
  /\ Forall (fun r => (1 <= pagina r)%nat
                      /\ ~ In 10 (trecho r)
                      /\ no_ws_run (trecho r)
                      /\ only_spaces (trecho r))
            (_extract_records U pages).
Proof.
  unfold _extract_records. destruct (extract_pages_sorted pages 1) as [Hs Hf].
  split; [exact Hs|].
  eapply List.Forall_impl; [|exact Hf]. simpl. intros r [Hle Hq].
  split; [exact Hle|]. split; [|split].
  - apply squeezed_no_newline. exact Hq.
  - apply squeezed_no_ws_run. exact Hq.
  - apply squeezed_only_spaces. exact Hq.
Qed.

Lemma extract_pages_nth (pages : list (option str)) :
  forall i k pg r,
    nth_error pages k = Some pg ->
    In r (extract_page U (i + k) pg) ->
    In r (extract_pages U i pages).
Proof.
  induction pages as [|p pages IH]; intros i k pg r Hk Hr.
  - destruct k; discriminate.
  - simpl. apply List.in_or_app. destruct k as [|k]; simpl in Hk.
    + injection Hk as ->. left. rewrite Nat.add_0_r in Hr. exact Hr.
    + right. apply (IH (S i) k pg r Hk).
      replace (S i + k)%nat with (i + S k)%nat by lia. exact Hr.
Qed.

Lemma raw_blocks_nil : raw_blocks [] = [].
Proof. reflexivity. Qed.

(** C8.  A block of a page whose normalized text holds "conceder
    aposentadoria" gives exactly one record, of type APOSENTADORIA, and
    the extractor returns it with the page number and the excerpt of that
    block. *)
Theorem retirement_phrase_gives_record
  (pages : list (option str)) (k : nat) (txt bloco : str) :
  nth_error pages k = Some (Some txt) ->
  In bloco (raw_blocks txt) ->
  str_in (utf8 "conceder aposentadoria") (nrm U (strip (sub_ws bloco))) = true ->
  exists r,
    extract_block U (S k) bloco = [r]
    /\ In r (_extract_records U pages)
    /\ tipo_ato r = APOSENTADORIA
    /\ pagina r = S k
    /\ trecho r = firstn 260 (strip (sub_ws bloco)).
Proof.
  intros Hk Hb Hin.
  assert (Ht : tipo_of U (strip (sub_ws bloco)) = Some APOSENTADORIA).
  { unfold tipo_of. rewrite Hin. reflexivity. }
  unfold extract_block. rewrite Ht.
  eexists. split; [reflexivity|]. split; [|simpl; auto].
  unfold _extract_records. apply (extract_pages_nth pages 1 k (Some txt)); [exact Hk|].
  unfold extract_page. simpl default.
  destruct txt as [|c txt]; [rewrite raw_blocks_nil in Hb; destruct Hb|].
  apply List.in_flat_map. exists bloco. split; [exact Hb|].
  unfold extract_block. rewrite Ht. left. reflexivity.
Qed.

End ExtractorFacts.

Lemma retirement_phrase_gives_record_witness :
  exists r,
    extract_block Latin1 2 (utf8 "RESOLVE conceder   aposentadoria à MARIA SOUZA LIMA; processo 11/2021") = [r]
    /\ In r (_extract_records Latin1 [None; Some page_two_blocks])
    /\ tipo_ato r = APOSENTADORIA
    /\ pagina r = 2%nat
    /\ trecho r = firstn 260 (strip (sub_ws (utf8 "RESOLVE conceder   aposentadoria à MARIA SOUZA LIMA; processo 11/2021"))).
Proof.
  apply (retirement_phrase_gives_record Latin1 [None; Some page_two_blocks] 1 page_two_blocks).
  - reflexivity.
  - vm_compute. right. left. reflexivity.
  - vm_compute. reflexivity.
Defined.

(** * Classification anchors *)

Lemma latin1_plain_app (a b : str) :
  latin1_plain (a ++ b) = latin1_plain a ++ latin1_plain b.
Proof.
  unfold latin1_plain. rewrite List.flat_map_app, List.filter_app. reflexivity.
Qed.

Lemma latin1_folds (accented plain : str) :
  latin1_plain accented = plain -> folds_phrase Latin1 accented plain.
Proof.
  intros E s H. apply str_in_inv in H. destruct H as (l1 & l2 & Hs).
  unfold nrm. change (category_Mn Latin1) with Latin1Tables.is_Mn.
  change (nfd Latin1 (str_lower Latin1 s)) with (flat_map Latin1Tables.decomp (str_lower Latin1 s)).
  fold (latin1_plain (str_lower Latin1 s)).
  rewrite Hs, !latin1_plain_app, E. apply str_in_intro.
Qed.

Lemma latin1_folds_pensao :
  folds_phrase Latin1 (utf8 "conceder pensão") (utf8 "conceder pensao").
Proof. apply latin1_folds. vm_compute. reflexivity. Qed.

Lemma latin1_folds_isencao :
  folds_phrase Latin1 (utf8 "isenção de imposto de renda") (utf8 "isencao de imposto de renda").
Proof. apply latin1_folds. vm_compute. reflexivity. Qed.

(** The statement of C2 as worded fails: this block holds the exemption
    phrase and "indefiro", no "indeferi", and a record is emitted. *)
Lemma indefiro_block_emits :
  anchors_as_stated (nrm Latin1 (strip (sub_ws block_indefiro))) = false
  /\ exists r, extract_block Latin1 1 block_indefiro = [r]
               /\ tipo_ato r = ISENCAO_INDEFERIDA.
Proof.
  split; [vm_compute; reflexivity|].
  eexists. split; [vm_compute; reflexivity|reflexivity].
Qed.

(** C2, amended.  With the stem "indef" for the third anchor: a block whose
    normalized text holds none of the anchors gives no record. *)
Theorem no_anchor_no_record (U : PyUnicode) :
  folds_phrase U (utf8 "conceder pensão") (utf8 "conceder pensao") ->
  folds_phrase U (utf8 "isenção de imposto de renda") (utf8 "isencao de imposto de renda") ->
  forall (i : nat) (bloco : str),
    anchors_indef (nrm U (strip (sub_ws bloco))) = false ->
    extract_block U i bloco = [].
Proof.
  intros Hp Hi i bloco H.
  unfold anchors_indef in H.
  apply orb_false_elim in H. destruct H as [H H3].
  apply orb_false_elim in H. destruct H as [H1 H2].
  unfold extract_block, tipo_of. rewrite H1, H2. simpl.
  destruct (str_in (utf8 "conceder pensão") (str_lower U (strip (sub_ws bloco)))) eqn:E2.
  { apply Hp in E2. congruence. }
  destruct (str_in (utf8 "isenção de imposto de renda") (str_lower U (strip (sub_ws bloco)))) eqn:E3.
  { apply Hi in E3. rewrite E3 in H3. simpl in H3. rewrite E3, H3. reflexivity. }
  rewrite orb_false_r.
  destruct (str_in (utf8 "isencao de imposto de renda") (nrm U (strip (sub_ws bloco)))); simpl in *;
    [rewrite H3|]; reflexivity.
Qed.

Lemma no_anchor_no_record_witness : extract_block Latin1 3 block_portaria = [].
Proof.
  apply (no_anchor_no_record Latin1 latin1_folds_pensao latin1_folds_isencao).
  vm_compute. reflexivity.
Defined.

(** * Name cascade *)

(** C9.  When the phrase-anchored pattern and the role-anchored pattern both
    match a block with a non-empty name, the record carries the name of the
    phrase-anchored pattern. *)
Theorem phrase_name_wins (U : PyUnicode) (i : nat) (bloco : str) (m m2 : rmatch) (r : registro) :
  p_search U RE_NOME_POS_FRASE (strip (sub_ws bloco)) = Some m ->
  strip_chars NAME_TRIM (group 1 m) <> [] ->
  p_search U RE_NOME_SERVIDOR (strip (sub_ws bloco)) = Some m2 ->
  strip_chars NAME_TRIM (group 1 m2) <> [] ->
  In r (extract_block U i bloco) ->
  nome r = strip_chars NAME_TRIM (group 1 m).
Proof.
  intros Hm Hne _ _ Hr.
  apply extract_block_fields in Hr. destruct Hr as (_ & Hn & _).
  rewrite Hn. unfold nome_of, nome_pos_frase. rewrite Hm.
  destruct (strip_chars NAME_TRIM (group 1 m)); [contradiction|reflexivity].
Qed.

Lemma phrase_name_wins_witness :
  exists m m2 r,
    strip_chars NAME_TRIM (group 1 m) = utf8 "JOSE DA SILVA"
    /\ strip_chars NAME_TRIM (group 1 m2) = utf8 "MARIA SOUZA LIMA"
    /\ extract_block Latin1 1 block_two_names = [r]
    /\ nome r = strip_chars NAME_TRIM (group 1 m).
Proof.
  destruct (p_search Latin1 RE_NOME_POS_FRASE (strip (sub_ws block_two_names))) as [m|] eqn:Em;
    [|vm_compute in Em; discriminate].
  destruct (p_search Latin1 RE_NOME_SERVIDOR (strip (sub_ws block_two_names))) as [m2|] eqn:Em2;
    [|vm_compute in Em2; discriminate].
  assert (H1 : strip_chars NAME_TRIM (group 1 m) = utf8 "JOSE DA SILVA").
  { vm_compute in Em. injection Em as <-. vm_compute. reflexivity. }
  assert (H2 : strip_chars NAME_TRIM (group 1 m2) = utf8 "MARIA SOUZA LIMA").
  { vm_compute in Em2. injection Em2 as <-. vm_compute. reflexivity. }
  destruct (extract_block Latin1 1 block_two_names) as [|r [|r' l]] eqn:Er;
    try (vm_compute in Er; discriminate).
  exists m, m2, r. split; [exact H1|]. split; [exact H2|]. split; [reflexivity|].
  apply (phrase_name_wins Latin1 1 block_two_names m m2 r Em).
  - rewrite H1. vm_compute. discriminate.
  - exact Em2.
  - rewrite H2. vm_compute. discriminate.
  - rewrite Er. left. reflexivity.
Defined.

(** * The end-to-end scenario *)

Lemma scenario_record :
  _extract_records Latin1 [Some scenario_text]
  = [{| tipo_ato := APOSENTADORIA; nome := []; matricula := [];
        processo := utf8 "2023.001.9"; pagina := 1; trecho := scenario_text |}].
Proof. vm_compute. reflexivity. Qed.

(** The pieces of the evaluation: the phrase-anchored pattern does not get
    past the dots, no role noun occurs, the upper-case runs of the window
    are both discarded by the stoplist, and the label with its accent is
    not matched by [RE_MATRICULA]. *)
Lemma scenario_trace :
  p_search Latin1 RE_NOME_POS_FRASE scenario_text = None
  /\ p_search Latin1 RE_NOME_SERVIDOR scenario_text = None
  /\ p_findall Latin1 RE_NOME_CAIXA scenario_text
     = [utf8 "RESOLVE CONCEDER APOSENTADORIA"; utf8 "JOSE DA SILVA"]
  /\ bool_decide (utf8 "DA" ∈ BAD_TOKENS) = true
  /\ p_search Latin1 RE_MATRICULA scenario_text = None
  /\ field_of Latin1 RE_MATRICULA (utf8 "matricula 12345, processo 2023.001.9") = utf8 "12345".
Proof. split; [|split; [|split; [|split; [|split]]]]; vm_compute; reflexivity. Qed.

(** The statement of C1 as worded fails on the scenario's text. *)
Lemma scenario_not_as_stated :
  ~ scenario_as_stated (_extract_records Latin1 [Some scenario_text]).
Proof.
  rewrite scenario_record. intros (r & E & _ & Hn & _).
  injection E as <-. simpl in Hn. vm_compute in Hn. discriminate Hn.
Qed.

(** C1, amended.  For the scenario's page the extractor returns exactly one
    record, of type APOSENTADORIA, with an empty name, the case number
    2023.001.9 and page number 1. *)
Theorem scenario_gives_one_record :
  exists r,
    _extract_records Latin1 [Some scenario_text] = [r]
    /\ tipo_ato r = APOSENTADORIA
    /\ nome r = []
    /\ processo r = utf8 "2023.001.9"
    /\ pagina r = 1%nat.
Proof.
  rewrite scenario_record. eexists. split; [reflexivity|]. simpl. repeat split.
Qed.

(** * Link resolver *)

Lemma truthy_inv (o : option (list N)) :
  truthy o = true -> o = Some (default [] o) /\ default [] o <> [].
Proof.
  destruct o as [[|b l]|]; simpl; intros H; try discriminate.
  split; [reflexivity|discriminate].
Qed.

Lemma truthy_some (data : list N) : data <> [] -> truthy (Some data) = true.
Proof. destruct data; [congruence|reflexivity]. Qed.

Section ResolverFacts.

Context (U : PyUnicode) (W : world).

Lemma download_inv (u : str) (referer : option str) (data : list N) :
  _download_pdf_bytes W u referer = Returns (Some data) ->
  request_ok W u = true
  /\ exists resp,
       urlopen W u (headers referer) = Answers resp
       /\ body resp = data
       /\ (firstn 4 data = utf8 "%PDF"
           \/ str_in (utf8 "application/pdf") (default [] (content_type resp)) = true).
Proof.
  unfold _download_pdf_bytes.
  destruct (request_ok W u); [|discriminate]. intros H. split; [reflexivity|]. revert H.
  destruct (urlopen W u (headers referer)) as [|resp]; [discriminate|].
  destruct (str_eqb (firstn 4 (body resp)) (utf8 "%PDF")) eqn:Em; simpl.
  - intros [= <-]. exists resp. split; [reflexivity|]. split; [reflexivity|].
    left. unfold str_eqb in Em. apply bool_decide_eq_true_1 in Em. exact Em.
  - destruct (str_in (utf8 "application/pdf") (default [] (content_type resp))) eqn:Ec;
      [|discriminate].
    intros [= <-]. exists resp. split; [reflexivity|]. split; [reflexivity|].
    right. exact Ec.
Qed.

Lemma download_caught (u : str) (referer : option str) :
  request_ok W u = true ->
  urlopen W u (headers referer) = Raises ->
  _download_pdf_bytes W u referer = Returns None.
Proof. unfold _download_pdf_bytes. intros -> ->. reflexivity. Qed.

Lemma download_uncaught (u : str) (referer : option str) :
  request_ok W u = false -> _download_pdf_bytes W u referer = Raised.
Proof. unfold _download_pdf_bytes. intros ->. reflexivity. Qed.

Lemma fetch_gives_intro (d u : str) (o : option (list N)) :
  _download_pdf_bytes W u (Some d) = Returns o ->
  truthy o = true ->
  fetch_gives W d u (default [] o).
Proof.
  intros E Ht. apply truthy_inv in Ht. destruct Ht as [Eo Hne].
  split; [rewrite E, Eo at 1; reflexivity|exact Hne].
Qed.

Lemma fetch_fails_intro (d u : str) (o : option (list N)) :
  _download_pdf_bytes W u (Some d) = Returns o ->
  truthy o = false ->
  fetch_fails W d u.
Proof. intros E Ht. exists o. split; [exact E|exact Ht]. Qed.

Lemma fetch_fails_gives (d u : str) (data : list N) :
  fetch_fails W d u -> fetch_gives W d u data -> False.
Proof.
  intros (o & E & Ht) [E' Hne]. rewrite E in E'. injection E' as ->.
  rewrite (truthy_some data Hne) in Ht. discriminate Ht.
Qed.

(** The loop over the candidates: what it fetched, and how it ended. *)
Lemma try_candidates_log (d : str) (cs : list str) :
  forall seen,
    NoDup (snd (try_candidates W d seen cs))
    /\ (forall v, In v (snd (try_candidates W d seen cs)) -> In v cs /\ v ∉ seen)
    /\ match fst (try_candidates W d seen cs) with
       | Returns (Some (data, u)) =>
           exists f, snd (try_candidates W d seen cs) = f ++ [u]
             /\ (forall v, In v f -> fetch_fails W d v)
             /\ fetch_gives W d u data
       | Returns None =>
           (forall v, In v cs -> In v (snd (try_candidates W d seen cs)) \/ v ∈ seen)
           /\ (forall v, In v (snd (try_candidates W d seen cs)) -> fetch_fails W d v)
       | Raised =>
           exists f u, snd (try_candidates W d seen cs) = f ++ [u]
             /\ (forall v, In v f -> fetch_fails W d v)
             /\ _download_pdf_bytes W u (Some d) = Raised
       end.
Proof.
  induction cs as [|c cs IH]; intros seen; cbn [try_candidates].
  - split; [constructor|]. split; [intros v []|]. split; [intros v []|intros v []].
  - destruct (bool_decide (c ∈ seen)) eqn:Hc.
    + apply bool_decide_eq_true_1 in Hc.
      destruct (IH seen) as (Hnd & Hin & Hres).
      split; [exact Hnd|]. split.
      { intros v Hv. destruct (Hin v Hv) as [H1 H2]. split; [right; exact H1|exact H2]. }
      destruct (fst (try_candidates W d seen cs)) as [[[data u]|]|]; [exact Hres| |exact Hres].
      destruct Hres as [Hall Hfail]. split; [|exact Hfail].
      intros v [<-|Hv]; [right; exact Hc|exact (Hall v Hv)].
    + apply bool_decide_eq_false_1 in Hc.
      destruct (_download_pdf_bytes W c (Some d)) as [o|] eqn:Ed.
      2:{ cbn [fst snd]. split; [apply NoDup_singleton|]. split.
          { intros v [<-|[]]. split; [left; reflexivity|exact Hc]. }
          exists [], c. split; [reflexivity|]. split; [intros v []|exact Ed]. }
      destruct (truthy o) eqn:Ht; cbn [fst snd].
      * split; [apply NoDup_singleton|]. split.
        { intros v [<-|[]]. split; [left; reflexivity|exact Hc]. }
        exists []. split; [reflexivity|]. split; [intros v []|].
        exact (fetch_gives_intro d c o Ed Ht).
      * pose proof (fetch_fails_intro d c o Ed Ht) as Hfc.
        destruct (IH ({[c]} ∪ seen)) as (Hnd & Hin & Hres).
        split.
        { constructor; [|exact Hnd]. intros Hc'. apply list_elem_of_In in Hc'.
          destruct (Hin c Hc') as [_ Hn]. apply Hn, elem_of_union. left.
          apply elem_of_singleton. reflexivity. }
        split.
        { intros v [<-|Hv]; [split; [left; reflexivity|exact Hc]|].
          destruct (Hin v Hv) as [H1 H2]. split; [right; exact H1|].
          intros Hs. apply H2, elem_of_union. right. exact Hs. }
        destruct (fst (try_candidates W d ({[c]} ∪ seen) cs)) as [[[data u]|]|].
        -- destruct Hres as (f & Hf & Hfail & Hok).
           exists (c :: f). split; [rewrite Hf; reflexivity|]. split; [|exact Hok].
           intros v [<-|Hv]; [exact Hfc|exact (Hfail v Hv)].
        -- destruct Hres as [Hall Hfail]. split.
           ++ intros v [<-|Hv]; [left; left; reflexivity|].
              destruct (Hall v Hv) as [H|H]; [left; right; exact H|].
              apply elem_of_union in H. destruct H as [H|H]; [|right; exact H].
              apply elem_of_singleton in H. left. left. symmetry. exact H.
           ++ intros v [<-|Hv]; [exact Hfc|exact (Hfail v Hv)].
        -- destruct Hres as (f & u & Hf & Hfail & Hr).
           exists (c :: f), u. split; [rewrite Hf; reflexivity|]. split; [|exact Hr].
           intros v [<-|Hv]; [exact Hfc|exact (Hfail v Hv)].
Qed.

Lemma try_candidates_none (d : str) (cs : list str) :
  forall seen,
    (forall u, In u cs -> fetch_fails W d u) ->
    fst (try_candidates W d seen cs) = Returns None.
Proof.
  induction cs as [|c cs IH]; intros seen H; cbn [try_candidates]; [reflexivity|].
  assert (Hrest : forall u, In u cs -> fetch_fails W d u)
    by (intros u Hu; apply H; right; exact Hu).
  destruct (bool_decide (c ∈ seen)); [exact (IH seen Hrest)|].
  destruct (H c (or_introl eq_refl)) as (o & -> & ->). cbn [fst].
  exact (IH _ Hrest).
Qed.

(** The first candidate whose fetch gives bytes ends the loop. *)
Lemma try_candidates_first (d u : str) (data : list N) (l2 : list str) (l1 : list str) :
  forall seen,
    (forall v, v ∈ seen -> fetch_fails W d v) ->
    (forall v, In v l1 -> fetch_fails W d v) ->
    fetch_gives W d u data ->
    fst (try_candidates W d seen (l1 ++ u :: l2)) = Returns (Some (data, u))
    /\ exists f, snd (try_candidates W d seen (l1 ++ u :: l2)) = f ++ [u]
                 /\ forall v, In v f -> In v l1.
Proof.
  induction l1 as [|c l1 IH]; intros seen Hseen Hl1 Hu; cbn [app try_candidates].
  - destruct (bool_decide (u ∈ seen)) eqn:Hc.
    + apply bool_decide_eq_true_1 in Hc. exfalso.
      exact (fetch_fails_gives d u data (Hseen u Hc) Hu).
    + destruct Hu as [-> Hne]. rewrite (truthy_some data Hne). cbn [fst snd default].
      split; [reflexivity|]. exists []. split; [reflexivity|intros v []].
  - assert (Hrest : forall v, In v l1 -> fetch_fails W d v)
      by (intros v Hv; apply Hl1; right; exact Hv).
    destruct (bool_decide (c ∈ seen)).
    { destruct (IH seen Hseen Hrest Hu) as (E & f & Hf & Hin).
      split; [exact E|]. exists f. split; [exact Hf|]. intros v Hv. right. exact (Hin v Hv). }
    pose proof (Hl1 c (or_introl eq_refl)) as Hc. destruct Hc as (o & Eo & Ht).
    rewrite Eo, Ht. cbn [fst snd].
    destruct (IH ({[c]} ∪ seen)) as (E & f & Hf & Hin); [|exact Hrest|exact Hu|].
    { intros v Hv. apply elem_of_union in Hv. destruct Hv as [Hv|Hv]; [|exact (Hseen v Hv)].
      apply elem_of_singleton in Hv. subst v. exists o. split; [exact Eo|exact Ht]. }
    split; [exact E|]. exists (c :: f). split; [rewrite Hf; reflexivity|].
    intros v [<-|Hv]; [left; reflexivity|right; exact (Hin v Hv)].
Qed.

Lemma run_fails_cons (d base : str) (m : rmatch) (ms : list rmatch) :
  run_fails W d base (m :: ms) -> run_fails W d base ms.
Proof. intros H m' Hm'. apply H. right. exact Hm'. Qed.

(** The loop over the matches: what it fetched, and how it ended. *)
Lemma try_matches_log (d base : str) (ms : list rmatch) :
  (forall v, In v (snd (try_matches W d base ms)) ->
     exists m, In m ms /\ urljoin W base (group 1 m) = Some v)
  /\ match fst (try_matches W d base ms) with
     | Returns (Some (data, u)) =>
         exists ms1 m ms2,
           ms = ms1 ++ m :: ms2
           /\ urljoin W base (group 1 m) = Some u
           /\ snd (try_matches W d base ms) = joined W base ms1 ++ [u]
           /\ run_fails W d base ms1
           /\ fetch_gives W d u data
     | Returns None =>
         snd (try_matches W d base ms) = joined W base ms
         /\ run_fails W d base ms
     | Raised =>
         exists ms1 m ms2,
           ms = ms1 ++ m :: ms2
           /\ run_fails W d base ms1
           /\ ((urljoin W base (group 1 m) = None
                /\ snd (try_matches W d base ms) = joined W base ms1)
               \/ exists u, urljoin W base (group 1 m) = Some u
                    /\ _download_pdf_bytes W u (Some d) = Raised
                    /\ snd (try_matches W d base ms) = joined W base ms1 ++ [u])
     end.
Proof.
  induction ms as [|m ms IH]; cbn [try_matches].
  - split; [intros v []|]. split; [reflexivity|intros m' []].
  - destruct (urljoin W base (group 1 m)) as [u|] eqn:Ej.
    2:{ cbn [fst snd]. split; [intros v []|].
        exists [], m, ms. split; [reflexivity|]. split; [intros m' []|].
        left. split; [exact Ej|reflexivity]. }
    destruct (_download_pdf_bytes W u (Some d)) as [o|] eqn:Ed.
    2:{ cbn [fst snd]. split.
        { intros v [<-|[]]. exists m. split; [left; reflexivity|exact Ej]. }
        exists [], m, ms. split; [reflexivity|]. split; [intros m' []|].
        right. exists u. split; [exact Ej|]. split; [exact Ed|reflexivity]. }
    destruct (truthy o) eqn:Ht; cbn [fst snd].
    + split.
      { intros v [<-|[]]. exists m. split; [left; reflexivity|exact Ej]. }
      exists [], m, ms. split; [reflexivity|]. split; [exact Ej|]. split; [reflexivity|].
      split; [intros m' []|]. exact (fetch_gives_intro d u o Ed Ht).
    + destruct IH as [Hin IH].
      assert (Hm : forall m', In m' [m] -> exists v, urljoin W base (group 1 m') = Some v
                                                   /\ fetch_fails W d v).
      { intros m' [<-|[]]. exists u. split; [exact Ej|]. exact (fetch_fails_intro d u o Ed Ht). }
      assert (Hcons : forall ms1, run_fails W d base ms1 -> run_fails W d base (m :: ms1)).
      { intros ms1 H1 m' [<-|Hm']; [apply Hm; left; reflexivity|exact (H1 m' Hm')]. }
      assert (Hj : forall ms1, joined W base (m :: ms1) = u :: joined W base ms1).
      { intros ms1. unfold joined. cbn [omap list_omap]. rewrite Ej. reflexivity. }
      split.
      { intros v [<-|Hv]; [exists m; split; [left; reflexivity|exact Ej]|].
        destruct (Hin v Hv) as (m' & Hm' & E). exists m'. split; [right; exact Hm'|exact E]. }
      destruct (fst (try_matches W d base ms)) as [[[data u']|]|].
      * destruct IH as (ms1 & m0 & ms2 & -> & Hu & Hs & Hfail & Hok).
        exists (m :: ms1), m0, ms2. split; [reflexivity|]. split; [exact Hu|].
        split; [rewrite Hs, Hj; reflexivity|]. split; [exact (Hcons ms1 Hfail)|exact Hok].
      * destruct IH as [Hs Hfail]. split; [rewrite Hs, Hj; reflexivity|exact (Hcons ms Hfail)].
      * destruct IH as (ms1 & m0 & ms2 & -> & Hfail & Hend).
        exists (m :: ms1), m0, ms2. split; [reflexivity|]. split; [exact (Hcons ms1 Hfail)|].
        destruct Hend as [[En Hs]|(u' & Eu & Er & Hs)].
        -- left. split; [exact En|rewrite Hs, Hj; reflexivity].
        -- right. exists u'. split; [exact Eu|]. split; [exact Er|rewrite Hs, Hj; reflexivity].
Qed.

(** A match whose predecessors failed is fetched, and ends the loop when
    its fetch gives bytes. *)
Lemma try_matches_prefix (d base u : str) (ms1 : list rmatch) (m : rmatch) (ms2 : list rmatch) :
  run_fails W d base ms1 ->
  urljoin W base (group 1 m) = Some u ->
  exists rest,
    snd (try_matches W d base (ms1 ++ m :: ms2)) = joined W base ms1 ++ u :: rest
    /\ (fst (try_matches W d base (ms1 ++ m :: ms2)) = Returns None ->
        fetch_fails W d u)
    /\ forall data, fetch_gives W d u data ->
         rest = [] /\ fst (try_matches W d base (ms1 ++ m :: ms2)) = Returns (Some (data, u)).
Proof.
  induction ms1 as [|m1 ms1 IH]; intros H Ej; cbn [app try_matches].
  - rewrite Ej. destruct (_download_pdf_bytes W u (Some d)) as [o|] eqn:Ed.
    2:{ exists []. cbn [fst snd]. split; [reflexivity|]. split; [discriminate|].
        intros data [E _]. rewrite Ed in E. discriminate E. }
    destruct (truthy o) eqn:Ht; cbn [fst snd].
    + exists []. split; [reflexivity|]. split; [discriminate|].
      intros data [E _]. rewrite Ed in E. injection E as ->. split; reflexivity.
    + eexists. split; [reflexivity|]. split; [intros _; exact (fetch_fails_intro d u o Ed Ht)|].
      intros data Hg. exfalso.
      exact (fetch_fails_gives d u data (fetch_fails_intro d u o Ed Ht) Hg).
  - destruct (H m1 (or_introl eq_refl)) as (v & Ev & o & Eo & Ht).
    rewrite Ev, Eo, Ht. cbn [fst snd].
    destruct (IH (run_fails_cons d base m1 ms1 H) Ej) as (rest & Hs & Hn & Hok).
    exists rest. split; [|split; [exact Hn|exact Hok]].
    rewrite Hs. unfold joined. cbn [omap list_omap]. rewrite Ev. reflexivity.
Qed.

Lemma try_matches_none (d base : str) (ms : list rmatch) :
  run_fails W d base ms ->
  fst (try_matches W d base ms) = Returns None
  /\ snd (try_matches W d base ms) = joined W base ms.
Proof.
  induction ms as [|m ms IH]; intros H; cbn [try_matches]; [split; reflexivity|].
  destruct (H m (or_introl eq_refl)) as (v & Ev & o & Eo & Ht).
  rewrite Ev, Eo, Ht. cbn [fst snd].
  destruct (IH (run_fails_cons d base m ms H)) as [E1 E2].
  split; [exact E1|]. rewrite E2. unfold joined. cbn [omap list_omap]. rewrite Ev. reflexivity.
Qed.

(** C7.  When the resolver returns bytes they are not empty, and they are
    the body of the response for the returned URL, which begins with %PDF
    or came with a content type holding application/pdf. *)
Theorem resolved_bytes_are_pdf (d : str) (data : list N) (u : str) :
  returned (_find_pdf_link_in_detail U W d) = Returns (Some data, u) ->
  data <> []
  /\ exists resp,
       urlopen W u (headers (Some d)) = Answers resp
       /\ body resp = data
       /\ (firstn 4 data = utf8 "%PDF"
           \/ str_in (utf8 "application/pdf") (default [] (content_type resp)) = true).
Proof.
  unfold _find_pdf_link_in_detail.
  destruct (candidates U W d) as [cs|]; [|discriminate].
  destruct (try_candidates_log d cs ∅) as (_ & _ & H1).
  destruct (try_matches_log d (current_url (browse W d))
              (p_finditer U RE_HREF (page_source (browse W d)))) as [_ H2].
  destruct (fst (try_candidates W d ∅ cs)) as [[[data1 u1]|]|]; cbn [returned].
  - intros [= <- <-]. destruct H1 as (_ & _ & _ & Hd & Hne).
    split; [exact Hne|]. exact (proj2 (download_inv _ _ _ Hd)).
  - destruct (fst (try_matches W d _ _)) as [[[data2 u2]|]|]; cbn [returned];
      [|discriminate|discriminate].
    intros [= <- <-]. destruct H2 as (_ & _ & _ & _ & _ & _ & _ & Hd & Hne).
    split; [exact Hne|]. exact (proj2 (download_inv _ _ _ Hd)).
  - discriminate.
Qed.

End ResolverFacts.

Lemma resolved_bytes_are_pdf_witness :
  utf8 "%PDF-1.4 sample" <> []
  /\ exists resp,
       urlopen world_area detail_ref (headers (Some detail_ref)) = Answers resp
       /\ body resp = utf8 "%PDF-1.4 sample"
       /\ (firstn 4 (utf8 "%PDF-1.4 sample") = utf8 "%PDF"
           \/ str_in (utf8 "application/pdf") (default [] (content_type resp)) = true).
Proof.
  apply (resolved_bytes_are_pdf Latin1 world_area detail_ref).
  vm_compute. reflexivity.
Defined.

Section ResolverOrder.

Context (U : PyUnicode) (W : world).

Lemma candidates_hd (d : str) (cs : list str) :
  candidates U W d = Returns cs ->
  exists s, scanned U W d = Returns s /\ List.hd d cs = List.hd d s /\ cs <> [].
Proof.
  unfold candidates. destruct (scanned U W d) as [[|c s]|]; intros [= <-].
  - exists []. split; [reflexivity|]. split; [reflexivity|discriminate].
  - exists (c :: s). split; [reflexivity|]. split; [reflexivity|discriminate].
Qed.

Lemma fetched_first (d : str) :
  scanned U W d = Returns [] ->
  candidates U W d = Returns [d]
  /\ exists rest, fetched (_find_pdf_link_in_detail U W d) = d :: rest.
Proof.
  intros Hs.
  assert (Hc : candidates U W d = Returns [d]) by (unfold candidates; rewrite Hs; reflexivity).
  split; [exact Hc|].
  unfold _find_pdf_link_in_detail. rewrite Hc. cbn [try_candidates].
  rewrite (bool_decide_eq_false_2 (d ∈ (∅ : gset str))) by apply not_elem_of_empty.
  destruct (_download_pdf_bytes W d (Some d)) as [o|]; cbn [fst snd fetched].
  - destruct (truthy o); cbn [fst snd fetched]; [eexists; reflexivity|].
    destruct (fst (try_matches W d (current_url (browse W d))
                     (p_finditer U RE_HREF (page_source (browse W d))))) as [[[data2 u2]|]|];
      cbn [fetched]; eexists; reflexivity.
  - eexists. reflexivity.
Qed.

(** C3, amended.  When the scan of the rendered page yields no candidate
    the detail reference is the only candidate and the first URL fetched.
    When the fetch of a candidate gives bytes after the candidates before it
    failed, it is returned, and nothing was fetched but candidates that
    stand before it: no URL of the page source.  When every candidate's
    fetch fails, the candidates are fetched once each, and after them the
    matches of the pattern in the page source, in order: a match whose
    predecessors failed is fetched next, and when its fetch gives bytes it
    is the last fetch and what the resolver returns; when all of them fail
    every match was fetched and the resolver returns no bytes.  In every
    other case, a candidate whose fetch does not fail, nothing is fetched
    but candidates, each at most once, and the resolver returns one of them
    or raises; and when the scan of the rendered page raises, nothing is
    fetched at all. *)
Theorem markup_scan_after_candidates (d : str) :
  (scanned U W d = Returns [] ->
   candidates U W d = Returns [d]
   /\ exists rest, fetched (_find_pdf_link_in_detail U W d) = d :: rest)
  /\ (forall l1 u l2 data,
        candidates U W d = Returns (l1 ++ u :: l2) ->
        (forall v, In v l1 -> fetch_fails W d v) ->
        fetch_gives W d u data ->
        returned (_find_pdf_link_in_detail U W d) = Returns (Some data, u)
        /\ exists f,
             fetched (_find_pdf_link_in_detail U W d) = f ++ [u]
             /\ forall v, In v f -> In v l1)
  /\ (forall cs,
        candidates U W d = Returns cs ->
        (forall v, In v cs -> fetch_fails W d v) ->
        exists f,
          NoDup f
          /\ (forall v, In v f <-> In v cs)
          /\ (forall ms1 m ms2 u,
                p_finditer U RE_HREF (page_source (browse W d)) = ms1 ++ m :: ms2 ->
                (forall m', In m' ms1 ->
                   exists v, match_url W d m' = Some v /\ fetch_fails W d v) ->
                match_url W d m = Some u ->
                exists rest,
                  fetched (_find_pdf_link_in_detail U W d)
                  = f ++ match_urls W d ms1 ++ u :: rest
                  /\ forall data,
                       fetch_gives W d u data ->
                       rest = []
                       /\ returned (_find_pdf_link_in_detail U W d) = Returns (Some data, u))
          /\ ((forall m, In m (p_finditer U RE_HREF (page_source (browse W d))) ->
                 exists v, match_url W d m = Some v /\ fetch_fails W d v) ->
              fetched (_find_pdf_link_in_detail U W d)
              = f ++ match_urls W d (p_finditer U RE_HREF (page_source (browse W d)))
              /\ returned (_find_pdf_link_in_detail U W d) = Returns (None, List.hd d cs)))
  /\ (forall cs,
        candidates U W d = Returns cs ->
        ~ (forall v, In v cs -> fetch_fails W d v) ->
        NoDup (fetched (_find_pdf_link_in_detail U W d))
        /\ (forall v, In v (fetched (_find_pdf_link_in_detail U W d)) -> In v cs)
        /\ (returned (_find_pdf_link_in_detail U W d) = Raised
            \/ exists data u,
                 returned (_find_pdf_link_in_detail U W d) = Returns (Some data, u)
                 /\ In u cs))
  /\ (candidates U W d = Raised ->
      fetched (_find_pdf_link_in_detail U W d) = []
      /\ returned (_find_pdf_link_in_detail U W d) = Raised).
Proof.
  split; [apply fetched_first|]. split; [|split; [|split]].
  - intros l1 u l2 data Hc Hl1 Hu.
    unfold _find_pdf_link_in_detail. rewrite Hc.
    destruct (try_candidates_first W d u data l2 l1 ∅) as (E & f & Hf & Hin);
      [intros v Hv; exfalso; exact (not_elem_of_empty v Hv)|exact Hl1|exact Hu|].
    rewrite E. cbn [returned fetched]. split; [reflexivity|].
    exists f. split; [exact Hf|exact Hin].
  - intros cs Hc Hall.
    pose proof (try_candidates_none W d cs ∅ Hall) as E1.
    destruct (try_candidates_log W d cs ∅) as (Hnd & Hin & Hres).
    rewrite E1 in Hres. destruct Hres as [Hcov _].
    exists (snd (try_candidates W d ∅ cs)).
    split; [exact Hnd|]. split.
    { intros v. split; [intros Hv; exact (proj1 (Hin v Hv))|].
      intros Hv. destruct (Hcov v Hv) as [H|H]; [exact H|].
      exfalso. exact (not_elem_of_empty v H). }
    split.
    + intros ms1 m ms2 u Hms Hpre Hu.
      unfold _find_pdf_link_in_detail. rewrite Hc, E1, Hms.
      destruct (try_matches_prefix W d (current_url (browse W d)) u ms1 m ms2 Hpre Hu)
        as (rest & Hs & _ & Hok).
      exists rest. split.
      * destruct (fst (try_matches W d (current_url (browse W d)) (ms1 ++ m :: ms2)))
          as [[[data2 u2]|]|]; cbn [fetched]; rewrite Hs; reflexivity.
      * intros data Hg. destruct (Hok data Hg) as [-> E2]. rewrite E2.
        split; reflexivity.
    + intros Hm.
      unfold _find_pdf_link_in_detail. rewrite Hc, E1.
      destruct (try_matches_none W d (current_url (browse W d)) _ Hm) as [E2 Hs].
      rewrite E2, Hs. cbn [fetched returned]. split; reflexivity.
  - intros cs Hc Hnot.
    destruct (try_candidates_log W d cs ∅) as (Hnd & Hin & Hres).
    unfold _find_pdf_link_in_detail. rewrite Hc.
    destruct (fst (try_candidates W d ∅ cs)) as [[[data u]|]|]; cbn [fetched returned].
    + split; [exact Hnd|]. split; [intros v Hv; exact (proj1 (Hin v Hv))|].
      right. exists data, u. split; [reflexivity|].
      destruct Hres as (f & Hf & _). apply (Hin u). rewrite Hf.
      apply List.in_or_app. right. left. reflexivity.
    + exfalso. apply Hnot. destruct Hres as [Hcov Hfail].
      intros v Hv. destruct (Hcov v Hv) as [H|H]; [exact (Hfail v H)|].
      exfalso. exact (not_elem_of_empty v H).
    + split; [exact Hnd|]. split; [intros v Hv; exact (proj1 (Hin v Hv))|].
      left. reflexivity.
  - intros Hc. unfold _find_pdf_link_in_detail. rewrite Hc. split; reflexivity.
Qed.

(** When the resolver returns no bytes the crawl loop records the skip
    and goes on with the next item. *)
Lemma absent_result_is_skipped (it : item) (items : list item) (st : crawl) (u : str) :
  returned (_find_pdf_link_in_detail U W (i_href it)) = Returns (None, u) ->
  i_href it ∉ seen st ->
  below_2020 (i_year it) = false ->
  process_items U W (it :: items) st
  = process_items U W items
      {| seen := {[i_href it]} ∪ seen st; saved := saved st; rows_total := rows_total st;
         written := written st;
         trace := trace st ++ [MarkSeen (i_href it); Resolve (i_href it); Skip (i_href it)];
         crashed := crashed st |}.
Proof.
  intros Hr Hseen Hy. cbn [process_items]. rewrite Hy.
  rewrite (bool_decide_eq_false_2 (i_href it ∈ seen st) Hseen). cbn [orb].
  rewrite Hr. reflexivity.
Qed.

End ResolverOrder.

(** The statement of C3 as worded fails: no candidate on the rendered page,
    a PDF named in the page source, and the only URL fetched is the detail
    reference. *)
Lemma detail_fetched_before_markup :
  ~ markup_scan_before_detail Latin1 world_area detail_ref.
Proof.
  intros H.
  destruct (H eq_refl (utf8 "http://h/doc.pdf") (utf8 "http://h/doc.pdf")) as (l1 & l2 & E & Hn).
  - vm_compute. reflexivity.
  - vm_compute. reflexivity.
  - reflexivity.
  - assert (Hf : fetched (_find_pdf_link_in_detail Latin1 world_area detail_ref) = [detail_ref])
      by (vm_compute; reflexivity).
    rewrite Hf in E. destruct l1 as [|x l1].
    + simpl in E. injection E as E _. vm_compute in E. discriminate E.
    + injection E as Ex _. apply Hn. left. symmetry. exact Ex.
Qed.

(** Whatever the page source holds, a plain [href] to a PDF is no match of
    the pattern: it asks for a backslash before the extension. *)
Lemma plain_href_is_no_match :
  p_finditer Latin1 RE_HREF (page_source (browse world_area detail_ref)) = []
  /\ map (group 1) (p_finditer Latin1 RE_HREF (page_source (browse world_backslash detail_ref)))
     = [backslash_url].
Proof. split; vm_compute; reflexivity. Qed.

Lemma markup_scan_after_candidates_witness :
  (exists rest, fetched (_find_pdf_link_in_detail Latin1 world_backslash detail_ref)
                = detail_ref :: rest)
  /\ (exists f,
        fetched (_find_pdf_link_in_detail Latin1 world_backslash detail_ref) = f ++ [backslash_url]
        /\ NoDup f /\ (forall v, In v f <-> In v [detail_ref]))
  /\ returned (_find_pdf_link_in_detail Latin1 world_backslash detail_ref)
     = Returns (Some (utf8 "%PDF-1.4 sample"), backslash_url)
  /\ returned (_find_pdf_link_in_detail Latin1 world_second detail_ref)
     = Returns (Some (utf8 "%PDF-1.4 sample"), utf8 "http://h/b.pdf")
  /\ (exists f,
        fetched (_find_pdf_link_in_detail Latin1 world_second detail_ref)
        = f ++ [utf8 "http://h/b.pdf"]
        /\ forall v, In v f -> In v [utf8 "http://h/a.pdf"; utf8 "http://h/a.pdf"])
  /\ (forall v, In v (fetched (_find_pdf_link_in_detail Latin1 world_no_href [])) -> In v [[]])
  /\ fetched (_find_pdf_link_in_detail Latin1 world_bad_href (utf8 "http://h/e3")) = [].
Proof.
  destruct (markup_scan_after_candidates Latin1 world_backslash detail_ref) as (Ha & _ & Hc & _).
  destruct (markup_scan_after_candidates Latin1 world_second detail_ref) as (_ & Hb & _).
  destruct (markup_scan_after_candidates Latin1 world_no_href []) as (_ & _ & _ & Hd & _).
  destruct (markup_scan_after_candidates Latin1 world_bad_href (utf8 "http://h/e3"))
    as (_ & _ & _ & _ & He).
  split; [apply Ha; vm_compute; reflexivity|].
  destruct (Hc [detail_ref]) as (f & Hnd & Hf & Hm & _).
  { vm_compute. reflexivity. }
  { intros v [<-|[]]. exists None. split; vm_compute; reflexivity. }
  destruct (p_finditer Latin1 RE_HREF (page_source (browse world_backslash detail_ref)))
    as [|m ms] eqn:Em; [vm_compute in Em; discriminate|].
  assert (Hu : match_url world_backslash detail_ref m = Some backslash_url).
  { vm_compute in Em. injection Em as <- _. vm_compute. reflexivity. }
  destruct (Hm [] m ms backslash_url eq_refl) as (rest & Hs & Hok).
  { intros m' []. }
  { exact Hu. }
  destruct (Hok (utf8 "%PDF-1.4 sample")) as [-> Hr].
  { split; [vm_compute; reflexivity|discriminate]. }
  split.
  { exists f. split; [exact Hs|]. split; [exact Hnd|exact Hf]. }
  split; [exact Hr|].
  destruct (Hb [utf8 "http://h/a.pdf"; utf8 "http://h/a.pdf"] (utf8 "http://h/b.pdf") []
               (utf8 "%PDF-1.4 sample")) as [Hrb Hfb].
  { vm_compute. reflexivity. }
  { intros v [<-|[<-|[]]]; exists None; split; vm_compute; reflexivity. }
  { split; [vm_compute; reflexivity|discriminate]. }
  split; [exact Hrb|]. split; [exact Hfb|].
  split.
  - destruct (Hd [[]]) as (_ & Hsub & _).
    + vm_compute. reflexivity.
    + intros H. destruct (H [] (or_introl eq_refl)) as (o & E & _).
      vm_compute in E. discriminate E.
    + exact Hsub.
  - apply He. vm_compute. reflexivity.
Defined.

(** C4.  Where the code departs from the statement.  An [href] on a detail
    page that [urljoin] rejects, or a reference without scheme handed to
    [urllib.request.Request], raises out of the resolver: nothing is
    returned, and the historical crawl is left at that item, before the
    next edition of the page is looked at.  The daily mode catches the same
    exception and goes on to the next edition. *)
Theorem resolution_failure_reaches_crawl :
  (returned (_find_pdf_link_in_detail Latin1 world_bad_href (utf8 "http://h/e3")) = Raised
   /\ fetched (_find_pdf_link_in_detail Latin1 world_bad_href (utf8 "http://h/e3")) = []
   /\ map i_href (snd (_iter_listing_page Latin1 world_bad_href BASE_URL))
      = [utf8 "http://h/e3"; utf8 "http://h/e2"]
   /\ crashed (_historico_stream Latin1 world_bad_href) = true
   /\ trace (_historico_stream Latin1 world_bad_href)
      = [Listing BASE_URL; MarkSeen (utf8 "http://h/e3"); Resolve (utf8 "http://h/e3")]
   /\ resolved (d_trace (rodar_diario Latin1 world_bad_href))
      = [utf8 "http://h/e3"; utf8 "http://h/e2"]
   /\ extracted (d_trace (rodar_diario Latin1 world_bad_href)) = [utf8 "http://h/e2"])
  /\ (_download_pdf_bytes world_no_href [] (Some []) = Raised
      /\ returned (_find_pdf_link_in_detail Latin1 world_no_href []) = Raised
      /\ fetched (_find_pdf_link_in_detail Latin1 world_no_href []) = [[]]
      /\ map i_href (snd (_iter_listing_page Latin1 world_no_href BASE_URL))
         = [[]; utf8 "http://h/e2"]
      /\ crashed (_historico_stream Latin1 world_no_href) = true
      /\ trace (_historico_stream Latin1 world_no_href)
         = [Listing BASE_URL; MarkSeen []; Resolve []]).
Proof.
  split.
  - split; [vm_compute; reflexivity|]. split; [vm_compute; reflexivity|].
    split; [vm_compute; reflexivity|]. split; [vm_compute; reflexivity|].
    split; [vm_compute; reflexivity|]. split; vm_compute; reflexivity.
  - split; [vm_compute; reflexivity|]. split; [vm_compute; reflexivity|].
    split; [vm_compute; reflexivity|]. split; [vm_compute; reflexivity|].
    split; vm_compute; reflexivity.
Qed.

(** * Crawl controller *)

Lemma quiet_split (es tr pre post : list event) (u : str) :
  quiet es ->
  es ++ tr = pre ++ Listing u :: post ->
  exists pre', tr = pre' ++ Listing u :: post.
Proof.
  revert pre. induction es as [|e es IH]; intros pre Hq E.
  - exists pre. exact E.
  - inversion Hq as [|? ? He Hq']; subst.
    destruct pre as [|e' pre]; simpl in E.
    + injection E as -> _. discriminate He.
    + injection E as _ E. exact (IH pre Hq' E).
Qed.

Lemma from_items_weaken (it : item) (items : list item) (es : list event) :
  from_items items es -> from_items (it :: items) es.
Proof.
  intros [Hq Hr]. split; [exact Hq|].
  intros h Hh. destruct (Hr h Hh) as (it' & Hin & Hrest).
  exists it'. split; [right; exact Hin|exact Hrest].
Qed.

Lemma page_runs_latch (listing : str -> bool * list item) (tr : list event) :
  page_runs listing tr ->
  forall pre u post,
    tr = pre ++ Listing u :: post ->
    fst (listing u) = true ->
    from_items (snd (listing u)) post.
Proof.
  induction 1 as [|u0 es Hes|u0 es tr Hstop Hes Hruns IH]; intros pre u post E Hu.
  - destruct pre; discriminate E.
  - destruct pre as [|e pre]; simpl in E.
    + injection E as -> ->. exact Hes.
    + injection E as _ E. exfalso.
      destruct Hes as [Hq _]. unfold quiet in Hq. rewrite E in Hq.
      apply List.Forall_app in Hq. destruct Hq as [_ Hq].
      inversion Hq as [|? ? He _]. discriminate He.
  - destruct pre as [|e pre]; simpl in E.
    + injection E as -> _. congruence.
    + injection E as _ E.
      destruct (quiet_split es tr pre post u (proj1 Hes) E) as [pre' E'].
      exact (IH pre' u post E' Hu).
Qed.

Section CrawlFacts.

Context (U : PyUnicode) (W : world).

Lemma scan_listing_stop (l : list anchor) (a : anchor) :
  In a l ->
  is_edition (strip (a_text a)) = true ->
  at_cutoff (year_of U (strip (a_text a))) = true ->
  fst (scan_listing U l) = true.
Proof.
  induction l as [|b l IH]; intros Hin He Hy; [destruct Hin|].
  cbn [scan_listing]. destruct Hin as [->|Hin].
  - rewrite He, Hy. reflexivity.
  - destruct (negb (is_edition (strip (a_text b)))); [exact (IH Hin He Hy)|].
    destruct (at_cutoff (year_of U (strip (a_text b)))); [reflexivity|].
    exact (IH Hin He Hy).
Qed.

Lemma scan_listing_items (l : list anchor) (it : item) :
  In it (snd (scan_listing U l)) ->
  at_cutoff (i_year it) = false
  /\ exists a, In a l
       /\ it = {| i_href := default [] (a_href a); i_txt := strip (a_text a);
                  i_year := year_of U (strip (a_text a)) |}.
Proof.
  induction l as [|b l IH]; [intros []|].
  cbn [scan_listing].
  assert (Hrec : In it (snd (scan_listing U l)) ->
                 at_cutoff (i_year it) = false
                 /\ exists a, In a (b :: l)
                      /\ it = {| i_href := default [] (a_href a); i_txt := strip (a_text a);
                                 i_year := year_of U (strip (a_text a)) |}).
  { intros H. destruct (IH H) as [Hy (a & Ha & E)].
    split; [exact Hy|]. exists a. split; [right; exact Ha|exact E]. }
  destruct (negb (is_edition (strip (a_text b)))); [exact Hrec|].
  destruct (at_cutoff (year_of U (strip (a_text b)))) eqn:Hy; [exact Hrec|].
  cbn [snd]. intros [<-|H]; [|exact (Hrec H)].
  split; [exact Hy|]. exists b. split; [left; reflexivity|reflexivity].
Qed.

Lemma step_from_items (it : item) (rest : list event) :
  below_2020 (i_year it) = false ->
  rest = [] \/ rest = [Skip (i_href it)] \/ rest = [Extract (i_href it)] ->
  from_items [it] (MarkSeen (i_href it) :: Resolve (i_href it) :: rest).
Proof.
  intros Hy Hrest. split.
  - destruct Hrest as [->|[->| ->]]; repeat constructor.
  - intros h Hh. exists it. split; [left; reflexivity|]. split; [|exact Hy].
    destruct Hrest as [->|[->| ->]]; simpl in Hh;
      repeat match goal with
             | H : _ \/ _ |- _ => destruct H
             | H : False |- _ => destruct H
             | H : _ = Resolve _ |- _ => first [discriminate H | injection H as <-]
             | H : _ = Extract _ |- _ => first [discriminate H | injection H as <-]
             end; reflexivity.
Qed.

Lemma from_items_app (it : item) (items : list item) (es1 es2 : list event) :
  from_items [it] es1 -> from_items items es2 -> from_items (it :: items) (es1 ++ es2).
Proof.
  intros [Hq1 Hr1] [Hq2 Hr2]. split; [apply List.Forall_app; split; assumption|].
  intros h Hh.
  assert (Hcase : (In (Resolve h) es1 \/ In (Extract h) es1)
                  \/ (In (Resolve h) es2 \/ In (Extract h) es2)).
  { destruct Hh as [Hh|Hh]; apply List.in_app_or in Hh; tauto. }
  destruct Hcase as [H1|H2].
  - destruct (Hr1 h H1) as (it' & [E|[]] & Hrest). exists it'. split; [left; exact E|exact Hrest].
  - destruct (Hr2 h H2) as (it' & Hin & Hrest). exists it'. split; [right; exact Hin|exact Hrest].
Qed.

Lemma from_items_nil (items : list item) : from_items items [].
Proof. split; [constructor|]. intros h [[]|[]]. Qed.

Lemma process_items_trace (items : list item) :
  forall st, exists es,
    trace (process_items U W items st) = trace st ++ es /\ from_items items es.
Proof.
  induction items as [|it items IH]; intros st.
  - exists []. split; [symmetry; apply List.app_nil_r|apply from_items_nil].
  - cbn [process_items].
    destruct (bool_decide (i_href it ∈ seen st)) eqn:Hs; cbn [orb].
    { destruct (IH st) as (es & E & Hf). exists es. split; [exact E|].
      apply from_items_weaken. exact Hf. }
    destruct (below_2020 (i_year it)) eqn:Hy.
    { destruct (IH st) as (es & E & Hf). exists es. split; [exact E|].
      apply from_items_weaken. exact Hf. }
    assert (Hstop : forall rest st1,
               rest = [] \/ rest = [Skip (i_href it)] \/ rest = [Extract (i_href it)] ->
               trace st1 = trace st ++ MarkSeen (i_href it) :: Resolve (i_href it) :: rest ->
               exists es, trace st1 = trace st ++ es /\ from_items (it :: items) es).
    { intros rest st1 Hrest E1. eexists. split; [exact E1|].
      rewrite <- (List.app_nil_r (_ :: _ :: rest)).
      apply from_items_app; [exact (step_from_items it rest Hy Hrest)|apply from_items_nil]. }
    assert (Hnew : forall rest st1,
               rest = [] \/ rest = [Skip (i_href it)] \/ rest = [Extract (i_href it)] ->
               trace st1 = trace st ++ MarkSeen (i_href it) :: Resolve (i_href it) :: rest ->
               exists es, trace (process_items U W items st1) = trace st ++ es
                          /\ from_items (it :: items) es).
    { intros rest st1 Hrest E1.
      destruct (IH st1) as (es & E & Hf).
      exists ((MarkSeen (i_href it) :: Resolve (i_href it) :: rest) ++ es).
      split; [rewrite E, E1, <- List.app_assoc; reflexivity|].
      apply from_items_app; [exact (step_from_items it rest Hy Hrest)|exact Hf]. }
    destruct (returned (_find_pdf_link_in_detail U W (i_href it))) as [[[data|] url]|].
    + destruct (pdf_pages W data) as [pages|].
      * apply (Hnew [Extract (i_href it)]); [tauto|reflexivity].
      * apply (Hstop [Extract (i_href it)]); [tauto|reflexivity].
    + apply (Hnew [Skip (i_href it)]); [tauto|reflexivity].
    + apply (Hstop []); [tauto|reflexivity].
Qed.

Lemma pages_loop_runs (starts : list nat) :
  forall st, exists tr,
    trace (pages_loop U W starts st) = trace st ++ tr
    /\ page_runs (_iter_listing_page U W) tr.
Proof.
  induction starts as [|start starts IH]; intros st.
  - exists []. split; [symmetry; apply List.app_nil_r|constructor].
  - cbn [pages_loop].
    destruct (process_items_trace (snd (_iter_listing_page U W (listing_url start)))
                (log [Listing (listing_url start)] st)) as (es & E & Hes).
    cbn [log trace] in E.
    assert (Hlast : exists tr,
               trace (process_items U W (snd (_iter_listing_page U W (listing_url start)))
                        (log [Listing (listing_url start)] st)) = trace st ++ tr
               /\ page_runs (_iter_listing_page U W) tr).
    { exists (Listing (listing_url start) :: es).
      split; [rewrite E, <- List.app_assoc; reflexivity|].
      apply runs_last. exact Hes. }
    destruct (crashed (process_items U W (snd (_iter_listing_page U W (listing_url start)))
                         (log [Listing (listing_url start)] st))); cbn [orb]; [exact Hlast|].
    destruct (fst (_iter_listing_page U W (listing_url start))) eqn:Hstop; [exact Hlast|].
    + destruct (IH (process_items U W (snd (_iter_listing_page U W (listing_url start)))
                      (log [Listing (listing_url start)] st))) as (tr & E' & Hruns).
      exists (Listing (listing_url start) :: es ++ tr).
      split; [rewrite E', E, <- !List.app_assoc; reflexivity|].
      apply runs_more; assumption.
Qed.

Lemma historico_runs :
  page_runs (_iter_listing_page U W) (trace (_historico_stream U W)).
Proof.
  unfold _historico_stream.
  destruct (process_items_trace (snd (_iter_listing_page U W BASE_URL))
              (log [Listing BASE_URL] (start_state))) as (es & E & Hes).
  cbn [log trace start_state app] in E.
  assert (Hlast : page_runs (_iter_listing_page U W)
                    (trace (process_items U W (snd (_iter_listing_page U W BASE_URL))
                              (log [Listing BASE_URL] start_state)))).
  { rewrite E. apply runs_last. exact Hes. }
  destruct (crashed (process_items U W (snd (_iter_listing_page U W BASE_URL))
                       (log [Listing BASE_URL] start_state))); cbn [orb]; [exact Hlast|].
  destruct (fst (_iter_listing_page U W BASE_URL)) eqn:Hstop; [exact Hlast|].
  - destruct (pages_loop_runs (py_range 12 (N.to_nat 20000) PAGE_STEP)
                (process_items U W (snd (_iter_listing_page U W BASE_URL))
                   (log [Listing BASE_URL] start_state))) as (tr & E' & Hruns).
    rewrite E', E. apply (runs_more _ BASE_URL es tr); assumption.
Qed.

(** C5.  Once a fetched listing page holds an edition whose parsed year is
    at or below 2019: the stop flag of the page is set; the edition is not
    among the page's items; after the page was fetched no listing page is
    fetched again, and whatever is resolved or extracted from then on is an
    item of that page with no year below 2020. *)
Theorem cutoff_latches (pre post : list event) (u : str) (a : anchor) :
  trace (_historico_stream U W) = pre ++ Listing u :: post ->
  In a (anchors (browse W u)) ->
  is_edition (strip (a_text a)) = true ->
  at_cutoff (year_of U (strip (a_text a))) = true ->
  fst (_iter_listing_page U W u) = true
  /\ ~ In {| i_href := default [] (a_href a); i_txt := strip (a_text a);
             i_year := year_of U (strip (a_text a)) |}
          (snd (_iter_listing_page U W u))
  /\ quiet post
  /\ forall h, In (Resolve h) post \/ In (Extract h) post ->
       exists it, In it (snd (_iter_listing_page U W u))
                  /\ i_href it = h /\ below_2020 (i_year it) = false.
Proof.
  intros E Ha He Hy.
  assert (Hstop : fst (_iter_listing_page U W u) = true)
    by exact (scan_listing_stop _ a Ha He Hy).
  split; [exact Hstop|]. split.
  - intros Hin. apply scan_listing_items in Hin. destruct Hin as [Hn _].
    cbn [i_year] in Hn. congruence.
  - exact (page_runs_latch _ _ historico_runs pre u post E Hstop).
Qed.

End CrawlFacts.

Lemma cutoff_latches_witness :
  year_of Latin1 (utf8 "Diário Oficial 05-03-2018.pdf") = Some 2018%Z
  /\ fst (_iter_listing_page Latin1 world_crawl second_listing) = true
  /\ ~ In {| i_href := utf8 "http://h/e0"; i_txt := utf8 "Diário Oficial 05-03-2018.pdf";
             i_year := Some 2018%Z |}
          (snd (_iter_listing_page Latin1 world_crawl second_listing))
  /\ quiet [MarkSeen (utf8 "http://h/e1"); Resolve (utf8 "http://h/e1"); Skip (utf8 "http://h/e1")].
Proof.
  split; [vm_compute; reflexivity|].
  destruct (cutoff_latches Latin1 world_crawl
              [Listing BASE_URL;
               MarkSeen (utf8 "http://h/e3"); Resolve (utf8 "http://h/e3"); Extract (utf8 "http://h/e3");
               MarkSeen (utf8 "http://h/e2"); Resolve (utf8 "http://h/e2"); Extract (utf8 "http://h/e2")]
              [MarkSeen (utf8 "http://h/e1"); Resolve (utf8 "http://h/e1"); Skip (utf8 "http://h/e1")]
              second_listing
              (edition "Diário Oficial 05-03-2018.pdf" "http://h/e0"))
    as (Hstop & Hout & Hq & _).
  - vm_compute. reflexivity.
  - vm_compute. right. left. reflexivity.
  - vm_compute. reflexivity.
  - vm_compute. reflexivity.
  - split; [exact Hstop|]. split; [|exact Hq].
    intros Hin. apply Hout. vm_compute in Hin |- *. exact Hin.
Defined.

(** * Visited references *)

Lemma NoDup_snoc {A} (l : list A) (x : A) : NoDup l -> ~ In x l -> NoDup (l ++ [x]).
Proof.
  intros Hl Hx. apply NoDup_app. split; [exact Hl|]. split; [|apply NoDup_singleton].
  intros y Hy Hyx. apply list_elem_of_singleton in Hyx. subst y.
  apply Hx, list_elem_of_In. exact Hy.
Qed.

Lemma marked_app (tr new : list event) : marked tr -> marked new -> marked (tr ++ new).
Proof.
  intros Ht Hn pre h post E.
  apply List.app_eq_app in E. destruct E as [l [[E1 E2]|[E1 E2]]].
  - destruct l as [|e l].
    + simpl in E2. exfalso. exact (Hn [] h post (eq_sym E2)).
    + simpl in E2. injection E2 as <- _. exact (Ht pre h l E1).
  - rewrite E1. apply List.in_or_app. right. exact (Hn l h post E2).
Qed.

Lemma marked_listing (u : str) : marked [Listing u].
Proof.
  intros pre h post E. destruct pre as [|e [|e' pre]]; simpl in E; discriminate E.
Qed.

Lemma marked_step (h : str) (rest : list event) :
  rest = [] \/ rest = [Skip h] \/ rest = [Extract h] ->
  marked (MarkSeen h :: Resolve h :: rest).
Proof.
  intros Hrest pre h' post E.
  destruct pre as [|e1 [|e2 pre]]; simpl in E.
  - discriminate E.
  - injection E as <- <- _. left. reflexivity.
  - injection E as _ _ E. exfalso.
    destruct Hrest as [->|[->| ->]]; destruct pre as [|e3 [|e4 pre]]; discriminate E.
Qed.

Section VisitedFacts.

Context (U : PyUnicode) (W : world).

Lemma inv_listing (u : str) (st : crawl) : visit_inv st -> visit_inv (log [Listing u] st).
Proof.
  intros [Hr He Hs Hm]. split; cbn [log trace seen].
  - unfold resolved. rewrite List.flat_map_app. simpl. rewrite List.app_nil_r. exact Hr.
  - unfold extracted. rewrite List.flat_map_app. simpl. rewrite List.app_nil_r. exact He.
  - intros h. unfold resolved, extracted. rewrite !List.flat_map_app. simpl.
    rewrite !List.app_nil_r. exact (Hs h).
  - apply marked_app; [exact Hm|apply marked_listing].
Qed.

Lemma inv_step (h : str) (rest : list event) (st st1 : crawl) :
  visit_inv st ->
  h ∉ seen st ->
  rest = [] \/ rest = [Skip h] \/ rest = [Extract h] ->
  seen st1 = {[h]} ∪ seen st ->
  trace st1 = trace st ++ MarkSeen h :: Resolve h :: rest ->
  visit_inv st1.
Proof.
  intros [Hr He Hs Hm] Hh Hrest Hseen Htrace.
  assert (Hres : resolved (trace st1) = resolved (trace st) ++ [h]).
  { rewrite Htrace. unfold resolved. rewrite List.flat_map_app.
    destruct Hrest as [->|[->| ->]]; reflexivity. }
  assert (Hext : extracted (trace st1) = extracted (trace st)
                 \/ extracted (trace st1) = extracted (trace st) ++ [h]).
  { rewrite Htrace. unfold extracted. rewrite List.flat_map_app.
    destruct Hrest as [->|[->| ->]]; simpl;
      [left; apply List.app_nil_r|left; apply List.app_nil_r|right; reflexivity]. }
  split.
  - rewrite Hres. apply NoDup_snoc; [exact Hr|]. intros Hin. apply Hh, Hs. left. exact Hin.
  - destruct Hext as [-> | ->]; [exact He|].
    apply NoDup_snoc; [exact He|]. intros Hin. apply Hh, Hs. right. exact Hin.
  - intros h' Hh'. rewrite Hseen.
    assert (Hcase : h' = h \/ (In h' (resolved (trace st)) \/ In h' (extracted (trace st)))).
    { rewrite Hres in Hh'. destruct Hh' as [Hin|Hin].
      - apply List.in_app_or in Hin. destruct Hin as [Hin|[<-|[]]]; tauto.
      - destruct Hext as [E|E]; rewrite E in Hin; [tauto|].
        apply List.in_app_or in Hin. destruct Hin as [Hin|[<-|[]]]; tauto. }
    destruct Hcase as [->|Hold]; apply elem_of_union.
    + left. apply elem_of_singleton. reflexivity.
    + right. exact (Hs h' Hold).
  - rewrite Htrace. apply marked_app; [exact Hm|].
    apply marked_step. exact Hrest.
Qed.

Lemma process_items_inv (items : list item) :
  forall st, visit_inv st -> visit_inv (process_items U W items st).
Proof.
  induction items as [|it items IH]; intros st Hinv; [exact Hinv|].
  cbn [process_items].
  destruct (bool_decide (i_href it ∈ seen st)) eqn:Hs; cbn [orb]; [exact (IH st Hinv)|].
  destruct (below_2020 (i_year it)); [exact (IH st Hinv)|].
  apply bool_decide_eq_false_1 in Hs.
  destruct (returned (_find_pdf_link_in_detail U W (i_href it))) as [[[data|] url]|].
  - destruct (pdf_pages W data) as [pages|]; [apply IH|];
      apply (inv_step (i_href it) [Extract (i_href it)] st); auto.
  - apply IH. apply (inv_step (i_href it) [Skip (i_href it)] st); auto.
  - apply (inv_step (i_href it) [] st); auto.
Qed.

Lemma pages_loop_inv (starts : list nat) :
  forall st, visit_inv st -> visit_inv (pages_loop U W starts st).
Proof.
  induction starts as [|start starts IH]; intros st Hinv; [exact Hinv|].
  cbn [pages_loop].
  pose proof (process_items_inv (snd (_iter_listing_page U W (listing_url start))) _
                (inv_listing (listing_url start) st Hinv)) as H.
  destruct (crashed _); cbn [orb]; [exact H|].
  destruct (fst (_iter_listing_page U W (listing_url start))); [exact H|exact (IH _ H)].
Qed.

Lemma start_inv : visit_inv start_state.
Proof.
  split; cbn.
  - constructor.
  - constructor.
  - intros h [[]|[]].
  - intros pre h post E. destruct pre; discriminate E.
Qed.

Lemma historico_inv : visit_inv (_historico_stream U W).
Proof.
  unfold _historico_stream.
  pose proof (process_items_inv (snd (_iter_listing_page U W BASE_URL)) _
                (inv_listing BASE_URL start_state start_inv)) as H.
  destruct (crashed _); cbn [orb]; [exact H|].
  destruct (fst (_iter_listing_page U W BASE_URL)); [exact H|].
  apply pages_loop_inv. exact H.
Qed.

(** C6.  In one historical crawl no reference is resolved twice and none is
    extracted twice; every resolution comes after the mark of its
    reference in the visited set; and an item whose reference is in the
    visited set is passed over. *)
Theorem visited_never_twice :
  NoDup (resolved (trace (_historico_stream U W)))
  /\ NoDup (extracted (trace (_historico_stream U W)))
  /\ marked (trace (_historico_stream U W))
  /\ forall (it : item) (items : list item) (st : crawl),
       i_href it ∈ seen st ->
       process_items U W (it :: items) st = process_items U W items st.
Proof.
  destruct historico_inv as [Hr He _ Hm].
  split; [exact Hr|]. split; [exact He|]. split; [exact Hm|].
  intros it items st Hin. cbn [process_items].
  rewrite (bool_decide_eq_true_2 _ Hin). reflexivity.
Qed.

End VisitedFacts.

Lemma visited_never_twice_witness :
  resolved (trace (_historico_stream Latin1 world_crawl))
  = [utf8 "http://h/e3"; utf8 "http://h/e2"; utf8 "http://h/e1"]
  /\ NoDup (resolved (trace (_historico_stream Latin1 world_crawl)))
  /\ NoDup (extracted (trace (_historico_stream Latin1 world_crawl))).
Proof.
  split; [vm_compute; reflexivity|].
  destruct (visited_never_twice Latin1 world_crawl) as (Hr & He & _).
  split; [exact Hr|exact He].
Defined.

(** * The matcher stays inside the text *)

Lemma skipn_cons_inv {A} (n : nat) (T : list A) (c : A) (t : list A) :
  skipn n T = c :: t -> skipn (S n) T = t /\ (n < length T)%nat.
Proof.
  revert T. induction n as [|n IH]; intros T E.
  - destruct T as [|a T]; simpl in E; [discriminate|].
    injection E as -> ->. split; [reflexivity|simpl; lia].
  - destruct T as [|a T]; simpl in E; [discriminate|].
    destruct (IH T E) as [E' Hlt]. split; [exact E'|simpl; lia].
Qed.

Lemma occurs_in_skip_take (a n : nat) (T : str) :
  occurs_in (firstn n (skipn a T)) T.
Proof.
  exists (firstn a T), (skipn n (skipn a T)).
  rewrite (firstn_skipn n (skipn a T)), (firstn_skipn a T). reflexivity.
Qed.

Lemma occurs_in_refl (s : str) : occurs_in s s.
Proof. exists [], []. rewrite List.app_nil_r. reflexivity. Qed.

Lemma occurs_in_nil (s : str) : occurs_in [] s.
Proof. exists [], s. reflexivity. Qed.

Lemma occurs_in_trans (a b c : str) : occurs_in a b -> occurs_in b c -> occurs_in a c.
Proof.
  intros (l1 & l2 & ->) (k1 & k2 & ->).
  exists (k1 ++ l1), (l2 ++ k2). rewrite <- !List.app_assoc. reflexivity.
Qed.

Section MatcherFacts.

Context (U : PyUnicode) (ic : bool) (T : str).

Lemma one_in_text {R} (p : N -> bool) (st : mstate) (k : mstate -> option R) (x : R) :
  in_text T st -> one p st k = Some x ->
  exists st', in_text T st' /\ (pos st <= pos st')%nat /\ k st' = Some x.
Proof.
  intros (Hr & Hp & Hc). unfold one.
  destruct (rest st) as [|c t] eqn:E; [discriminate|].
  destruct (p c); [|discriminate]. intros H.
  assert (E' : skipn (pos st) T = c :: t) by congruence.
  apply skipn_cons_inv in E'. destruct E' as [E' Hlt].
  exists (eat c t st). split; [|split; [simpl; lia|exact H]].
  split; [simpl; symmetry; exact E'|]. split; [simpl; lia|exact Hc].
Qed.

Lemma run_Rep {R} (r : regex) (lo : nat) (hi : option nat) (greedy : bool)
    (st : mstate) (k : mstate -> option R) :
  run U ic (Rep r lo hi greedy) st k
  = rep_loop (fun st0 k0 => run U ic r st0 k0) lo hi greedy k (S (length (rest st))) 0 st.
Proof. reflexivity. Qed.

Lemma rep_loop_in_text {R} (body : mstate -> (mstate -> option R) -> option R)
    (lo : nat) (hi : option nat) (greedy : bool) (k : mstate -> option R) (x : R) :
  (forall st k0, in_text T st -> body st k0 = Some x ->
     exists st', in_text T st' /\ (pos st <= pos st')%nat /\ k0 st' = Some x) ->
  forall fuel n st,
    in_text T st -> rep_loop body lo hi greedy k fuel n st = Some x ->
    exists st', in_text T st' /\ (pos st <= pos st')%nat /\ k st' = Some x.
Proof.
  intros Hbody. induction fuel as [|fuel IHf]; intros n st Hst H; cbn [rep_loop] in H.
  - exists st. split; [exact Hst|]. split; [lia|].
    destruct (Nat.leb lo n); [exact H|discriminate].
  - assert (Hstop : (if Nat.leb lo n then k st else None) = Some x ->
                    exists st', in_text T st' /\ (pos st <= pos st')%nat /\ k st' = Some x).
    { intros Hs. exists st. split; [exact Hst|]. split; [lia|].
      destruct (Nat.leb lo n); [exact Hs|discriminate]. }
    assert (Hmore : body st (fun st' => if Nat.ltb (pos st) (pos st')
                                        then rep_loop body lo hi greedy k fuel (S n) st'
                                        else None) = Some x ->
                    exists st', in_text T st' /\ (pos st <= pos st')%nat /\ k st' = Some x).
    { intros Hrun.
      destruct (Hbody st _ Hst Hrun) as (st1 & H1 & Hle1 & Hk1).
      destruct (Nat.ltb (pos st) (pos st1)); [|discriminate].
      destruct (IHf (S n) st1 H1 Hk1) as (st2 & H2 & Hle2 & Hk2).
      exists st2. split; [exact H2|]. split; [lia|exact Hk2]. }
    destruct (match hi with Some h => Nat.leb h n | None => false end);
      [exact (Hstop H)|].
    destruct greedy.
    + destruct (body st _) as [y|] eqn:Er.
      * injection H as ->. exact (Hmore eq_refl).
      * exact (Hstop H).
    + destruct (if Nat.leb lo n then k st else None) as [y|] eqn:Es.
      * injection H as ->. exact (Hstop eq_refl).
      * exact (Hmore H).
Qed.

Lemma run_in_text (r : regex) :
  forall {R} (st : mstate) (k : mstate -> option R) (x : R),
    in_text T st -> run U ic r st k = Some x ->
    exists st', in_text T st' /\ (pos st <= pos st')%nat /\ k st' = Some x.
Proof.
  induction r as [| c | | neg items | | | r1 IH1 r2 IH2 | r1 IH1 r2 IH2
                 | r IH lo hi greedy | n r IH]; intros R st k x Hst H.
  - exists st. auto.
  - exact (one_in_text _ st k x Hst H).
  - exact (one_in_text _ st k x Hst H).
  - exact (one_in_text _ st k x Hst H).
  - cbn [run] in H. exists st. split; [exact Hst|]. split; [lia|].
    destruct (rest st) as [|c [|c' t]]; try discriminate; [exact H|].
    destruct (c =? 10); [exact H|discriminate].
  - cbn [run] in H. exists st. split; [exact Hst|]. split; [lia|].
    destruct (xorb _ _); [exact H|discriminate].
  - cbn [run] in H. destruct (IH1 _ st _ x Hst H) as (st1 & H1 & Hle1 & Hk1).
    destruct (IH2 _ st1 k x H1 Hk1) as (st2 & H2 & Hle2 & Hk2).
    exists st2. split; [exact H2|]. split; [lia|exact Hk2].
  - cbn [run] in H. destruct (run U ic r1 st k) as [y|] eqn:E1.
    + injection H as ->. exact (IH1 _ st k x Hst E1).
    + exact (IH2 _ st k x Hst H).
  - rewrite run_Rep in H.
    apply (rep_loop_in_text _ lo hi greedy k x (fun st0 k0 => IH R st0 k0 x) _ _ st Hst H).
  - cbn [run] in H. destruct (IH _ st _ x Hst H) as (st1 & H1 & Hle1 & Hk1).
    exists (close_group n st st1). split; [|split; [exact Hle1|exact Hk1]].
    destruct H1 as (Hr1 & Hp1 & Hc1). destruct Hst as (Hr & _ & _).
    split; [exact Hr1|]. split; [exact Hp1|].
    constructor; [|exact Hc1]. simpl. rewrite Hr. apply occurs_in_skip_take.
Qed.

Lemma match_at_in (r : regex) (p : nat) (pv : option N) (s : str) (m : rmatch) :
  s = skipn p T -> (p <= length T)%nat ->
  match_at U ic r p pv s = Some m ->
  match_in T m /\ m_start m = p.
Proof.
  intros Hs Hp H. unfold match_at in H.
  apply run_in_text in H.
  - destruct H as (st' & (Hr & Hl & Hc) & Hle & E). simpl in Hle.
    injection E as <-. split; [|reflexivity].
    split; [exact Hle|]. split; [exact Hl|]. split; [exact Hr|exact Hc].
  - split; [exact Hs|]. split; [exact Hp|constructor].
Qed.

Lemma search_from_in (r : regex) (s : str) :
  forall (p : nat) (pv : option N) (m : rmatch),
    s = skipn p T -> (p <= length T)%nat ->
    search_from U ic r p pv s = Some m ->
    match_in T m /\ (p <= m_start m)%nat.
Proof.
  induction s as [|c t IH]; intros p pv m Hs Hp H; cbn [search_from] in H.
  - destruct (match_at U ic r p pv []) as [m'|] eqn:E; [|discriminate].
    injection H as ->. destruct (match_at_in r p pv [] m Hs Hp E) as [Hm Hst].
    split; [exact Hm|lia].
  - destruct (match_at U ic r p pv (c :: t)) as [m'|] eqn:E.
    + injection H as ->. destruct (match_at_in r p pv (c :: t) m Hs Hp E) as [Hm Hst].
      split; [exact Hm|lia].
    + symmetry in Hs. apply skipn_cons_inv in Hs. destruct Hs as [Hs Hlt].
      destruct (IH (S p) (Some c) m (eq_sym Hs) Hlt H) as [Hm Hle].
      split; [exact Hm|lia].
Qed.

Lemma finditer_from_in (r : regex) (fuel : nat) :
  forall (p : nat) (pv : option N) (s : str),
    s = skipn p T -> (p <= length T)%nat ->
    Forall (match_in T) (finditer_from U ic fuel r p pv s).
Proof.
  induction fuel as [|fuel IH]; intros p pv s Hs Hp; cbn [finditer_from]; [constructor|].
  destruct (search_from U ic r p pv s) as [m|] eqn:E; [|constructor].
  destruct (search_from_in r s p pv m Hs Hp E) as [Hm _].
  constructor; [exact Hm|].
  destruct Hm as (Hse & Hel & Hr & _).
  destruct (Nat.ltb (m_start m) (m_end m)).
  - apply IH; [exact Hr|exact Hel].
  - destruct (m_rest m) as [|c t] eqn:Er; [constructor|].
    symmetry in Hr. apply skipn_cons_inv in Hr. destruct Hr as [Hr Hlt].
    apply IH; [symmetry; exact Hr|exact Hlt].
Qed.

Lemma group_in (n : nat) (m : rmatch) : match_in T m -> occurs_in (group n m) T.
Proof.
  intros (_ & _ & _ & Hc). unfold group.
  induction (m_groups m) as [|[k v] l IH]; simpl; [apply occurs_in_nil|].
  inversion Hc as [|? ? Hv Hl]; subst.
  destruct (Nat.eqb k n); [exact Hv|exact (IH Hl)].
Qed.

End MatcherFacts.

Lemma search_in (U : PyUnicode) (ic : bool) (r : regex) (s : str) (m : rmatch) :
  search U ic r s = Some m -> match_in s m.
Proof.
  intros H. apply (search_from_in U ic s r s 0 None m eq_refl (Nat.le_0_l _) H).
Qed.

Lemma finditer_in (U : PyUnicode) (ic : bool) (r : regex) (s : str) :
  Forall (match_in s) (finditer U ic r s).
Proof. apply finditer_from_in; [reflexivity|apply Nat.le_0_l]. Qed.

(** * Stripping and flattening *)

Lemma lstrip_by_head (p : N -> bool) (s : str) (c : N) (t : str) :
  lstrip_by p s = c :: t -> p c = false.
Proof.
  induction s as [|a s IH]; simpl; [discriminate|].
  destruct (p a) eqn:Ha; [exact IH|].
  intros [= <- _]. exact Ha.
Qed.

Lemma lstrip_by_id (p : N -> bool) (s : str) :
  (forall c t, s = c :: t -> p c = false) -> lstrip_by p s = s.
Proof.
  destruct s as [|a s]; [reflexivity|]. intros H. simpl.
  rewrite (H a s eq_refl). reflexivity.
Qed.

Lemma strip_by_trimmed (p : N -> bool) (s : str) : trimmed p (strip_by p s).
Proof.
  unfold strip_by. split.
  - intros c t E.
    destruct (rstrip_by_prefix p (lstrip_by p s)) as [x Hx].
    rewrite E in Hx. simpl in Hx. exact (lstrip_by_head p s c _ Hx).
  - intros t c E. unfold rstrip_by in E.
    apply (f_equal (@rev N)) in E. rewrite rev_involutive, rev_app_distr in E.
    simpl in E. exact (lstrip_by_head p _ c _ E).
Qed.

Lemma trimmed_strip_by (p : N -> bool) (s : str) : trimmed p s -> strip_by p s = s.
Proof.
  intros [Hh Hl]. unfold strip_by. rewrite (lstrip_by_id p s Hh).
  unfold rstrip_by. rewrite lstrip_by_id; [apply rev_involutive|].
  intros c t E. apply (Hl (rev t) c).
  rewrite <- (rev_involutive s), E. reflexivity.
Qed.

Lemma nonws_app (a b : str) : nonws (a ++ b) = nonws a ++ nonws b.
Proof. apply List.filter_app. Qed.

Lemma nonws_rev (s : str) : nonws (rev s) = rev (nonws s).
Proof.
  induction s as [|c s IH]; [reflexivity|].
  simpl rev. rewrite nonws_app, IH. simpl.
  destruct (negb (isspace c)); simpl; [reflexivity|apply List.app_nil_r].
Qed.

Lemma nonws_lstrip (s : str) : nonws (lstrip_by isspace s) = nonws s.
Proof.
  induction s as [|c s IH]; [reflexivity|]. simpl.
  destruct (isspace c) eqn:Hc; simpl; [exact IH|].
  rewrite Hc. reflexivity.
Qed.

Lemma nonws_strip (s : str) : nonws (strip s) = nonws s.
Proof.
  unfold strip, strip_by, rstrip_by.
  rewrite nonws_rev, nonws_lstrip, nonws_rev, rev_involutive. apply nonws_lstrip.
Qed.

Lemma nonws_sub_ws_aux (s : str) : forall b, nonws (sub_ws_aux b s) = nonws s.
Proof.
  induction s as [|c s IH]; intros b; [reflexivity|]. simpl.
  destruct (isspace c) eqn:Hc; simpl.
  - destruct b; simpl; apply IH.
  - rewrite Hc. simpl. rewrite IH. reflexivity.
Qed.

Lemma squeezed_sub_ws_id (s : str) :
  forall b, squeezed s -> (b = true -> starts_solid s) -> sub_ws_aux b s = s.
Proof.
  induction s as [|c s IH]; intros b Hs Hb; [reflexivity|]. simpl.
  destruct Hs as [Hc Ht].
  destruct (isspace c) eqn:Ec.
  - destruct (Hc eq_refl) as [-> Hn].
    destruct b.
    + specialize (Hb eq_refl). simpl in Hb. congruence.
    + rewrite (IH true Ht); [reflexivity|]. intros _. destruct s; [exact I|exact Hn].
  - rewrite (IH false Ht); [reflexivity|discriminate].
Qed.

(** X1.  Flattening a block is idempotent: a flattened block is left
    unchanged by flattening it again. *)
Theorem flatten_idempotent (bloco : str) :
  strip (sub_ws (strip (sub_ws bloco))) = strip (sub_ws bloco).
Proof.
  unfold sub_ws at 1.
  rewrite (squeezed_sub_ws_id _ false (squeezed_flat bloco)); [|discriminate].
  apply trimmed_strip_by. apply strip_by_trimmed.
Qed.

Lemma flatten_keeps_text_aux (bloco : str) : nonws (strip (sub_ws bloco)) = nonws bloco.
Proof. rewrite nonws_strip. apply nonws_sub_ws_aux. Qed.

(** X2.  Flattening changes whitespace only: the characters of the
    flattened block that are not whitespace are those of the block, in the
    same order. *)
Theorem flatten_keeps_text (bloco : str) :
  nonws (strip (sub_ws bloco)) = nonws bloco
  /\ (forall c, In c (strip (sub_ws bloco)) -> isspace c = true -> c = 32).
Proof.
  split; [apply flatten_keeps_text_aux|].
  apply squeezed_only_spaces, squeezed_flat.
Qed.

(** * The fields of a record *)

Lemma insert_by_In {A} (le : A -> A -> bool) (x y : A) (l : list A) :
  In x (insert_by le y l) -> x = y \/ In x l.
Proof.
  induction l as [|a l IH]; simpl.
  - intros [<-|[]]. left. reflexivity.
  - destruct (le y a); simpl.
    + intros [<-|H]; [left; reflexivity|right; exact H].
    + intros [<-|H]; [right; left; reflexivity|].
      destruct (IH H) as [->|H']; [left; reflexivity|right; right; exact H'].
Qed.

Lemma sort_by_In {A} (le : A -> A -> bool) (x : A) (l : list A) :
  In x (sort_by le l) -> In x l.
Proof.
  unfold sort_by. induction l as [|a l IH]; simpl; [tauto|].
  intros H. apply insert_by_In in H. destruct H as [->|H]; [left; reflexivity|].
  right. exact (IH H).
Qed.

Lemma strip_by_in (p : N -> bool) (s : str) : occurs_in (strip_by p s) s.
Proof. exact (strip_by_infix p s). Qed.

Lemma occurs_in_only_spaces (g s : str) : occurs_in g s -> only_spaces s -> only_spaces g.
Proof.
  intros (l1 & l2 & ->) H c Hc. apply H.
  apply List.in_or_app. right. apply List.in_or_app. left. exact Hc.
Qed.

Lemma trimmed_name_no_ws (s : str) :
  only_spaces s -> trimmed (mem_chars NAME_TRIM) s -> trimmed isspace s.
Proof.
  intros Ho [Hh Hl]. split.
  - intros c t E. destruct (isspace c) eqn:Hc; [|reflexivity].
    assert (c = 32) by (apply Ho; [rewrite E; left; reflexivity|exact Hc]). subst c.
    specialize (Hh 32 t E). vm_compute in Hh. discriminate Hh.
  - intros t c E. destruct (isspace c) eqn:Hc; [|reflexivity].
    assert (c = 32).
    { apply Ho; [|exact Hc]. rewrite E. apply List.in_or_app. right. left. reflexivity. }
    subst c. specialize (Hl t 32 E). vm_compute in Hl. discriminate Hl.
Qed.

Lemma trimmed_nil (p : N -> bool) : trimmed p [].
Proof.
  split; [intros c t E; discriminate E|].
  intros t c E. destruct t; discriminate E.
Qed.

Section FieldFacts.

Context (U : PyUnicode).

Lemma extract_block_inv (i : nat) (bloco : str) (r : registro) :
  In r (extract_block U i bloco) ->
  exists t,
    tipo_of U (strip (sub_ws bloco)) = Some t
    /\ r = {| tipo_ato := t;
              nome := nome_of U (strip (sub_ws bloco));
              matricula := field_of U RE_MATRICULA (strip (sub_ws bloco));
              processo := field_of U RE_PROCESSO (strip (sub_ws bloco));
              pagina := i;
              trecho := firstn 260 (strip (sub_ws bloco)) |}.
Proof.
  unfold extract_block.
  destruct (tipo_of U (strip (sub_ws bloco))) as [t|]; simpl; [|tauto].
  intros [<-|[]]. exists t. split; reflexivity.
Qed.

Lemma captured_in (p : pattern) (chars s : str) :
  occurs_in (match p_search U p s with
             | Some m => strip_chars chars (group 1 m)
             | None => []
             end) s.
Proof.
  unfold p_search. destruct (search U (ignorecase p) (expr p) s) as [m|] eqn:E;
    [|apply occurs_in_nil].
  apply (occurs_in_trans _ (group 1 m)); [apply strip_by_in|].
  apply group_in. exact (search_in _ _ _ _ _ E).
Qed.

Lemma captured_trimmed (p : pattern) (chars s : str) :
  trimmed (mem_chars chars)
          (match p_search U p s with
           | Some m => strip_chars chars (group 1 m)
           | None => []
           end).
Proof.
  destruct (p_search U p s); [apply strip_by_trimmed|apply trimmed_nil].
Qed.

Lemma janela_candidates (s x : str) :
  In x (map strip
          (List.filter (fun nm =>
               negb (Nat.ltb (length (split_ws nm)) 2)
               && negb (existsb (fun p => bool_decide (str_upper U p ∈ BAD_TOKENS))
                                (split_ws nm)))
             (p_findall U RE_NOME_CAIXA s))) ->
  occurs_in x s /\ trimmed isspace x.
Proof.
  intros H. apply List.in_map_iff in H. destruct H as (nm & <- & Hnm).
  split; [|apply strip_by_trimmed].
  apply List.filter_In in Hnm. destruct Hnm as [Hnm _].
  unfold p_findall, findall1 in Hnm. apply List.in_map_iff in Hnm.
  destruct Hnm as (m & <- & Hm).
  apply (occurs_in_trans _ (group 1 m)); [apply strip_by_in|].
  apply group_in.
  pose proof (finditer_in U (ignorecase RE_NOME_CAIXA) (expr RE_NOME_CAIXA) s) as Hall.
  rewrite List.Forall_forall in Hall. exact (Hall m Hm).
Qed.

Lemma nome_janela_in (s : str) :
  occurs_in (nome_janela U s) s /\ trimmed isspace (nome_janela U s).
Proof.
  unfold nome_janela.
  set (win := match p_search U RE_KEYWORD s with
              | Some km => slice (m_start km - 120) (Nat.min (length s) (m_end km + 120)) s
              | None => s
              end).
  assert (Hwin : occurs_in win s).
  { unfold win. destruct (p_search U RE_KEYWORD s); [|apply occurs_in_refl].
    unfold slice. apply occurs_in_skip_take. }
  match goal with
  | |- context [sort_by ?le ?cand] => destruct (sort_by le cand) as [|x l] eqn:E
  end.
  - split; [apply occurs_in_nil|apply trimmed_nil].
  - assert (Hx : In x (x :: l)) by (left; reflexivity).
    rewrite <- E in Hx. apply sort_by_In in Hx.
    destruct (janela_candidates win x Hx) as [Hin Htr].
    split; [exact (occurs_in_trans _ _ _ Hin Hwin)|exact Htr].
Qed.

Lemma nome_of_in (s : str) :
  only_spaces s -> occurs_in (nome_of U s) s /\ trimmed isspace (nome_of U s).
Proof.
  intros Ho. unfold nome_of.
  assert (H1 : occurs_in (nome_pos_frase U s) s /\ trimmed isspace (nome_pos_frase U s)).
  { pose proof (captured_in RE_NOME_POS_FRASE NAME_TRIM s) as Hin.
    split; [exact Hin|].
    apply trimmed_name_no_ws; [exact (occurs_in_only_spaces _ _ Hin Ho)|].
    apply captured_trimmed. }
  assert (H2 : occurs_in (nome_servidor U s) s /\ trimmed isspace (nome_servidor U s)).
  { pose proof (captured_in RE_NOME_SERVIDOR NAME_TRIM s) as Hin.
    split; [exact Hin|].
    apply trimmed_name_no_ws; [exact (occurs_in_only_spaces _ _ Hin Ho)|].
    apply captured_trimmed. }
  destruct (nome_pos_frase U s) as [|c t]; [|exact H1].
  destruct (nome_servidor U s) as [|c t]; [|exact H2].
  apply nome_janela_in.
Qed.

(** X3.  Nothing in a record is made up: the name, the registration id,
    the case number and the excerpt are each a run of consecutive
    characters of the flattened block. *)
Theorem fields_are_verbatim (i : nat) (bloco : str) (r : registro) :
  In r (extract_block U i bloco) ->
  occurs_in (nome r) (strip (sub_ws bloco))
  /\ occurs_in (matricula r) (strip (sub_ws bloco))
  /\ occurs_in (processo r) (strip (sub_ws bloco))
  /\ occurs_in (trecho r) (strip (sub_ws bloco)).
Proof.
  intros H. apply extract_block_inv in H. destruct H as (t & _ & ->). cbn.
  split.
  { apply nome_of_in. apply squeezed_only_spaces, squeezed_flat. }
  split; [apply captured_in|]. split; [apply captured_in|].
  apply (occurs_in_skip_take 0 260).
Qed.

(** X4.  The registration id and the case number never begin or end with
    a full stop, a comma, a semicolon or a space, and the name never
    begins or ends with whitespace. *)
Theorem fields_are_trimmed (i : nat) (bloco : str) (r : registro) :
  In r (extract_block U i bloco) ->
  trimmed (mem_chars FIELD_TRIM) (matricula r)
  /\ trimmed (mem_chars FIELD_TRIM) (processo r)
  /\ trimmed isspace (nome r).
Proof.
  intros H. apply extract_block_inv in H. destruct H as (t & _ & ->). cbn.
  split; [apply captured_trimmed|]. split; [apply captured_trimmed|].
  apply nome_of_in. apply squeezed_only_spaces, squeezed_flat.
Qed.

End FieldFacts.

Lemma fields_are_verbatim_witness :
  exists r,
    extract_block Latin1 1 block_fields = [r]
    /\ nome r = utf8 "JOSE LIMA NETO"
    /\ matricula r = utf8 "98.765-4"
    /\ processo r = utf8 "0012/2021"
    /\ occurs_in (nome r) (strip (sub_ws block_fields))
    /\ occurs_in (matricula r) (strip (sub_ws block_fields))
    /\ occurs_in (processo r) (strip (sub_ws block_fields)).
Proof.
  destruct (extract_block Latin1 1 block_fields) as [|r [|r' l]] eqn:E;
    try (vm_compute in E; discriminate E).
  exists r. split; [reflexivity|].
  assert (Hr : In r (extract_block Latin1 1 block_fields)) by (rewrite E; left; reflexivity).
  destruct (fields_are_verbatim Latin1 1 block_fields r Hr) as (Hn & Hm & Hp & _).
  vm_compute in E. injection E as <-.
  split; [vm_compute; reflexivity|]. split; [vm_compute; reflexivity|].
  split; [vm_compute; reflexivity|].
  split; [exact Hn|]. split; [exact Hm|exact Hp].
Defined.

Lemma fields_are_trimmed_witness :
  exists r,
    extract_block Latin1 1 block_fields = [r]
    /\ trimmed (mem_chars FIELD_TRIM) (matricula r)
    /\ trimmed (mem_chars FIELD_TRIM) (processo r)
    /\ trimmed isspace (nome r).
Proof.
  destruct (extract_block Latin1 1 block_fields) as [|r [|r' l]] eqn:E;
    try (vm_compute in E; discriminate E).
  exists r. split; [reflexivity|].
  apply (fields_are_trimmed Latin1 1 block_fields r).
  rewrite E. left. reflexivity.
Defined.

(** * Segmentation *)

Lemma split_aux_skip (sep : str) (pre : str) :
  forall acc rest, split_aux sep (length pre) acc (pre ++ rest) = split_aux sep 0 acc rest.
Proof.
  induction pre as [|c pre IH]; intros acc rest; [reflexivity|].
  simpl. apply IH.
Qed.

Lemma split_aux_nonempty (sep : str) (s : str) :
  forall k acc, split_aux sep k acc s <> [].
Proof.
  induction s as [|c s IH]; intros k acc; simpl; [discriminate|].
  destruct k; [|apply IH].
  destruct (startswith sep (c :: s)); [discriminate|apply IH].
Qed.

Lemma join_cons (sep x : str) (l : list str) :
  l <> [] -> join sep (x :: l) = x ++ sep ++ join sep l.
Proof. destruct l; [congruence|reflexivity]. Qed.

Lemma join_split_aux (sep : str) :
  sep <> [] ->
  forall n s acc, (length s <= n)%nat -> join sep (split_aux sep 0 acc s) = rev acc ++ s.
Proof.
  intros Hsep. induction n as [|n IH]; intros s acc Hn.
  - destruct s; [|simpl in Hn; lia]. simpl. symmetry. apply List.app_nil_r.
  - destruct s as [|c s]; [simpl; symmetry; apply List.app_nil_r|].
    cbn [split_aux]. destruct (startswith sep (c :: s)) eqn:E.
    + apply startswith_inv in E. destruct E as [rest E].
      destruct sep as [|a sep']; [congruence|].
      simpl in E. injection E as -> ->.
      replace (length (a :: sep') - 1)%nat with (length sep') by (simpl; lia).
      rewrite split_aux_skip.
      rewrite join_cons by apply split_aux_nonempty.
      rewrite (IH rest []).
      * reflexivity.
      * simpl in Hn. rewrite List.length_app in Hn. lia.
    + rewrite (IH s (c :: acc)) by (simpl in Hn; lia).
      simpl. rewrite <- List.app_assoc. reflexivity.
Qed.

Lemma join_split (sep s : str) : sep <> [] -> join sep (split sep s) = s.
Proof.
  intros Hsep. unfold split. apply (join_split_aux sep Hsep (length s) s []). lia.
Qed.

Lemma nonws_join (sep : str) (l : list str) :
  nonws sep = [] -> nonws (join sep l) = nonws (concat l).
Proof.
  intros Hsep. induction l as [|x l IH]; [reflexivity|].
  destruct l as [|y l].
  - simpl. rewrite List.app_nil_r. reflexivity.
  - change (join sep (x :: y :: l)) with (x ++ sep ++ join sep (y :: l)).
    change (concat (x :: y :: l)) with (x ++ concat (y :: l)).
    rewrite !nonws_app, Hsep, IH. reflexivity.
Qed.

Lemma blank_has_no_text (b : str) : nonblank b = false -> nonws b = [].
Proof.
  unfold nonblank. intros H. rewrite <- nonws_strip.
  destruct (strip b); [reflexivity|discriminate H].
Qed.

Lemma nonblank_has_text (b : str) : nonblank b = true -> nonws b <> [].
Proof.
  unfold nonblank. intros H. rewrite <- nonws_strip.
  destruct (strip b) as [|c t] eqn:E; [discriminate H|].
  destruct (strip_by_trimmed isspace b) as [Hh _].
  fold (strip b) in Hh. specialize (Hh c t E).
  simpl. rewrite Hh. discriminate.
Qed.

Lemma nonws_concat_filter (l : list str) :
  nonws (concat (List.filter nonblank l)) = nonws (concat l).
Proof.
  induction l as [|b l IH]; [reflexivity|]. simpl.
  destruct (nonblank b) eqn:E; simpl; rewrite !nonws_app, IH; [reflexivity|].
  rewrite (blank_has_no_text b E). reflexivity.
Qed.

Lemma nonws_concat_map (f : str -> str) (l : list str) :
  (forall b, nonws (f b) = nonws b) -> nonws (concat (map f l)) = nonws (concat l).
Proof.
  intros Hf. induction l as [|b l IH]; [reflexivity|].
  simpl. rewrite !nonws_app, Hf, IH. reflexivity.
Qed.

Lemma raw_blocks_nonblank (txt b : str) : In b (raw_blocks txt) -> nonblank b = true.
Proof.
  unfold raw_blocks.
  destruct (Nat.ltb _ 3); intros H; apply List.filter_In in H; exact (proj2 H).
Qed.

(** X5.  Segmentation and flattening lose no text: the characters of the
    flattened blocks of a page that are not whitespace are those of the
    page text, in the same order. *)
Theorem blocks_keep_text (txt : str) :
  nonws (concat (map (fun b => strip (sub_ws b)) (raw_blocks txt))) = nonws txt.
Proof.
  rewrite (nonws_concat_map _ _ flatten_keeps_text_aux).
  unfold raw_blocks.
  destruct (Nat.ltb _ 3); rewrite nonws_concat_filter.
  - rewrite <- (nonws_join [10]) by reflexivity.
    rewrite join_split by discriminate. reflexivity.
  - rewrite <- (nonws_join (utf8 "

")) by reflexivity.
    rewrite join_split by (vm_compute; discriminate). reflexivity.
Qed.

(** * Where records come from *)

Section RecordFacts.

Context (U : PyUnicode).

Lemma extract_page_In (i : nat) (pg : option str) (r : registro) :
  In r (extract_page U i pg) ->
  exists txt b, pg = Some txt /\ In b (raw_blocks txt) /\ In r (extract_block U i b).
Proof.
  unfold extract_page. destruct pg as [txt|]; simpl; [|tauto].
  destruct txt as [|c txt]; [simpl; tauto|].
  intros H. apply List.in_flat_map in H. destruct H as (b & Hb & Hr).
  exists (c :: txt), b. split; [reflexivity|]. split; [exact Hb|exact Hr].
Qed.

Lemma extract_pages_In (pages : list (option str)) :
  forall i r,
    In r (extract_pages U i pages) ->
    exists k pg, nth_error pages k = Some pg /\ In r (extract_page U (i + k) pg).
Proof.
  induction pages as [|p pages IH]; intros i r H; simpl in H; [destruct H|].
  apply List.in_app_or in H. destruct H as [H|H].
  - exists 0%nat, p. split; [reflexivity|]. rewrite Nat.add_0_r. exact H.
  - destruct (IH (S i) r H) as (k & pg & Hk & Hr).
    exists (S k), pg. split; [exact Hk|].
    replace (i + S k)%nat with (S i + k)%nat by lia. exact Hr.
Qed.

Lemma flat_nonempty (b : str) : nonblank b = true -> strip (sub_ws b) <> [].
Proof.
  intros H E. apply nonblank_has_text in H. apply H.
  rewrite <- flatten_keeps_text_aux, E. reflexivity.
Qed.

(** X6.  Every record comes from a block of the page it names: the page
    exists and has text, the block is one of its blocks and is not blank,
    and the record is what that block gives. *)
Theorem record_comes_from_block (pages : list (option str)) (r : registro) :
  In r (_extract_records U pages) ->
  exists k txt b,
    pagina r = S k
    /\ nth_error pages k = Some (Some txt)
    /\ In b (raw_blocks txt)
    /\ nonblank b = true
    /\ extract_block U (S k) b = [r].
Proof.
  unfold _extract_records. intros H.
  apply extract_pages_In in H. destruct H as (k & pg & Hk & Hr).
  apply extract_page_In in Hr. destruct Hr as (txt & b & -> & Hb & Hr).
  exists k, txt, b.
  pose proof (extract_block_inv U _ _ _ Hr) as (t & Ht & E).
  split; [rewrite E; reflexivity|]. split; [exact Hk|]. split; [exact Hb|].
  split; [exact (raw_blocks_nonblank _ _ Hb)|].
  unfold extract_block in Hr |- *. rewrite Ht in Hr |- *.
  destruct Hr as [<-|[]]. reflexivity.
Qed.

(** X7.  The excerpt of a record is never empty, holds at most 260
    characters and does not begin with whitespace. *)
Theorem excerpt_bounds (pages : list (option str)) (r : registro) :
  In r (_extract_records U pages) ->
  trecho r <> []
  /\ (length (trecho r) <= 260)%nat
  /\ starts_solid (trecho r).
Proof.
  unfold _extract_records. intros H.
  apply extract_pages_In in H. destruct H as (k & pg & Hk & Hr).
  apply extract_page_In in Hr. destruct Hr as (txt & b & -> & Hb & Hr).
  apply extract_block_inv in Hr. destruct Hr as (t & _ & ->). cbn [trecho].
  pose proof (flat_nonempty b (raw_blocks_nonblank _ _ Hb)) as Hne.
  destruct (strip_by_trimmed isspace (sub_ws b)) as [Hh _]. fold (strip (sub_ws b)) in Hh.
  destruct (strip (sub_ws b)) as [|c t'] eqn:E; [congruence|].
  split; [discriminate|]. split; [apply List.firstn_le_length|].
  simpl. exact (Hh c t' eq_refl).
Qed.

(** X8.  A block gives at most one record, so a PDF gives at most as many
    records as its pages have blocks; a page without text gives none. *)
Theorem at_most_one_record_per_block (pages : list (option str)) :
  (forall i b, length (extract_block U i b) <= 1)%nat
  /\ (forall i, extract_page U i None = [] /\ extract_page U i (Some []) = [])
  /\ (length (_extract_records U pages) <= block_count pages)%nat.
Proof.
  assert (H1 : forall i b, (length (extract_block U i b) <= 1)%nat).
  { intros i b. unfold extract_block. destruct (tipo_of U _); simpl; lia. }
  split; [exact H1|]. split; [intros i; split; reflexivity|].
  unfold _extract_records, block_count. generalize 1%nat.
  induction pages as [|pg pages IH]; intros i; simpl; [lia|].
  rewrite !List.length_app. specialize (IH (S i)).
  assert (Hp : (length (extract_page U i pg) <= length (raw_blocks (default [] pg)))%nat).
  { unfold extract_page. destruct (default [] pg) as [|c txt] eqn:E.
    - simpl. lia.
    - generalize (raw_blocks (c :: txt)). intros l.
      induction l as [|b l IHl]; simpl; [lia|].
      rewrite List.length_app. specialize (H1 i b). lia. }
  lia.
Qed.

(** X9.  The classification depends on the normalized text alone: the
    tests of the accented phrases on the lower-cased text add nothing. *)
Theorem tipo_by_normalized_text :
  folds_phrase U (utf8 "conceder pensão") (utf8 "conceder pensao") ->
  folds_phrase U (utf8 "isenção de imposto de renda") (utf8 "isencao de imposto de renda") ->
  forall s, tipo_of U s = tipo_of_normalized (nrm U s).
Proof.
  intros Hp Hi s. unfold tipo_of, tipo_of_normalized.
  destruct (str_in (utf8 "conceder aposentadoria") (nrm U s)); [reflexivity|].
  destruct (str_in (utf8 "conceder pensão") (str_lower U s)) eqn:E2.
  { rewrite (Hp s E2). reflexivity. }
  rewrite orb_false_r.
  destruct (str_in (utf8 "conceder pensao") (nrm U s)); [reflexivity|].
  destruct (str_in (utf8 "isenção de imposto de renda") (str_lower U s)) eqn:E3.
  { rewrite (Hi s E3). reflexivity. }
  rewrite orb_false_r. reflexivity.
Qed.

End RecordFacts.

Lemma record_comes_from_block_witness :
  exists r k txt b,
    In r (_extract_records Latin1 [None; Some page_two_blocks])
    /\ pagina r = S k
    /\ nth_error [None; Some page_two_blocks] k = Some (Some txt)
    /\ In b (raw_blocks txt)
    /\ nonblank b = true
    /\ extract_block Latin1 (S k) b = [r].
Proof.
  destruct (_extract_records Latin1 [None; Some page_two_blocks]) as [|r l] eqn:E;
    [vm_compute in E; discriminate E|].
  assert (Hr : In r (_extract_records Latin1 [None; Some page_two_blocks]))
    by (rewrite E; left; reflexivity).
  destruct (record_comes_from_block Latin1 _ r Hr) as (k & txt & b & H).
  exists r, k, txt, b. split; [left; reflexivity|exact H].
Defined.

Lemma excerpt_bounds_witness :
  exists r,
    _extract_records Latin1 [Some page_long] = [r]
    /\ length (trecho r) = 260%nat
    /\ trecho r <> []
    /\ (length (trecho r) <= 260)%nat
    /\ starts_solid (trecho r).
Proof.
  destruct (_extract_records Latin1 [Some page_long]) as [|r [|r' l]] eqn:E;
    try (vm_compute in E; discriminate E).
  exists r. split; [reflexivity|].
  assert (Hr : In r (_extract_records Latin1 [Some page_long]))
    by (rewrite E; left; reflexivity).
  pose proof (excerpt_bounds Latin1 _ r Hr) as H.
  split; [|exact H].
  vm_compute in E. injection E as <-. vm_compute. reflexivity.
Defined.

Lemma tipo_by_normalized_text_witness :
  tipo_of Latin1 block_pensao_accent = Some PENSAO
  /\ tipo_of Latin1 block_pensao_accent = tipo_of_normalized (nrm Latin1 block_pensao_accent).
Proof.
  split; [vm_compute; reflexivity|].
  apply (tipo_by_normalized_text Latin1 latin1_folds_pensao latin1_folds_isencao).
Defined.

(** * The order of the fetches *)

Section FetchFacts.

Context (U : PyUnicode) (W : world).

(** X10.  The resolver returns on the first success: when it returns
    bytes, the returned URL is the last one fetched and every fetch before
    it failed. *)
Theorem returns_on_first_success (d : str) (data : list N) (u : str) :
  returned (_find_pdf_link_in_detail U W d) = Returns (Some data, u) ->
  exists f,
    fetched (_find_pdf_link_in_detail U W d) = f ++ [u]
    /\ forall v, In v f -> fetch_fails W d v.
Proof.
  unfold _find_pdf_link_in_detail.
  destruct (candidates U W d) as [cs|]; [|discriminate].
  destruct (try_candidates_log W d cs ∅) as (_ & _ & H1).
  destruct (try_matches_log W d (current_url (browse W d))
              (p_finditer U RE_HREF (page_source (browse W d)))) as [_ H2].
  destruct (fst (try_candidates W d ∅ cs)) as [[[data1 u1]|]|]; cbn [returned fetched].
  - intros [= <- <-]. destruct H1 as (f & Hf & Hfail & _).
    exists f. split; [exact Hf|exact Hfail].
  - destruct (fst (try_matches W d _ _)) as [[[data2 u2]|]|]; cbn [returned fetched];
      [|discriminate|discriminate].
    intros [= <- <-].
    destruct H1 as [_ Hfail1].
    destruct H2 as (ms1 & m & ms2 & _ & _ & Hs & Hfail2 & _).
    exists (snd (try_candidates W d ∅ cs) ++ joined W (current_url (browse W d)) ms1).
    split; [rewrite Hs, List.app_assoc; reflexivity|].
    intros v Hv. apply List.in_app_or in Hv. destruct Hv as [Hv|Hv]; [exact (Hfail1 v Hv)|].
    unfold joined in Hv. apply list_elem_of_In, list_elem_of_omap in Hv.
    destruct Hv as (m' & Hm' & Ev). apply list_elem_of_In in Hm'.
    destruct (Hfail2 m' Hm') as (v' & Ev' & Hf'). rewrite Ev in Ev'. injection Ev' as <-.
    exact Hf'.
  - discriminate.
Qed.

(** X11.  The resolver gives up only after trying everything: when it
    returns no bytes, every candidate and the URL of every match of the
    pattern was fetched, every fetch failed, and the URL returned is one
    of the candidates. *)
Theorem absence_after_all_tried (d : str) (u : str) :
  returned (_find_pdf_link_in_detail U W d) = Returns (None, u) ->
  exists cs,
    candidates U W d = Returns cs
    /\ (forall v, In v cs -> In v (fetched (_find_pdf_link_in_detail U W d)))
    /\ (forall m, In m (p_finditer U RE_HREF (page_source (browse W d))) ->
          exists v, match_url W d m = Some v
                    /\ In v (fetched (_find_pdf_link_in_detail U W d)))
    /\ (forall v, In v (fetched (_find_pdf_link_in_detail U W d)) -> fetch_fails W d v)
    /\ In u cs.
Proof.
  unfold _find_pdf_link_in_detail.
  destruct (candidates U W d) as [cs|] eqn:Hc; [|discriminate].
  destruct (try_candidates_log W d cs ∅) as (_ & _ & H1).
  destruct (try_matches_log W d (current_url (browse W d))
              (p_finditer U RE_HREF (page_source (browse W d)))) as [_ H2].
  destruct (fst (try_candidates W d ∅ cs)) as [[[data1 u1]|]|]; cbn [returned fetched];
    [discriminate| |discriminate].
  destruct (fst (try_matches W d _ _)) as [[[data2 u2]|]|]; cbn [returned fetched];
    [discriminate| |discriminate].
  intros [= <-]. exists cs. split; [reflexivity|].
  destruct H1 as [Hall1 Hfail1]. destruct H2 as [Hs Hfail2].
  split.
  { intros v Hv. apply List.in_or_app. left.
    destruct (Hall1 v Hv) as [H|H]; [exact H|]. exfalso. exact (not_elem_of_empty v H). }
  split.
  { intros m Hm. destruct (Hfail2 m Hm) as (v & Ev & _). exists v. split; [exact Ev|].
    apply List.in_or_app. right. rewrite Hs. unfold joined.
    apply list_elem_of_In, list_elem_of_omap. exists m.
    split; [apply list_elem_of_In; exact Hm|exact Ev]. }
  split.
  { intros v Hv. apply List.in_app_or in Hv. destruct Hv as [Hv|Hv]; [exact (Hfail1 v Hv)|].
    rewrite Hs in Hv. unfold joined in Hv. apply list_elem_of_In, list_elem_of_omap in Hv.
    destruct Hv as (m' & Hm' & Ev). apply list_elem_of_In in Hm'.
    destruct (Hfail2 m' Hm') as (v' & Ev' & Hf'). rewrite Ev in Ev'. injection Ev' as <-.
    exact Hf'. }
  destruct (candidates_hd U W d cs Hc) as (_ & _ & _ & Hne).
  destruct cs as [|c cs]; [congruence|]. left. reflexivity.
Qed.

(** X12.  The fetches come in two runs: first candidates, none of them
    twice, then URLs of matches of the pattern in the page source. *)
Theorem fetches_in_two_runs (d : str) :
  exists f1 f2,
    fetched (_find_pdf_link_in_detail U W d) = f1 ++ f2
    /\ NoDup f1
    /\ (forall v, In v f1 -> exists cs, candidates U W d = Returns cs /\ In v cs)
    /\ (forall v, In v f2 ->
          exists m, In m (p_finditer U RE_HREF (page_source (browse W d)))
                    /\ match_url W d m = Some v).
Proof.
  unfold _find_pdf_link_in_detail.
  destruct (candidates U W d) as [cs|].
  2:{ exists [], []. cbn [fetched]. split; [reflexivity|]. split; [constructor|].
      split; intros v []. }
  destruct (try_candidates_log W d cs ∅) as (Hnd & Hin & _).
  destruct (try_matches_log W d (current_url (browse W d))
              (p_finditer U RE_HREF (page_source (browse W d)))) as [Hm _].
  assert (Hcand : forall v, In v (snd (try_candidates W d ∅ cs)) ->
                            exists cs', Returns cs = Returns cs' /\ In v cs').
  { intros v Hv. exists cs. split; [reflexivity|exact (proj1 (Hin v Hv))]. }
  assert (Hone : exists f1 f2,
             snd (try_candidates W d ∅ cs) = f1 ++ f2
             /\ NoDup f1
             /\ (forall v, In v f1 -> exists cs', Returns cs = Returns cs' /\ In v cs')
             /\ (forall v, In v f2 ->
                   exists m, In m (p_finditer U RE_HREF (page_source (browse W d)))
                             /\ match_url W d m = Some v)).
  { exists (snd (try_candidates W d ∅ cs)), [].
    split; [symmetry; apply List.app_nil_r|]. split; [exact Hnd|].
    split; [exact Hcand|intros v []]. }
  destruct (fst (try_candidates W d ∅ cs)) as [[[data1 u1]|]|]; cbn [fetched];
    [exact Hone| |exact Hone].
  exists (snd (try_candidates W d ∅ cs)),
         (snd (try_matches W d (current_url (browse W d))
                 (p_finditer U RE_HREF (page_source (browse W d))))).
  split; [destruct (fst (try_matches W d _ _)) as [[[data2 u2]|]|]; reflexivity|].
  split; [exact Hnd|]. split; [exact Hcand|exact Hm].
Qed.

(** X13.  Candidates are served in the order of their discovery: the
    first candidate whose fetch succeeds is the one returned, with the
    bytes of its response. *)
Theorem first_good_candidate_wins (d u : str) (l1 l2 : list str) (data : list N) :
  candidates U W d = Returns (l1 ++ u :: l2) ->
  (forall v, In v l1 -> fetch_fails W d v) ->
  fetch_gives W d u data ->
  returned (_find_pdf_link_in_detail U W d) = Returns (Some data, u)
  /\ _download_pdf_bytes W u (Some d) = Returns (Some data).
Proof.
  intros Hc Hl1 Hu. unfold _find_pdf_link_in_detail. rewrite Hc.
  destruct (try_candidates_first W d u data l2 l1 ∅) as (E & _);
    [intros v Hv; exfalso; exact (not_elem_of_empty v Hv)|exact Hl1|exact Hu|].
  rewrite E. cbn [returned]. split; [reflexivity|exact (proj1 Hu)].
Qed.

End FetchFacts.

Lemma returns_on_first_success_witness :
  fetched (_find_pdf_link_in_detail Latin1 world_second detail_ref)
  = [utf8 "http://h/a.pdf"; utf8 "http://h/b.pdf"]
  /\ exists f,
       fetched (_find_pdf_link_in_detail Latin1 world_second detail_ref)
       = f ++ [utf8 "http://h/b.pdf"]
       /\ forall v, In v f -> fetch_fails world_second detail_ref v.
Proof.
  split; [vm_compute; reflexivity|].
  apply (returns_on_first_success Latin1 world_second detail_ref (utf8 "%PDF-1.4 sample")).
  vm_compute. reflexivity.
Defined.

Lemma absence_after_all_tried_witness :
  fetched (_find_pdf_link_in_detail Latin1 world_offline detail_ref)
  = [utf8 "http://h/a.PDF"; utf8 "http://h/b.pdf"]
  /\ exists cs,
       candidates Latin1 world_offline detail_ref = Returns cs
       /\ In (utf8 "http://h/a.PDF") cs.
Proof.
  split; [vm_compute; reflexivity|].
  destruct (absence_after_all_tried Latin1 world_offline detail_ref (utf8 "http://h/a.PDF"))
    as (cs & Hc & _ & _ & _ & Hu).
  - vm_compute. reflexivity.
  - exists cs. split; [exact Hc|exact Hu].
Defined.

Lemma first_good_candidate_wins_witness :
  returned (_find_pdf_link_in_detail Latin1 world_second detail_ref)
  = Returns (Some (utf8 "%PDF-1.4 sample"), utf8 "http://h/b.pdf")
  /\ _download_pdf_bytes world_second (utf8 "http://h/b.pdf") (Some detail_ref)
     = Returns (Some (utf8 "%PDF-1.4 sample")).
Proof.
  apply (first_good_candidate_wins Latin1 world_second detail_ref (utf8 "http://h/b.pdf")
           [utf8 "http://h/a.pdf"; utf8 "http://h/a.pdf"] []).
  - vm_compute. reflexivity.
  - intros v [<-|[<-|[]]]; exists None; split; vm_compute; reflexivity.
  - split; [vm_compute; reflexivity|discriminate].
Defined.

(** * The listing scan *)

Lemma cutoff_is_below_2020 (year : option Z) : below_2020 year = at_cutoff year.
Proof.
  destruct year as [y|]; [|reflexivity]. simpl. unfold CUTOFF_YEAR_STOP.
  destruct (Z.ltb_spec y 2020), (Z.leb_spec y 2019); try reflexivity; lia.
Qed.

Section ListingFacts.

Context (U : PyUnicode) (W : world).

Lemma scan_listing_spec (l : list anchor) :
  scan_listing U l
  = (existsb (cutoff_anchor U) l,
     map (to_item U)
         (List.filter (fun a => edition_anchor a && negb (at_cutoff (year_of U (strip (a_text a))))) l)).
Proof.
  induction l as [|a l IH]; [reflexivity|].
  cbn [scan_listing existsb List.filter]. rewrite IH. cbn [fst snd].
  unfold cutoff_anchor, edition_anchor.
  destruct (is_edition (strip (a_text a))); cbn [negb andb orb]; [|reflexivity].
  destruct (at_cutoff (year_of U (strip (a_text a)))); reflexivity.
Qed.

(** X14.  The listing scan keeps, in the order of the page, exactly the
    anchors that name an edition and whose year is absent or above 2019;
    the stop flag is set exactly when some anchor names an edition of a
    year at or below 2019. *)
Theorem listing_scan_is_a_filter (url : str) :
  snd (_iter_listing_page U W url)
  = map (to_item U)
        (List.filter (fun a => edition_anchor a && negb (at_cutoff (year_of U (strip (a_text a)))))
                     (anchors (browse W url)))
  /\ (fst (_iter_listing_page U W url) = true
      <-> exists a, In a (anchors (browse W url))
                    /\ edition_anchor a = true
                    /\ at_cutoff (year_of U (strip (a_text a))) = true).
Proof.
  unfold _iter_listing_page. rewrite scan_listing_spec. cbn [fst snd].
  split; [reflexivity|]. rewrite List.existsb_exists. unfold cutoff_anchor.
  split.
  - intros (a & Ha & Hc). apply andb_prop in Hc. exists a. tauto.
  - intros (a & Ha & He & Hc). exists a. split; [exact Ha|]. rewrite He, Hc. reflexivity.
Qed.

Lemma listing_items_pass (url : str) (it : item) :
  In it (snd (_iter_listing_page U W url)) ->
  below_2020 (i_year it) = false /\ is_edition (i_txt it) = true.
Proof.
  unfold _iter_listing_page. rewrite scan_listing_spec. cbn [snd].
  intros H. apply List.in_map_iff in H. destruct H as (a & <- & Ha).
  apply List.filter_In in Ha. destruct Ha as [_ Ha].
  apply andb_prop in Ha. destruct Ha as [He Hy].
  cbn [to_item i_year i_txt]. rewrite cutoff_is_below_2020.
  split; [apply negb_true_iff; exact Hy|exact He].
Qed.

(** X15.  The year test of the crawl loop never fires on what the listing
    scan returns: no item of a listing page has a year below 2020, so
    every item whose reference is not yet visited is marked and the
    resolver is called on it.  The loop then goes on with the next item,
    after a skip or an extraction, or is left by an exception of the
    resolver or of the extraction. *)
Theorem year_filter_never_fires (url : str) (it : item) (items : list item) (st : crawl) :
  In it (snd (_iter_listing_page U W url)) ->
  i_href it ∉ seen st ->
  below_2020 (i_year it) = false
  /\ exists st1 rest,
       seen st1 = {[i_href it]} ∪ seen st
       /\ trace st1 = trace st ++ MarkSeen (i_href it) :: Resolve (i_href it) :: rest
       /\ ((process_items U W (it :: items) st = process_items U W items st1
            /\ crashed st1 = crashed st
            /\ (rest = [Skip (i_href it)] \/ rest = [Extract (i_href it)]))
           \/ (process_items U W (it :: items) st = st1
               /\ crashed st1 = true
               /\ (rest = [] \/ rest = [Extract (i_href it)]))).
Proof.
  intros Hit Hs. destruct (listing_items_pass url it Hit) as [Hy _].
  split; [exact Hy|].
  cbn [process_items]. rewrite (bool_decide_eq_false_2 _ Hs), Hy. cbn [orb].
  destruct (returned (_find_pdf_link_in_detail U W (i_href it))) as [[[data|] u]|].
  - destruct (pdf_pages W data) as [pages|].
    + eexists. exists [Extract (i_href it)]. split; [|split; [|left; split; [reflexivity|]]].
      * reflexivity.
      * reflexivity.
      * split; [reflexivity|right; reflexivity].
    + eexists. exists [Extract (i_href it)]. split; [|split; [|right; split; [reflexivity|]]].
      * reflexivity.
      * reflexivity.
      * split; [reflexivity|right; reflexivity].
  - eexists. exists [Skip (i_href it)]. split; [|split; [|left; split; [reflexivity|]]].
    + reflexivity.
    + reflexivity.
    + split; [reflexivity|left; reflexivity].
  - eexists. exists []. split; [|split; [|right; split; [reflexivity|]]].
    + reflexivity.
    + reflexivity.
    + split; [reflexivity|left; reflexivity].
Qed.

End ListingFacts.

Lemma listing_scan_is_a_filter_witness :
  map i_href (snd (_iter_listing_page Latin1 world_crawl second_listing))
  = [utf8 "http://h/e2"; utf8 "http://h/e1"]
  /\ fst (_iter_listing_page Latin1 world_crawl second_listing) = true.
Proof.
  destruct (listing_scan_is_a_filter Latin1 world_crawl second_listing) as [Hs Hf].
  split; [rewrite Hs; vm_compute; reflexivity|].
  apply Hf. exists (edition "Diário Oficial 05-03-2018.pdf" "http://h/e0").
  split; [vm_compute; right; left; reflexivity|].
  split; vm_compute; reflexivity.
Defined.

Lemma year_filter_never_fires_witness :
  below_2020 (Some 2020%Z) = false
  /\ exists st1 rest,
       seen st1 = {[utf8 "http://h/e1"]} ∪ seen start_state
       /\ trace st1 = trace start_state
            ++ MarkSeen (utf8 "http://h/e1") :: Resolve (utf8 "http://h/e1") :: rest
       /\ ((process_items Latin1 world_crawl
              [{| i_href := utf8 "http://h/e1"; i_txt := utf8 "Diário Oficial 02-01-2020.pdf";
                  i_year := Some 2020%Z |}] start_state
            = process_items Latin1 world_crawl [] st1
            /\ crashed st1 = crashed start_state
            /\ (rest = [Skip (utf8 "http://h/e1")] \/ rest = [Extract (utf8 "http://h/e1")]))
           \/ (process_items Latin1 world_crawl
                 [{| i_href := utf8 "http://h/e1"; i_txt := utf8 "Diário Oficial 02-01-2020.pdf";
                     i_year := Some 2020%Z |}] start_state
               = st1
               /\ crashed st1 = true
               /\ (rest = [] \/ rest = [Extract (utf8 "http://h/e1")]))).
Proof.
  apply (year_filter_never_fires Latin1 world_crawl second_listing
           {| i_href := utf8 "http://h/e1"; i_txt := utf8 "Diário Oficial 02-01-2020.pdf";
              i_year := Some 2020%Z |} [] start_state).
  - vm_compute. right. left. reflexivity.
  - apply not_elem_of_empty.
Defined.

(** * What a crawl leaves behind *)

Lemma resolved_app (a b : list event) : resolved (a ++ b) = resolved a ++ resolved b.
Proof. apply List.flat_map_app. Qed.

Lemma extracted_app (a b : list event) : extracted (a ++ b) = extracted a ++ extracted b.
Proof. apply List.flat_map_app. Qed.

Lemma listings_app (a b : list event) : listings (a ++ b) = listings a ++ listings b.
Proof. apply List.flat_map_app. Qed.

Section CrawlResults.

Context (U : PyUnicode) (W : world).

Lemma process_items_results (items : list item) :
  forall st,
    crawl_inv U W st ->
    crawl_inv U W (process_items U W items st)
    /\ (forall h, h ∈ seen st -> h ∈ seen (process_items U W items st))
    /\ (crashed (process_items U W items st) = false ->
        crashed st = false
        /\ forall it, In it items -> below_2020 (i_year it) = false ->
             i_href it ∈ seen (process_items U W items st))
    /\ listings (trace (process_items U W items st)) = listings (trace st).
Proof.
  induction items as [|it items IH]; intros st Hinv.
  - split; [exact Hinv|]. split; [auto|]. split; [|reflexivity].
    intros Hc. split; [exact Hc|intros it []].
  - cbn [process_items].
    destruct (bool_decide (i_href it ∈ seen st)) eqn:Hs; cbn [orb].
    { apply bool_decide_eq_true_1 in Hs.
      destruct (IH st Hinv) as (Hi & Hmono & Hcov & Hl).
      split; [exact Hi|]. split; [exact Hmono|]. split; [|exact Hl].
      intros Hc. destruct (Hcov Hc) as [Hc0 Hall]. split; [exact Hc0|].
      intros it' [<-|Hin] Hy; [exact (Hmono _ Hs)|exact (Hall it' Hin Hy)]. }
    destruct (below_2020 (i_year it)) eqn:Hy.
    { destruct (IH st Hinv) as (Hi & Hmono & Hcov & Hl).
      split; [exact Hi|]. split; [exact Hmono|]. split; [|exact Hl].
      intros Hc. destruct (Hcov Hc) as [Hc0 Hall]. split; [exact Hc0|].
      intros it' [<-|Hin] Hy'; [congruence|exact (Hall it' Hin Hy')]. }
    assert (Hnext : forall st1,
               crawl_inv U W st1 ->
               seen st1 = {[i_href it]} ∪ seen st ->
               crashed st1 = crashed st ->
               listings (trace st1) = listings (trace st) ->
               crawl_inv U W (process_items U W items st1)
               /\ (forall h, h ∈ seen st -> h ∈ seen (process_items U W items st1))
               /\ (crashed (process_items U W items st1) = false ->
                   crashed st = false
                   /\ forall it', In it' (it :: items) -> below_2020 (i_year it') = false ->
                        i_href it' ∈ seen (process_items U W items st1))
               /\ listings (trace (process_items U W items st1)) = listings (trace st)).
    { intros st1 Hinv1 Hseen1 Hcr1 Hl1.
      destruct (IH st1 Hinv1) as (Hi & Hmono & Hcov & Hl).
      assert (Hh : i_href it ∈ seen st1).
      { rewrite Hseen1. apply elem_of_union. left. apply elem_of_singleton. reflexivity. }
      split; [exact Hi|]. split.
      { intros h Hin. apply Hmono. rewrite Hseen1. apply elem_of_union. right. exact Hin. }
      split; [|rewrite Hl; exact Hl1].
      intros Hc. destruct (Hcov Hc) as [Hc1 Hall]. split; [rewrite <- Hcr1; exact Hc1|].
      intros it' [<-|Hin] Hy'; [exact (Hmono _ Hh)|exact (Hall it' Hin Hy')]. }
    assert (Hstop : forall st1,
               crawl_inv U W st1 ->
               seen st1 = {[i_href it]} ∪ seen st ->
               crashed st1 = true ->
               listings (trace st1) = listings (trace st) ->
               crawl_inv U W st1
               /\ (forall h, h ∈ seen st -> h ∈ seen st1)
               /\ (crashed st1 = false ->
                   crashed st = false
                   /\ forall it', In it' (it :: items) -> below_2020 (i_year it') = false ->
                        i_href it' ∈ seen st1)
               /\ listings (trace st1) = listings (trace st)).
    { intros st1 Hinv1 Hseen1 Hcr1 Hl1.
      split; [exact Hinv1|]. split.
      { intros h Hin. rewrite Hseen1. apply elem_of_union. right. exact Hin. }
      split; [|exact Hl1]. intros Hc. rewrite Hcr1 in Hc. discriminate Hc. }
    destruct Hinv as [Hsv Hrw Hsn Hwr].
    assert (Hsn1 : forall rest h,
               resolved rest = [] ->
               h ∈ {[i_href it]} ∪ seen st
               <-> In h (resolved (trace st ++ MarkSeen (i_href it) :: Resolve (i_href it) :: rest))).
    { intros rest h Hrest. rewrite resolved_app, elem_of_union, elem_of_singleton, Hsn.
      change (resolved (MarkSeen (i_href it) :: Resolve (i_href it) :: rest))
        with (i_href it :: resolved rest).
      rewrite Hrest. split.
      - intros [->|H]; apply List.in_or_app; [right; left; reflexivity|left; exact H].
      - intros H. apply List.in_app_or in H. destruct H as [H|[<-|[]]]; tauto. }
    assert (Hold : forall rest w,
               In w (written st) ->
               exists data pages,
                 In (detail_url w)
                    (extracted (trace st ++ MarkSeen (i_href it) :: Resolve (i_href it) :: rest))
                 /\ returned (_find_pdf_link_in_detail U W (detail_url w))
                    = Returns (Some data, row_pdf_url w)
                 /\ pdf_pages W data = Some pages
                 /\ In (reg w) (_extract_records U pages)).
    { intros rest w Hw. destruct (Hwr w Hw) as (data' & pages' & He & Hrest).
      exists data', pages'. split; [|exact Hrest].
      rewrite extracted_app. apply List.in_or_app. left. exact He. }
    assert (Hlst : forall rest,
               listings rest = [] ->
               listings (trace st ++ MarkSeen (i_href it) :: Resolve (i_href it) :: rest)
               = listings (trace st)).
    { intros rest Hrest. rewrite listings_app.
      change (listings (MarkSeen (i_href it) :: Resolve (i_href it) :: rest))
        with (listings rest).
      rewrite Hrest. apply List.app_nil_r. }
    destruct (returned (_find_pdf_link_in_detail U W (i_href it))) as [[[data|] url]|] eqn:Hb.
    + destruct (pdf_pages W data) as [pages|] eqn:Hp.
      * apply Hnext; [split; cbn [saved rows_total seen written trace]| reflexivity | reflexivity |].
        -- rewrite extracted_app, List.length_app, Hsv. simpl. lia.
        -- rewrite List.length_app, List.length_map, Hrw. reflexivity.
        -- intros h. apply (Hsn1 [Extract (i_href it)]). reflexivity.
        -- intros w Hw. apply List.in_app_or in Hw. destruct Hw as [Hw|Hw].
           ++ exact (Hold _ w Hw).
           ++ apply List.in_map_iff in Hw. destruct Hw as (r & <- & Hr).
              exists data, pages. cbn [detail_url row_pdf_url reg].
              split; [rewrite extracted_app; apply List.in_or_app; right; left; reflexivity|].
              split; [exact Hb|]. split; [exact Hp|exact Hr].
        -- cbn [trace]. apply Hlst. reflexivity.
      * apply Hstop; [split; cbn [saved rows_total seen written trace]| reflexivity | reflexivity |].
        -- rewrite extracted_app, List.length_app, Hsv. simpl. lia.
        -- exact Hrw.
        -- intros h. apply (Hsn1 [Extract (i_href it)]). reflexivity.
        -- intros w Hw. exact (Hold _ w Hw).
        -- cbn [trace]. apply Hlst. reflexivity.
    + apply Hnext; [split; cbn [saved rows_total seen written trace]| reflexivity | reflexivity |].
      * rewrite extracted_app, List.length_app, Hsv. simpl. lia.
      * exact Hrw.
      * intros h. apply (Hsn1 [Skip (i_href it)]). reflexivity.
      * intros w Hw. exact (Hold _ w Hw).
      * cbn [trace]. apply Hlst. reflexivity.
    + apply Hstop; [split; cbn [saved rows_total seen written trace]| reflexivity | reflexivity |].
      * rewrite extracted_app, List.length_app, Hsv. simpl. lia.
      * exact Hrw.
      * intros h. apply (Hsn1 []). reflexivity.
      * intros w Hw. exact (Hold _ w Hw).
      * cbn [trace]. apply Hlst. reflexivity.
Qed.

Lemma log_listing_inv (u : str) (st : crawl) :
  crawl_inv U W st -> crawl_inv U W (log [Listing u] st).
Proof.
  intros [Hsv Hrw Hsn Hwr]. split; cbn [log saved rows_total seen written trace].
  - rewrite extracted_app. simpl. rewrite List.app_nil_r. exact Hsv.
  - exact Hrw.
  - intros h. rewrite resolved_app. simpl. rewrite List.app_nil_r. exact (Hsn h).
  - intros w Hw. destruct (Hwr w Hw) as (data & pages & He & Hrest). exists data, pages.
    split; [|exact Hrest]. rewrite extracted_app. simpl. rewrite List.app_nil_r. exact He.
Qed.

(** One listing page: fetch it and process its items. *)
Lemma page_results (u : str) (st : crawl) :
  crawl_inv U W st -> covered U W st ->
  crawl_inv U W (process_items U W (snd (_iter_listing_page U W u)) (log [Listing u] st))
  /\ covered U W (process_items U W (snd (_iter_listing_page U W u)) (log [Listing u] st))
  /\ listings (trace (process_items U W (snd (_iter_listing_page U W u)) (log [Listing u] st)))
     = listings (trace st) ++ [u].
Proof.
  intros Hinv Hcov.
  destruct (process_items_results (snd (_iter_listing_page U W u)) _ (log_listing_inv u st Hinv))
    as (Hi & Hmono & Hitems & Hl).
  cbn [log trace seen crashed] in Hl, Hmono, Hitems. rewrite listings_app in Hl. simpl in Hl.
  split; [exact Hi|]. split; [|exact Hl].
  intros Hc u' it Hu' Hit. destruct (Hitems Hc) as [Hc0 Hall].
  rewrite Hl in Hu'. apply List.in_app_or in Hu'.
  destruct Hu' as [Hu'|[<-|[]]].
  - apply Hmono. exact (Hcov Hc0 u' it Hu' Hit).
  - apply (Hall it Hit). exact (proj1 (listing_items_pass U W u it Hit)).
Qed.

Lemma pages_loop_results (starts : list nat) :
  forall st,
    crawl_inv U W st -> covered U W st ->
    crawl_inv U W (pages_loop U W starts st)
    /\ covered U W (pages_loop U W starts st)
    /\ exists k,
         listings (trace (pages_loop U W starts st))
         = listings (trace st) ++ map listing_url (firstn k starts)
         /\ ((forall u, fst (_iter_listing_page U W u) = false) ->
             crashed (pages_loop U W starts st) = false ->
             k = length starts).
Proof.
  induction starts as [|start starts IH]; intros st Hinv Hcov.
  - split; [exact Hinv|]. split; [exact Hcov|]. exists 0%nat.
    split; [symmetry; apply List.app_nil_r|reflexivity].
  - cbn [pages_loop].
    destruct (page_results (listing_url start) st Hinv Hcov) as (Hi & Hc & Hl).
    destruct (crashed (process_items U W (snd (_iter_listing_page U W (listing_url start)))
                         (log [Listing (listing_url start)] st))) eqn:Hcr; cbn [orb].
    { split; [exact Hi|]. split; [exact Hc|]. exists 1%nat.
      split; [exact Hl|]. intros _ Hno. rewrite Hcr in Hno. discriminate Hno. }
    destruct (fst (_iter_listing_page U W (listing_url start))) eqn:Hstop.
    + split; [exact Hi|]. split; [exact Hc|]. exists 1%nat.
      split; [exact Hl|]. intros Hno. rewrite Hno in Hstop. discriminate Hstop.
    + destruct (IH _ Hi Hc) as (Hi' & Hc' & k & Hk & Hfull).
      split; [exact Hi'|]. split; [exact Hc'|]. exists (S k).
      split; [rewrite Hk, Hl, <- List.app_assoc; reflexivity|].
      intros Hno Hcr'. rewrite (Hfull Hno Hcr'). reflexivity.
Qed.

Lemma start_results : crawl_inv U W start_state /\ covered U W start_state.
Proof.
  split; [split; cbn; try reflexivity|].
  - intros h. split; [intros H; exact (not_elem_of_empty h H)|intros []].
  - intros w [].
  - intros _ u it [].
Qed.

Lemma historico_results :
  crawl_inv U W (_historico_stream U W)
  /\ covered U W (_historico_stream U W)
  /\ exists k,
       listings (trace (_historico_stream U W)) = BASE_URL :: firstn k later_pages
       /\ ((forall u, fst (_iter_listing_page U W u) = false) ->
           crashed (_historico_stream U W) = false ->
           k = length later_pages).
Proof.
  unfold _historico_stream.
  destruct start_results as [Hinv0 Hcov0].
  destruct (page_results BASE_URL start_state Hinv0 Hcov0) as (Hi & Hc & Hl).
  cbn [start_state trace listings flat_map app] in Hl.
  destruct (crashed (process_items U W (snd (_iter_listing_page U W BASE_URL))
                       (log [Listing BASE_URL] start_state))) eqn:Hcr; cbn [orb].
  { split; [exact Hi|]. split; [exact Hc|]. exists 0%nat.
    split; [exact Hl|]. intros _ Hno. rewrite Hcr in Hno. discriminate Hno. }
  destruct (fst (_iter_listing_page U W BASE_URL)) eqn:Hstop.
  - split; [exact Hi|]. split; [exact Hc|]. exists 0%nat.
    split; [exact Hl|]. intros Hno. rewrite Hno in Hstop. discriminate Hstop.
  - destruct (pages_loop_results (py_range 12 (N.to_nat 20000) PAGE_STEP) _ Hi Hc)
      as (Hi' & Hc' & k & Hk & Hfull).
    split; [exact Hi'|]. split; [exact Hc'|]. exists k.
    unfold later_pages. rewrite List.firstn_map, List.length_map.
    split; [rewrite Hk, Hl; reflexivity|exact Hfull].
Qed.

(** X16.  The counters of the summary are exact: [saved] is the number of
    documents extracted and [rows_total] the number of rows written. *)
Theorem counters_are_exact :
  saved (_historico_stream U W) = length (extracted (trace (_historico_stream U W)))
  /\ rows_total (_historico_stream U W) = length (written (_historico_stream U W)).
Proof.
  destruct historico_results as ([Hsv Hrw _ _] & _). split; [exact Hsv|exact Hrw].
Qed.

(** X17.  A crawl that no exception left leaves nothing out: every item
    of every listing page it fetched was resolved.  In every crawl the
    visited set holds exactly the references resolved. *)
Theorem every_listed_item_is_resolved (u : str) (it : item) :
  (crashed (_historico_stream U W) = false ->
   In u (listings (trace (_historico_stream U W))) ->
   In it (snd (_iter_listing_page U W u)) ->
   In (i_href it) (resolved (trace (_historico_stream U W))))
  /\ forall h, h ∈ seen (_historico_stream U W)
               <-> In h (resolved (trace (_historico_stream U W))).
Proof.
  destruct historico_results as ([_ _ Hsn _] & Hcov & _).
  split; [|exact Hsn]. intros Hc Hu Hit. apply Hsn. exact (Hcov Hc u it Hu Hit).
Qed.

(** X18.  Every row written comes from a document of the crawl: its
    detail reference was resolved to bytes and extracted, its PDF URL is
    the one the resolver returned, and its record is one of the records
    of that document. *)
Theorem rows_come_from_documents (w : row) :
  In w (written (_historico_stream U W)) ->
  exists data pages,
    In (detail_url w) (extracted (trace (_historico_stream U W)))
    /\ returned (_find_pdf_link_in_detail U W (detail_url w))
       = Returns (Some data, row_pdf_url w)
    /\ pdf_pages W data = Some pages
    /\ In (reg w) (_extract_records U pages).
Proof.
  destruct historico_results as ([_ _ _ Hwr] & _). exact (Hwr w).
Qed.

(** X19.  Listing pages are fetched in order and without gaps: the base
    page first, then the pages of offsets 12, 24, ... up to some point; at
    most 1667 listing pages are fetched in all. *)
Theorem listings_in_order :
  exists k,
    listings (trace (_historico_stream U W)) = BASE_URL :: firstn k later_pages
    /\ (length (listings (trace (_historico_stream U W))) <= 1667)%nat.
Proof.
  destruct historico_results as (_ & _ & k & Hk & _).
  exists k. split; [exact Hk|]. rewrite Hk. cbn [length].
  assert (Hlen : length later_pages = 1666%nat) by (vm_compute; reflexivity).
  rewrite length_take, Hlen. lia.
Qed.

(** X20.  When no listing page sets the stop flag and no exception
    leaves the crawl, it ends at the ceiling of the loop: the base page and
    the 1666 pages of offsets 12 to 19992 are fetched, and no other. *)
Theorem crawl_stops_at_ceiling :
  (forall u, fst (_iter_listing_page U W u) = false) ->
  crashed (_historico_stream U W) = false ->
  listings (trace (_historico_stream U W)) = BASE_URL :: later_pages
  /\ length (listings (trace (_historico_stream U W))) = 1667%nat.
Proof.
  intros Hno Hc. destruct historico_results as (_ & _ & k & Hk & Hfull).
  rewrite Hk, (Hfull Hno Hc), List.firstn_all.
  split; [reflexivity|]. cbn [length].
  assert (Hlen : length later_pages = 1666%nat) by (vm_compute; reflexivity).
  rewrite Hlen. reflexivity.
Qed.

Lemma process_items_exception (items : list item) :
  forall st,
    crashed st = false ->
    crashed (process_items U W items st) = true ->
    ends_in_exception U W (process_items U W items st).
Proof.
  induction items as [|it items IH]; intros st Hc0; cbn [process_items].
  - intros Hc. congruence.
  - destruct (bool_decide (i_href it ∈ seen st) || below_2020 (i_year it)); [exact (IH st Hc0)|].
    destruct (returned (_find_pdf_link_in_detail U W (i_href it))) as [[[data|] url]|] eqn:Hr.
    + destruct (pdf_pages W data) as [pages|] eqn:Hp.
      * apply IH. exact Hc0.
      * intros _. exists (trace st), (i_href it). right.
        split; [reflexivity|]. exists data, url. split; [exact Hr|exact Hp].
    + apply IH. exact Hc0.
    + intros _. exists (trace st), (i_href it). left. split; [reflexivity|exact Hr].
Qed.

Lemma pages_loop_exception (starts : list nat) :
  forall st,
    crashed st = false ->
    crashed (pages_loop U W starts st) = true ->
    ends_in_exception U W (pages_loop U W starts st).
Proof.
  induction starts as [|start starts IH]; intros st Hc0; cbn [pages_loop].
  - intros Hc. congruence.
  - pose proof (process_items_exception (snd (_iter_listing_page U W (listing_url start)))
                  (log [Listing (listing_url start)] st) Hc0) as Hp.
    destruct (crashed (process_items U W (snd (_iter_listing_page U W (listing_url start)))
                         (log [Listing (listing_url start)] st))) eqn:Hcr; cbn [orb].
    + intros _. exact (Hp eq_refl).
    + destruct (fst (_iter_listing_page U W (listing_url start))).
      * intros Hc. congruence.
      * apply IH. exact Hcr.
Qed.

(** X25.  An exception ends a historical crawl at the call that raised:
    the trace of a crawl that an exception left ends with the call of the
    resolver that raised, or with the call of the extractor that raised on
    the bytes resolved; no listing page is fetched and no item is looked at
    after it. *)
Theorem exception_ends_crawl :
  crashed (_historico_stream U W) = true ->
  ends_in_exception U W (_historico_stream U W).
Proof.
  unfold _historico_stream.
  pose proof (process_items_exception (snd (_iter_listing_page U W BASE_URL))
                (log [Listing BASE_URL] start_state) eq_refl) as Hp.
  destruct (crashed (process_items U W (snd (_iter_listing_page U W BASE_URL))
                       (log [Listing BASE_URL] start_state))) eqn:Hcr; cbn [orb].
  - intros _. exact (Hp eq_refl).
  - destruct (fst (_iter_listing_page U W BASE_URL)).
    + intros Hc. congruence.
    + apply pages_loop_exception. exact Hcr.
Qed.

End CrawlResults.

Lemma every_listed_item_is_resolved_witness :
  In (utf8 "http://h/e1") (resolved (trace (_historico_stream Latin1 world_crawl))).
Proof.
  destruct (every_listed_item_is_resolved Latin1 world_crawl second_listing
              {| i_href := utf8 "http://h/e1"; i_txt := utf8 "Diário Oficial 02-01-2020.pdf";
                 i_year := Some 2020%Z |}) as [H _].
  apply H.
  - vm_compute. reflexivity.
  - vm_compute. right. left. reflexivity.
  - vm_compute. right. left. reflexivity.
Defined.

(** An exception of the resolver ends the crawl before the second edition
    of the page is resolved. *)
Lemma crashed_crawl_leaves_items :
  crashed (_historico_stream Latin1 world_bad_href) = true
  /\ In BASE_URL (listings (trace (_historico_stream Latin1 world_bad_href)))
  /\ In (utf8 "http://h/e2") (map i_href (snd (_iter_listing_page Latin1 world_bad_href BASE_URL)))
  /\ ~ In (utf8 "http://h/e2") (resolved (trace (_historico_stream Latin1 world_bad_href))).
Proof.
  split; [vm_compute; reflexivity|]. split; [vm_compute; left; reflexivity|].
  split; [vm_compute; right; left; reflexivity|].
  intros H. vm_compute in H. destruct H as [H|[]]. discriminate H.
Qed.

Lemma exception_ends_crawl_witness :
  ends_in_exception Latin1 world_mislabelled (_historico_stream Latin1 world_mislabelled).
Proof.
  apply (exception_ends_crawl Latin1 world_mislabelled).
  vm_compute. reflexivity.
Defined.

(** The decoder raises on the first document: it was counted as saved, no
    row was written, and the second edition of the page was not resolved. *)
Lemma mislabelled_document_ends_crawl :
  trace (_historico_stream Latin1 world_mislabelled)
  = [Listing BASE_URL; MarkSeen (utf8 "http://h/e3"); Resolve (utf8 "http://h/e3");
     Extract (utf8 "http://h/e3")]
  /\ saved (_historico_stream Latin1 world_mislabelled) = 1%nat
  /\ written (_historico_stream Latin1 world_mislabelled) = []
  /\ resolved (d_trace (rodar_diario Latin1 world_mislabelled))
     = [utf8 "http://h/e3"; utf8 "http://h/e2"]
  /\ d_saved (rodar_diario Latin1 world_mislabelled) = 2%nat
  /\ d_rows (rodar_diario Latin1 world_mislabelled) = [].
Proof.
  split; [vm_compute; reflexivity|]. split; [vm_compute; reflexivity|].
  split; [vm_compute; reflexivity|]. split; [vm_compute; reflexivity|].
  split; vm_compute; reflexivity.
Qed.

Lemma rows_come_from_documents_witness :
  exists w data pages,
    In w (written (_historico_stream Latin1 world_crawl))
    /\ detail_url w = utf8 "http://h/e3"
    /\ In (detail_url w) (extracted (trace (_historico_stream Latin1 world_crawl)))
    /\ returned (_find_pdf_link_in_detail Latin1 world_crawl (detail_url w))
       = Returns (Some data, row_pdf_url w)
    /\ pdf_pages world_crawl data = Some pages
    /\ In (reg w) (_extract_records Latin1 pages).
Proof.
  destruct (written (_historico_stream Latin1 world_crawl)) as [|w l] eqn:E;
    [vm_compute in E; discriminate E|].
  assert (Hw : In w (written (_historico_stream Latin1 world_crawl)))
    by (rewrite E; left; reflexivity).
  destruct (rows_come_from_documents Latin1 world_crawl w Hw) as (data & pages & H).
  exists w, data, pages. split; [left; reflexivity|].
  split; [|exact H].
  vm_compute in E. injection E as <- _. vm_compute. reflexivity.
Defined.

Lemma crawl_stops_at_ceiling_witness :
  length (listings (trace (_historico_stream Latin1 world_steady))) = 1667%nat.
Proof.
  apply (crawl_stops_at_ceiling Latin1 world_steady).
  - intros u. unfold _iter_listing_page. cbn [world_steady browse].
    destruct (str_eqb u (utf8 "http://h/e3")); vm_compute; reflexivity.
  - vm_compute. reflexivity.
Defined.

(** * The daily mode *)

Section DiarioFacts.

Context (U : PyUnicode) (W : world).

Lemma diario_items_results (ds : list (option str * str)) :
  forall run,
    resolved (d_trace (diario_items U W ds run)) = resolved (d_trace run) ++ hrefs_of ds
    /\ listings (d_trace (diario_items U W ds run)) = listings (d_trace run)
    /\ (d_saved run = length (extracted (d_trace run)) ->
        d_saved (diario_items U W ds run)
        = length (extracted (d_trace (diario_items U W ds run))))
    /\ ((forall w, In w (d_rows run) -> In (detail_url w) (extracted (d_trace run))) ->
        forall w, In w (d_rows (diario_items U W ds run)) ->
          In (detail_url w) (extracted (d_trace (diario_items U W ds run)))).
Proof.
  induction ds as [|[[h|] txt] ds IH]; intros run.
  - cbn [diario_items hrefs_of flat_map]. rewrite List.app_nil_r. auto.
  - cbn [diario_items].
    assert (Hstep : forall rest run1,
               resolved rest = [] -> listings rest = [] ->
               d_trace run1 = d_trace run ++ Resolve h :: rest ->
               (d_saved run = length (extracted (d_trace run)) ->
                d_saved run1 = length (extracted (d_trace run1))) ->
               ((forall w, In w (d_rows run) -> In (detail_url w) (extracted (d_trace run))) ->
                forall w, In w (d_rows run1) -> In (detail_url w) (extracted (d_trace run1))) ->
               resolved (d_trace (diario_items U W ds run1))
               = resolved (d_trace run) ++ hrefs_of ((Some h, txt) :: ds)
               /\ listings (d_trace (diario_items U W ds run1)) = listings (d_trace run)
               /\ (d_saved run = length (extracted (d_trace run)) ->
                   d_saved (diario_items U W ds run1)
                   = length (extracted (d_trace (diario_items U W ds run1))))
               /\ ((forall w, In w (d_rows run) -> In (detail_url w) (extracted (d_trace run))) ->
                   forall w, In w (d_rows (diario_items U W ds run1)) ->
                     In (detail_url w) (extracted (d_trace (diario_items U W ds run1))))).
    { intros rest run1 Hres Hlis Htr Hsv Hrw.
      destruct (IH run1) as (Hr & Hl & Hs & Hw).
      split; [|split; [|split]].
      - rewrite Hr, Htr, resolved_app.
        change (resolved (Resolve h :: rest)) with (h :: resolved rest).
        rewrite Hres, <- List.app_assoc. reflexivity.
      - rewrite Hl, Htr, listings_app.
        change (listings (Resolve h :: rest)) with (listings rest).
        rewrite Hlis. apply List.app_nil_r.
      - intros E. exact (Hs (Hsv E)).
      - intros Hold. exact (Hw (Hrw Hold)). }
    destruct (returned (_find_pdf_link_in_detail U W h)) as [[[data|] url]|].
    + destruct (pdf_pages W data) as [pages|].
      * apply (Hstep [Extract h]); [reflexivity|reflexivity|reflexivity| |];
          cbn [d_saved d_trace d_rows].
        -- intros E. rewrite extracted_app, List.length_app, E. cbn. lia.
        -- intros Hold w Hin. rewrite extracted_app.
           apply List.in_app_or in Hin. apply List.in_or_app. destruct Hin as [Hin|Hin].
           ++ left. exact (Hold w Hin).
           ++ right. apply List.in_map_iff in Hin. destruct Hin as (r & <- & _).
              left. reflexivity.
      * apply (Hstep [Extract h]); [reflexivity|reflexivity|reflexivity| |];
          cbn [d_saved d_trace d_rows].
        -- intros E. rewrite extracted_app, List.length_app, E. cbn. lia.
        -- intros Hold w Hin. rewrite extracted_app.
           apply List.in_or_app. left. exact (Hold w Hin).
    + apply (Hstep [Skip h]); [reflexivity|reflexivity|reflexivity| |];
        cbn [d_saved d_trace d_rows].
      * intros E. rewrite extracted_app, List.length_app, E. cbn. lia.
      * intros Hold w Hin. rewrite extracted_app.
        apply List.in_or_app. left. exact (Hold w Hin).
    + apply (Hstep []); [reflexivity|reflexivity|reflexivity| |];
        cbn [d_saved d_trace d_rows].
      * intros E. rewrite extracted_app, List.length_app, E. cbn. lia.
      * intros Hold w Hin. rewrite extracted_app.
        apply List.in_or_app. left. exact (Hold w Hin).
  - cbn [diario_items]. exact (IH run).
Qed.

Lemma hrefs_of_length (ds : list (option str * str)) : (length (hrefs_of ds) <= length ds)%nat.
Proof.
  unfold hrefs_of. induction ds as [|[[h|] txt] ds IH]; simpl in *; lia.
Qed.

(** X21.  The daily mode looks at the first listing page only and resolves
    the references of its first five editions, in the order of the page:
    whatever their year, and a reference listed twice is resolved twice.
    At most five documents are saved, and every row belongs to a document
    that was extracted. *)
Theorem daily_mode_takes_first_five :
  listings (d_trace (rodar_diario U W)) = [BASE_URL]
  /\ resolved (d_trace (rodar_diario U W)) = hrefs_of (detalhes W)
  /\ (length (resolved (d_trace (rodar_diario U W))) <= 5)%nat
  /\ d_saved (rodar_diario U W) = length (extracted (d_trace (rodar_diario U W)))
  /\ forall w, In w (d_rows (rodar_diario U W)) ->
       In (detail_url w) (extracted (d_trace (rodar_diario U W))).
Proof.
  unfold rodar_diario.
  match goal with
  | |- context [diario_items U W ?ds ?r] => destruct (diario_items_results ds r) as (Hr & Hl & Hs & Hw)
  end.
  cbn [d_trace d_saved d_rows] in Hr, Hl, Hs, Hw.
  split; [exact Hl|]. split; [exact Hr|]. split.
  - rewrite Hr. cbn [resolved flat_map app].
    pose proof (hrefs_of_length (detalhes W)) as H1.
    assert (H2 : (length (detalhes W) <= 5)%nat).
    { unfold detalhes. rewrite length_take. lia. }
    lia.
  - split; [apply Hs; reflexivity|]. apply Hw. intros w [].
Qed.

End DiarioFacts.

Lemma daily_mode_example :
  resolved (d_trace (rodar_diario Latin1 world_daily))
  = [utf8 "http://h/e0"; utf8 "http://h/e3"; utf8 "http://h/e3"; utf8 "http://h/e2";
     utf8 "http://h/e1"]
  /\ d_saved (rodar_diario Latin1 world_daily) = 4%nat
  /\ resolved (trace (_historico_stream Latin1 world_daily))
     = [utf8 "http://h/e3"; utf8 "http://h/e2"; utf8 "http://h/e1"; utf8 "http://h/e5"].
Proof. split; [|split]; vm_compute; reflexivity. Qed.

Lemma daily_mode_takes_first_five_witness :
  resolved (d_trace (rodar_diario Latin1 world_daily))
  = [utf8 "http://h/e0"; utf8 "http://h/e3"; utf8 "http://h/e3"; utf8 "http://h/e2";
     utf8 "http://h/e1"]
  /\ d_saved (rodar_diario Latin1 world_daily) = 4%nat.
Proof.
  destruct (daily_mode_takes_first_five Latin1 world_daily) as (_ & Hr & _ & Hs & _).
  split; [rewrite Hr|rewrite Hs]; vm_compute; reflexivity.
Defined.

(** * No listing page twice *)

Lemma increasing_lower_bound (l : list Z) (a : Z) :
  increasing (a :: l) = true -> forall x, In x l -> (a < x)%Z.
Proof.
  revert a. induction l as [|b l IH]; intros a H x Hx; [destruct Hx|].
  cbn [increasing] in H. apply andb_prop in H. destruct H as [Hab Hrest].
  apply Z.ltb_lt in Hab. destruct Hx as [<-|Hx]; [exact Hab|].
  specialize (IH b Hrest x Hx). lia.
Qed.

Lemma increasing_NoDup (l : list Z) : increasing l = true -> NoDup l.
Proof.
  induction l as [|a l IH]; intros H; constructor.
  - intros Ha. apply list_elem_of_In in Ha.
    pose proof (increasing_lower_bound l a H a Ha). lia.
  - apply IH. destruct l as [|b l]; [reflexivity|].
    cbn [increasing] in H. apply andb_prop in H. exact (proj2 H).
Qed.

Lemma later_offsets_increasing : increasing (map offset_of later_pages) = true.
Proof. vm_compute. reflexivity. Qed.

Lemma app_is_longer {A} (a b c : list A) : b <> [] -> a ++ b ++ c <> a.
Proof.
  intros Hb E. apply (f_equal (@length A)) in E.
  rewrite !List.length_app in E. destruct b; [congruence|]. simpl in E. lia.
Qed.

Lemma base_is_no_later_page : ~ In BASE_URL later_pages.
Proof.
  intros H.
  destruct (proj1 (List.in_map_iff listing_url (py_range 12 (N.to_nat 20000) PAGE_STEP) BASE_URL) H)
    as (n & E & _).
  revert E. unfold listing_url. apply app_is_longer. vm_compute. discriminate.
Qed.

Lemma listing_urls_distinct : NoDup (BASE_URL :: later_pages).
Proof.
  constructor.
  - intros H. apply list_elem_of_In in H. exact (base_is_no_later_page H).
  - apply (NoDup_fmap_1 offset_of). apply increasing_NoDup.
    exact later_offsets_increasing.
Qed.

(** X23.  No listing page is fetched twice in a crawl. *)
Theorem no_listing_twice (U : PyUnicode) (W : world) :
  NoDup (listings (trace (_historico_stream U W))).
Proof.
  destruct (historico_results U W) as (_ & _ & k & Hk & _). rewrite Hk.
  pose proof listing_urls_distinct as H.
  apply NoDup_cons in H. destruct H as [Hb Hl].
  apply NoDup_cons. split.
  - intros Hin. apply Hb. apply list_elem_of_In in Hin. apply list_elem_of_In.
    rewrite <- (firstn_skipn k later_pages). apply List.in_or_app. left. exact Hin.
  - rewrite <- (firstn_skipn k later_pages) in Hl. apply NoDup_app in Hl. exact (proj1 Hl).
Qed.

(** * The ranking of the name fallback *)

Lemma key_le_total (a b : Z * bool) : key_le a b = false -> key_le b a = true.
Proof.
  destruct a as [a1 a2], b as [b1 b2]. unfold key_le. cbn [fst snd].
  intros H. apply orb_false_elim in H. destruct H as [H1 H2].
  apply Z.ltb_ge in H1.
  destruct (Z.ltb_spec b1 a1); [reflexivity|].
  assert (a1 = b1) by lia. subst. rewrite Z.eqb_refl in H2 |- *. cbn in *.
  destruct a2, b2; cbn in *; congruence.
Qed.

Lemma key_le_trans (a b c : Z * bool) :
  key_le a b = true -> key_le b c = true -> key_le a c = true.
Proof.
  destruct a as [a1 a2], b as [b1 b2], c as [c1 c2]. unfold key_le. cbn [fst snd].
  intros H1 H2.
  destruct (Z.ltb_spec a1 b1), (Z.ltb_spec b1 c1), (Z.ltb_spec a1 c1);
    cbn in *; try reflexivity; try lia;
    destruct (Z.eqb_spec a1 b1), (Z.eqb_spec b1 c1), (Z.eqb_spec a1 c1);
    cbn in *; try discriminate; try lia.
  destruct a2, b2, c2; cbn in *; congruence.
Qed.

Section Ranking.

Context {A : Type} (key : A -> Z * bool).

Let le (x y : A) : bool := key_le (key x) (key y).
Let leP (x y : A) : Prop := le x y = true.

Lemma insert_by_In_iff (x y : A) (l : list A) :
  In x (insert_by le y l) <-> x = y \/ In x l.
Proof.
  induction l as [|a l IH]; simpl.
  - split; [intros [<-|[]]; left; reflexivity|intros [->|[]]; left; reflexivity].
  - destruct (le y a); simpl; [split; intros [<-|H]; auto|].
    rewrite IH. split; intros H; tauto.
Qed.

Lemma insert_by_sorted (x : A) (l : list A) :
  StronglySorted leP l -> StronglySorted leP (insert_by le x l).
Proof.
  induction 1 as [|a l Hs IH Hf]; simpl; [repeat constructor|].
  destruct (le x a) eqn:E.
  - constructor; [constructor; assumption|].
    constructor; [exact E|].
    eapply List.Forall_impl; [|exact Hf]. intros z Hz.
    exact (key_le_trans _ _ _ E Hz).
  - constructor; [exact IH|].
    apply List.Forall_forall. intros z Hz. apply insert_by_In_iff in Hz.
    destruct Hz as [->|Hz]; [exact (key_le_total _ _ E)|].
    rewrite List.Forall_forall in Hf. exact (Hf z Hz).
Qed.

Lemma sort_by_sorted (l : list A) : StronglySorted leP (sort_by le l).
Proof.
  unfold sort_by. induction l as [|a l IH]; simpl; [constructor|].
  apply insert_by_sorted. exact IH.
Qed.

Lemma sort_by_In_iff (x : A) (l : list A) : In x (sort_by le l) <-> In x l.
Proof.
  unfold sort_by. induction l as [|a l IH]; simpl; [tauto|].
  rewrite insert_by_In_iff, IH. split; intros [H|H]; auto.
Qed.

Lemma sort_by_head (l : list A) (h : A) (t : list A) :
  sort_by le l = h :: t ->
  In h l /\ forall x, In x l -> le h x = true.
Proof.
  intros E. pose proof (sort_by_sorted l) as Hs. rewrite E in Hs.
  inversion Hs as [|? ? _ Hf]; subst.
  split; [apply sort_by_In_iff; rewrite E; left; reflexivity|].
  intros x Hx. apply sort_by_In_iff in Hx. rewrite E in Hx. destruct Hx as [<-|Hx].
  - destruct (le h h) eqn:Eh; [reflexivity|].
    pose proof (key_le_total _ _ Eh) as Ht. unfold le in Eh. congruence.
  - rewrite List.Forall_forall in Hf. exact (Hf x Hx).
Qed.

End Ranking.

(** X24.  The name fallback picks a longest candidate: the name it gives
    is one of the upper-case runs that survive the stoplist, and none of
    them is longer; without a surviving run the name is empty. *)
Theorem janela_picks_longest (U : PyUnicode) (bflat : str) :
  (janela_cand U (janela_win U bflat) = [] -> nome_janela U bflat = [])
  /\ forall x, In x (janela_cand U (janela_win U bflat)) ->
       In (nome_janela U bflat) (janela_cand U (janela_win U bflat))
       /\ (length x <= length (nome_janela U bflat))%nat.
Proof.
  assert (E : nome_janela U bflat
              = match sort_by (fun x y => key_le (sort_key U x) (sort_key U y))
                              (janela_cand U (janela_win U bflat)) with
                | x :: _ => x
                | [] => []
                end) by reflexivity.
  split.
  - intros Hnil. rewrite E, Hnil. reflexivity.
  - intros x Hx. rewrite E.
    destruct (sort_by (fun x y => key_le (sort_key U x) (sort_key U y))
                      (janela_cand U (janela_win U bflat))) as [|h t] eqn:Es.
    + apply (sort_by_In_iff (sort_key U)) in Hx. rewrite Es in Hx. destruct Hx.
    + destruct (sort_by_head (sort_key U) _ h t Es) as [Hin Hle].
      split; [exact Hin|].
      specialize (Hle x Hx). unfold key_le, sort_key in Hle. cbn [fst snd] in Hle.
      apply orb_prop in Hle. destruct Hle as [Hlt|Heq].
      * apply Z.ltb_lt in Hlt. lia.
      * apply andb_prop in Heq. destruct Heq as [Heq _]. apply Z.eqb_eq in Heq. lia.
Qed.

Lemma janela_picks_longest_witness :
  janela_cand Latin1 (janela_win Latin1 block_ranked)
  = [utf8 "ANA COSTA"; utf8 "CARLOS ALBERTO NUNES"; utf8 "RUI BRAGA"]
  /\ nome_janela Latin1 block_ranked = utf8 "CARLOS ALBERTO NUNES"
  /\ (length (utf8 "RUI BRAGA") <= length (nome_janela Latin1 block_ranked))%nat.
Proof.
  split; [vm_compute; reflexivity|]. split; [vm_compute; reflexivity|].
  destruct (janela_picks_longest Latin1 block_ranked) as [_ H].
  apply (H (utf8 "RUI BRAGA")).
  vm_compute. right. right. left. reflexivity.
Defined.
